(** * Study Buddy: the orchestration core, embedded and verified

    A shallow embedding of the parts of the Study Buddy application that
    its specification talks about:

    - [utils.py]: [extract_first_json_array], [validate_file_type],
      [get_file_size_mb], [create_temp_filename], [cleanup_temp_file];
    - [config.py]: [SUPPORTED_EXTS], [MAX_FILE_SIZE_MB] and the timeouts;
    - [file_manager.py]: the [FileManager] class;
    - [openai_client.py]: the remote calls of [StudyBuddyClient] and
      [wait_for_run_completion];
    - [main.py]: [handle_file_upload], [setup_vector_store_and_assistant],
      the blocks of the script that call them, the remove button and the
      quiz grading block.

    Python values are modelled as follows.  A [str] is the list of its code
    points.  An exception is a value of [exn]; a call that may raise returns
    a [result].  Code that changes the session, the local disk, the clock
    or the remote platform runs in the state-and-exception monad [M] over
    [Session].  Calls to [logger] are not modelled. *)

From Stdlib Require Import ZArith NArith QArith Qround Lia Lqa.
From Stdlib Require Import String Ascii DecimalString.
From stdpp Require Import base option list gmap.

Close Scope Q_scope.
Open Scope nat_scope.

(* ================================================================= *)
(** ** Python strings and exceptions *)

Module Py.

(** A Python [str]: the sequence of its Unicode code points. *)
Abbreviation str := (list N).

Abbreviation bytes := (list Byte.byte).

(** The [str] written by an ASCII literal. *)
Definition lit (x : string) : str := N_of_ascii <$> list_ascii_of_string x.

Definition LF : N := 10%N.
Definition DQ : N := 34%N.          (* the double quote *)
Definition BACKSLASH_CHAR : N := 92%N.

Definition str_eqb (a b : str) : bool := bool_decide (a = b).

(** [c in chars] for a one-character [c]. *)
Definition char_in (chars : str) (c : N) : bool := existsb (N.eqb c) chars.

(** [s.startswith(prefix)] *)
Fixpoint startswith (prefix s : str) : bool :=
  match prefix, s with
  | [], _ => true
  | p :: prefix', c :: s' => (p =? c)%N && startswith prefix' s'
  | _ :: _, [] => false
  end.

(** [s[a:b]] for [0 <= a], [0 <= b]. *)
Definition slice (s : str) (a b : nat) : str := take (b - a) (drop a s).

(** The code points [str.isspace] accepts, which [str.strip()] removes. *)
Definition isspace (c : N) : bool :=
  ((9 <=? c) && (c <=? 13) || (28 <=? c) && (c <=? 32)
   || (c =? 133) || (c =? 160) || (c =? 5760)
   || (8192 <=? c) && (c <=? 8202)
   || (c =? 8232) || (c =? 8233) || (c =? 8239) || (c =? 8287)
   || (c =? 12288))%N.

Fixpoint lstrip_by (p : N -> bool) (s : str) : str :=
  match s with
  | c :: s' => if p c then lstrip_by p s' else s
  | [] => []
  end.

Definition rstrip_by (p : N -> bool) (s : str) : str :=
  reverse (lstrip_by p (reverse s)).

Definition strip_by (p : N -> bool) (s : str) : str :=
  rstrip_by p (lstrip_by p s).

(** [s.strip()] *)
Definition strip (s : str) : str := strip_by isspace s.

(** [s.strip(chars)] and [s.lstrip(chars)] *)
Definition strip_chars (chars s : str) : str := strip_by (char_in chars) s.
Definition lstrip_chars (chars s : str) : str := lstrip_by (char_in chars) s.

(** [s.rfind(c)] for a one-character [c]: the last index of [c]. *)
Fixpoint rfind_from (c : N) (s : str) (i : nat) (found : option nat)
  : option nat :=
  match s with
  | [] => found
  | x :: s' => rfind_from c s' (S i) (if (x =? c)%N then Some i else found)
  end.

Definition rfind (c : N) (s : str) : option nat := rfind_from c s 0 None.

(** [s.split(sep)] for a one-character [sep]. *)
Fixpoint split_on (sep : N) (s : str) (cur : str) : list str :=
  match s with
  | [] => [cur]
  | c :: s' =>
      if (c =? sep)%N then cur :: split_on sep s' []
      else split_on sep s' (cur ++ [c])
  end.

Definition is_ascii (s : str) : bool := forallb (fun c => (c <? 128)%N) s.

Definition ascii_lower_char (c : N) : N :=
  if ((65 <=? c) && (c <=? 90))%N then (c + 32)%N else c.

(** The part of the interpreter's Unicode database the code relies on:
    [str.lower] on a string that is not pure ASCII. *)
Class UnicodeData := { unicode_lower : str -> str }.

(** [s.lower()]: on an ASCII string the letters [A-Z] are mapped to
    [a-z]; any other string is lowered by the Unicode database. *)
Definition lower `{UnicodeData} (s : str) : str :=
  if is_ascii s then ascii_lower_char <$> s else unicode_lower s.

(** Truthiness of an [Optional[str]]: [None] and the empty string are
    false. *)
Definition truthy (o : option str) : bool :=
  match o with
  | Some (_ :: _) => true
  | _ => false
  end.

(** [int(x)] for a float [x]: truncation towards zero. *)
Definition int_of_float (x : Q) : Z :=
  if Qle_bool 0 x then Qfloor x else Qceiling x.

(** [str(n)] for a non-negative integer. *)
Definition str_of_nat (n : nat) : str :=
  lit (NilZero.string_of_uint (Nat.to_uint n)).

Definition str_of_Z (z : Z) : str :=
  lit (NilZero.string_of_int (Z.to_int z)).

(** Messages of [json.JSONDecodeError]. *)
Inductive decode_msg :=
| ExpectingValue
| ExtraData
| UnterminatedString
| InvalidControlCharacter
| InvalidEscape
| InvalidUXXXXEscape
| ExpectingPropertyName
| ExpectingColonDelimiter
| ExpectingCommaDelimiter
| UnexpectedBOM.

(** The calls the client makes to the remote assistant platform. *)
Inductive remote_call :=
| FilesCreate (path : str)
| FilesDelete (file_id : str)
| VectorStoresCreate (name : str)
| AssistantsCreate (name : str) (vector_store_ids : list str)
| VectorStoreFilesCreate (vector_store_id file_id : str)
| VectorStoreFilesDelete (vector_store_id file_id : str)
| RunsRetrieve (thread_id run_id : str).

(** The key a [KeyError] reports. *)
Inductive pykey :=
| KeyStr (s : str)
| KeyInt (n : nat).

(** Exceptions.  A formatted message is kept as its template and the values
    put into it.  [ValueError_CouldNotParseQuizData e] is
    [ValueError(f"Could not parse quiz data: {e}")] raised while handling
    [e]: [e] is both the text of the message and the chained context. *)
Inductive exn :=
| JSONDecodeError (msg : decode_msg) (doc : str) (pos : nat)
| RecursionError
| ValueError_ExceedsDigitLimit (digits : nat)
| ValueError_FileTypeNotSupported (name : str)
| ValueError_FileTooLarge (file_size_mb : Q) (max_mb : Z)
| ValueError_CouldNotParseQuizData (e : exn)
| RuntimeError_RunTimedOut (timeout : Z)
| OSError (path : str)
| APIError (call : remote_call)
| AttributeError
| KeyError (key : pykey)
| TypeError.

Inductive result (A : Type) :=
| Ok (a : A)
| Err (e : exn).

Arguments Ok {A} a.
Arguments Err {A} e.

End Py.

Export Py.

(* ================================================================= *)
(** ** [json.loads]

    The decoder of Python's [json] package, as [json.loads(s)] runs it with
    its default arguments: [JSONDecoder.decode], [raw_decode], the scanner
    [scan_once], [JSONObject], [JSONArray] and [scanstring].  The
    definitions are laid out after the Python source of the package
    ([json/decoder.py], [json/scanner.py]); where the C accelerator that
    CPython loads by default behaves differently, they follow the
    accelerator, which is what [json.loads] runs: digits and hexadecimal
    digits are the ASCII ones, and an invalid escape or control character
    in a string is reported at the index of the backslash or of the
    character, in a message that does not quote it.  A float is kept as
    the lexeme given to [float].  [int] refuses an integer of more than
    4300 digits with a [ValueError], which passes through the decoder.

    Loops and nesting are bounded by the length of the document plus one, a
    bound no document reaches ([decoder_properties.loads_total]); past it
    the model raises [RecursionError].  The recursion limit of the
    interpreter itself is not modelled: on a document nested more deeply
    than the stack the interpreter has left (about a thousand levels) the
    accelerator raises [RecursionError], where the model goes on
    parsing. *)

Module Json.

Inductive pyfloat :=
| FloatLit (lexeme : str)
| FloatNaN
| FloatInfinity
| FloatNegInfinity.

(** A [dict]: its items in insertion order, keys pairwise different. *)
Definition pydict (V : Type) := list (str * V).

#[warnings="-register-all"]
Inductive json :=
| JNull
| JBool (b : bool)
| JInt (z : Z)
| JFloat (f : pyfloat)
| JStr (s : str)
| JList (l : list json)
| JDict (d : pydict json).

(** [d[k] = v] *)
Fixpoint dict_set {V} (d : pydict V) (k : str) (v : V) : pydict V :=
  match d with
  | [] => [(k, v)]
  | (k', v') :: d' =>
      if str_eqb k k' then (k, v) :: d' else (k', v') :: dict_set d' k v
  end.

(** [dict(pairs)] *)
Definition dict {V} (pairs : list (str * V)) : pydict V :=
  fold_left (fun d kv => dict_set d kv.1 kv.2) pairs [].

(** [d.get(k)] *)
Fixpoint dict_get {V} (d : pydict V) (k : str) : option V :=
  match d with
  | [] => None
  | (k', v) :: d' => if str_eqb k k' then Some v else dict_get d' k
  end.

(** Python's [==] between two values that are not both strings: numbers
    across [int], [float] and [bool], [None], lists and dicts, with the
    interpreter's rules for NaN and object identity.  The code under study
    leaves it to the interpreter; so does the model. *)
Class PyEquality := { eq_non_str : json -> json -> bool }.

(** [a == b]: two strings are equal when they are the same sequence of code
    points, and a string is never equal to a value of another type. *)
Definition py_eq `{PyEquality} (a b : json) : bool :=
  match a, b with
  | JStr x, JStr y => str_eqb x y
  | JStr _, _ | _, JStr _ => false
  | _, _ => eq_non_str a b
  end.

(** The items [for ... in enumerate(v)] yields. *)
Definition py_iter (v : json) : result (list json) :=
  match v with
  | JList l => Ok l
  | JDict d => Ok (JStr <$> d.*1)
  | JStr s => Ok ((fun c => JStr [c]) <$> s)
  | _ => Err TypeError
  end.

(** [v[key]] for a [str] key. *)
Definition getitem (v : json) (key : str) : result json :=
  match v with
  | JDict d =>
      match dict_get d key with
      | Some x => Ok x
      | None => Err (KeyError (KeyStr key))
      end
  | _ => Err TypeError
  end.

(** What a scanning function does: return a value and the index after it,
    raise [StopIteration(idx)], raise [JSONDecodeError(msg, s, pos)], let
    through the [ValueError] that [int] raises on an integer of more than
    4300 digits, or exceed the nesting bound. *)
Inductive scanned (A : Type) :=
| Scanned (v : A) (end_ : nat)
| StopIteration (idx : nat)
| DecodeError (msg : decode_msg) (pos : nat)
| DigitLimit (digits : nat)
| Exhausted.

Arguments Scanned {A} v end_.
Arguments StopIteration {A} idx.
Arguments DecodeError {A} msg pos.
Arguments DigitLimit {A} digits.
Arguments Exhausted {A}.

(** [WHITESPACE_STR] *)
Definition is_ws (c : N) : bool :=
  ((c =? 32) || (c =? 9) || (c =? 10) || (c =? 13))%N.

(** [nextchar in _ws] for [nextchar = s[end:end + 1]]: the empty string is
    in every string. *)
Definition in_ws (nextchar : option N) : bool :=
  match nextchar with
  | None => true
  | Some c => is_ws c
  end.

Definition is_char (c : N) (nextchar : option N) : bool :=
  match nextchar with
  | None => false
  | Some x => (x =? c)%N
  end.

Fixpoint skip_ws (rest : str) (pos : nat) : nat :=
  match rest with
  | c :: rest' => if is_ws c then skip_ws rest' (S pos) else pos
  | [] => pos
  end.

(** [WHITESPACE.match(s, pos).end()]; a [pos] past the end is the end. *)
Definition w_end (s : str) (pos : nat) : nat :=
  let pos := pos `min` length s in
  skip_ws (drop pos s) pos.

Definition is_digit (c : N) : bool := ((48 <=? c) && (c <=? 57))%N.

Definition hex_value (c : N) : option N :=
  if is_digit c then Some (c - 48)%N
  else if ((97 <=? c) && (c <=? 102))%N then Some (c - 87)%N
  else if ((65 <=? c) && (c <=? 70))%N then Some (c - 55)%N
  else None.

(** [_decode_uXXXX] on the four characters after the [u]. *)
Definition decode_uXXXX (h1 h2 h3 h4 : N) : option N :=
  a ← hex_value h1; b ← hex_value h2; c ← hex_value h3; d ← hex_value h4;
  Some (((a * 16 + b) * 16 + c) * 16 + d)%N.

(** [BACKSLASH] *)
Definition backslash (esc : N) : option N :=
  if (esc =? 34)%N then Some 34%N
  else if (esc =? 92)%N then Some 92%N
  else if (esc =? 47)%N then Some 47%N
  else if (esc =? 98)%N then Some 8%N
  else if (esc =? 102)%N then Some 12%N
  else if (esc =? 110)%N then Some 10%N
  else if (esc =? 114)%N then Some 13%N
  else if (esc =? 116)%N then Some 9%N
  else None.

Definition is_high_surrogate (u : N) : bool :=
  ((55296 <=? u) && (u <=? 56319))%N.
Definition is_low_surrogate (u : N) : bool :=
  ((56320 <=? u) && (u <=? 57343))%N.

(** The loop of [scanstring], strict: [rest] is [s[pos:]], [begin] the
    index of the opening quote, [chunks] the characters decoded so far.
    As in the accelerator, the four digits of a [\u] escape must be
    followed by a character, and a high surrogate is paired with the
    escape after it only when that one is followed by a character too. *)
Fixpoint scanstring_from (rest : str) (pos begin : nat) (chunks : str)
  : scanned str :=
  match rest with
  | [] => DecodeError UnterminatedString begin
  | c :: rest1 =>
    if (c =? DQ)%N then Scanned chunks (pos + 1)
    else if (c =? BACKSLASH_CHAR)%N then
      match rest1 with
      | [] => DecodeError UnterminatedString begin
      | esc :: rest2 =>
        if (esc =? 117)%N then
          match rest2 with
          | h1 :: h2 :: h3 :: h4 :: ((_ :: _) as rest6) =>
            match decode_uXXXX h1 h2 h3 h4 with
            | None => DecodeError InvalidUXXXXEscape (pos + 1)
            | Some uni =>
              let single := scanstring_from rest6 (pos + 6) begin
                                            (chunks ++ [uni]) in
              if is_high_surrogate uni then
                match rest6 with
                | b :: u :: g1 :: g2 :: g3 :: g4 :: ((_ :: _) as rest12) =>
                  if ((b =? BACKSLASH_CHAR) && (u =? 117))%N then
                    match decode_uXXXX g1 g2 g3 g4 with
                    | None => DecodeError InvalidUXXXXEscape (pos + 7)
                    | Some uni2 =>
                      if is_low_surrogate uni2 then
                        let uni' := (65536 + N.lor
                                       (N.shiftl (uni - 55296) 10)
                                       (uni2 - 56320))%N in
                        scanstring_from rest12 (pos + 12) begin
                                        (chunks ++ [uni'])
                      else single
                    end
                  else single
                | _ => single
                end
              else single
            end
          | _ => DecodeError InvalidUXXXXEscape (pos + 1)
          end
        else
          match backslash esc with
          | None => DecodeError InvalidEscape pos
          | Some char => scanstring_from rest2 (pos + 2) begin
                                         (chunks ++ [char])
          end
      end
    else if (c <? 32)%N then DecodeError InvalidControlCharacter pos
    else scanstring_from rest1 (pos + 1) begin (chunks ++ [c])
  end.

(** [scanstring(s, end)] *)
Definition scanstring (s : str) (end_ : nat) : scanned str :=
  scanstring_from (drop end_ s) end_ (end_ - 1) [].

Fixpoint span_digits (rest : str) : str * str :=
  match rest with
  | c :: rest' =>
      if is_digit c then
        let '(ds, r) := span_digits rest' in (c :: ds, r)
      else ([], rest)
  | [] => ([], [])
  end.

(** The first group of [NUMBER_RE] at the head of [rest]: an optional minus
    sign, then [0] or a digit from 1 to 9 followed by digits.  The result
    is the text matched and the text after it. *)
Definition match_integer (rest : str) : option (str * str) :=
  let '(sign, r1) :=
    match rest with
    | c :: r => if (c =? 45)%N then ([c], r) else ([], rest)
    | [] => ([], rest)
    end in
  match r1 with
  | c :: r =>
      if (c =? 48)%N then Some (sign ++ [c], r)
      else if is_digit c then
        let '(ds, r') := span_digits r in Some (sign ++ c :: ds, r')
      else None
  | [] => None
  end.

(** The second group, [(\.\d+)?]; unmatched, it is the empty string. *)
Definition match_frac (rest : str) : str * str :=
  match rest with
  | c :: r =>
      if (c =? 46)%N then
        let '(ds, r') := span_digits r in
        match ds with [] => ([], rest) | _ => (c :: ds, r') end
      else ([], rest)
  | [] => ([], rest)
  end.

(** The third group, [([eE][-+]?\d+)?]. *)
Definition match_exp (rest : str) : str * str :=
  match rest with
  | e :: r =>
      if ((e =? 101) || (e =? 69))%N then
        let '(sg, r') :=
          match r with
          | c :: r' =>
              if ((c =? 45) || (c =? 43))%N then ([c], r') else ([], r)
          | [] => ([], r)
          end in
        let '(ds, r'') := span_digits r' in
        match ds with [] => ([], rest) | _ => (e :: sg ++ ds, r'') end
      else ([], rest)
  | [] => ([], rest)
  end.

(** [NUMBER_RE.match(string, idx)]: the groups [integer], [frac], [exp]
    and [m.end()]. *)
Definition match_number (s : str) (idx : nat)
  : option (str * str * str * nat) :=
  match match_integer (drop idx s) with
  | None => None
  | Some (integer, r1) =>
      let '(frac, r2) := match_frac r1 in
      let '(exp, _) := match_exp r2 in
      Some (integer, frac, exp,
            idx + length integer + length frac + length exp)
  end.

(** [sys.int_info.default_max_str_digits]: the longest decimal numeral
    that [int] converts. *)
Definition int_max_str_digits : nat := 4300.

(** [int(integer)] on a match of the first group of [NUMBER_RE]: the
    value, or the number of digits when they exceed the limit and [int]
    raises [ValueError]. *)
Definition int_of_lexeme (integer : str) : Z + nat :=
  let value (ds : str) :=
    fold_left (fun acc c => (acc * 10 + Z.of_N (c - 48))%Z) ds 0%Z in
  let '(negative, ds) :=
    match integer with
    | c :: ds => if (c =? 45)%N then (true, ds) else (false, integer)
    | [] => (false, [])
    end in
  if int_max_str_digits <? length ds then inr (length ds)
  else inl (if negative then (- value ds)%Z else value ds).

Definition literal_at (s : str) (idx : nat) (word : string) : bool :=
  str_eqb (slice s idx (idx + length (lit word))) (lit word).

Section Decoder.

(** The [scan_once] callback given to [JSONObject] and [JSONArray]. *)
Variable scan_once : str -> nat -> scanned json.

(** [try: if s[end] in _ws: end += 1; if s[end] in _ws: end = _w(s, end +
    1).end() except IndexError: pass] *)
Definition skip_after_delimiter (s : str) (end_ : nat) : nat :=
  match s !! end_ with
  | None => end_
  | Some c =>
      if is_ws c then
        let end_ := end_ + 1 in
        match s !! end_ with
        | None => end_
        | Some c' => if is_ws c' then w_end s (end_ + 1) else end_
        end
      else end_
  end.

(** The [while True] loop of [JSONArray]. *)
Fixpoint array_loop (fuel : nat) (s : str) (values : list json)
         (end_ : nat) : scanned json :=
  match fuel with
  | 0 => Exhausted
  | S fuel' =>
    match scan_once s end_ with
    | StopIteration idx => DecodeError ExpectingValue idx
    | DecodeError msg pos => DecodeError msg pos
    | DigitLimit digits => DigitLimit digits
    | Exhausted => Exhausted
    | Scanned value end_ =>
      let values := values ++ [value] in
      let nextchar := s !! end_ in
      let '(end_, nextchar) :=
        if in_ws nextchar then
          let e := w_end s (end_ + 1) in (e, s !! e)
        else (end_, nextchar) in
      let end_ := end_ + 1 in
      if is_char 93 nextchar then Scanned (JList values) end_
      else if negb (is_char 44 nextchar) then
        DecodeError ExpectingCommaDelimiter (end_ - 1)
      else array_loop fuel' s values (skip_after_delimiter s end_)
    end
  end.

(** [JSONArray((s, end), scan_once)] *)
Definition JSONArray (fuel : nat) (s : str) (end_ : nat) : scanned json :=
  let nextchar := s !! end_ in
  let '(end_, nextchar) :=
    if in_ws nextchar then
      let e := w_end s (end_ + 1) in (e, s !! e)
    else (end_, nextchar) in
  if is_char 93 nextchar then Scanned (JList []) (end_ + 1)
  else array_loop fuel s [] end_.

(** The [while True] loop of [JSONObject]; [end_] is the index after the
    opening quote of the next key. *)
Fixpoint object_loop (fuel : nat) (s : str) (pairs : list (str * json))
         (end_ : nat) : scanned json :=
  match fuel with
  | 0 => Exhausted
  | S fuel' =>
    match scanstring s end_ with
    | StopIteration idx => StopIteration idx
    | DecodeError msg pos => DecodeError msg pos
    | DigitLimit digits => DigitLimit digits
    | Exhausted => Exhausted
    | Scanned key end_ =>
      let colon :=
        if is_char 58 (s !! end_) then inl end_
        else
          let e := w_end s end_ in
          if is_char 58 (s !! e) then inl e else inr e in
      match colon with
      | inr e => DecodeError ExpectingColonDelimiter e
      | inl end_ =>
        let end_ := skip_after_delimiter s (end_ + 1) in
        match scan_once s end_ with
        | StopIteration idx => DecodeError ExpectingValue idx
        | DecodeError msg pos => DecodeError msg pos
        | DigitLimit digits => DigitLimit digits
        | Exhausted => Exhausted
        | Scanned value end_ =>
          let pairs := pairs ++ [(key, value)] in
          let '(end_, nextchar) :=
            match s !! end_ with
            | None => (end_, None)
            | Some c =>
                if is_ws c then
                  let e := w_end s (end_ + 1) in (e, s !! e)
                else (end_, Some c)
            end in
          let end_ := end_ + 1 in
          if is_char 125 nextchar then Scanned (JDict (dict pairs)) end_
          else if negb (is_char 44 nextchar) then
            DecodeError ExpectingCommaDelimiter (end_ - 1)
          else
            let end_ := w_end s end_ in
            let nextchar := s !! end_ in
            let end_ := end_ + 1 in
            if negb (is_char DQ nextchar) then
              DecodeError ExpectingPropertyName (end_ - 1)
            else object_loop fuel' s pairs end_
        end
      end
    end
  end.

(** [JSONObject((s, end), strict, scan_once, None, None, memo)] *)
Definition JSONObject (fuel : nat) (s : str) (end_ : nat) : scanned json :=
  let nextchar := s !! end_ in
  if is_char DQ nextchar then object_loop fuel s [] (end_ + 1)
  else
    let '(end_, nextchar) :=
      if in_ws nextchar then
        let e := w_end s end_ in (e, s !! e)
      else (end_, nextchar) in
    if is_char 125 nextchar then Scanned (JDict []) (end_ + 1)
    else if negb (is_char DQ nextchar) then
      DecodeError ExpectingPropertyName end_
    else object_loop fuel s [] (end_ + 1).

End Decoder.

(** [_scan_once(string, idx)] of [py_make_scanner]. *)
Fixpoint scan_once (fuel : nat) (s : str) (idx : nat) : scanned json :=
  match fuel with
  | 0 => Exhausted
  | S fuel' =>
    match s !! idx with
    | None => StopIteration idx
    | Some nextchar =>
      if (nextchar =? DQ)%N then
        match scanstring s (idx + 1) with
        | Scanned v e => Scanned (JStr v) e
        | StopIteration i => StopIteration i
        | DecodeError m p => DecodeError m p
        | DigitLimit digits => DigitLimit digits
        | Exhausted => Exhausted
        end
      else if (nextchar =? 123)%N then
        JSONObject (scan_once fuel') fuel' s (idx + 1)
      else if (nextchar =? 91)%N then
        JSONArray (scan_once fuel') fuel' s (idx + 1)
      else if (nextchar =? 110)%N && literal_at s idx "null" then
        Scanned JNull (idx + 4)
      else if (nextchar =? 116)%N && literal_at s idx "true" then
        Scanned (JBool true) (idx + 4)
      else if (nextchar =? 102)%N && literal_at s idx "false" then
        Scanned (JBool false) (idx + 5)
      else
        match match_number s idx with
        | Some (integer, frac, exp, e) =>
            match frac ++ exp with
            | [] =>
                match int_of_lexeme integer with
                | inl value => Scanned (JInt value) e
                | inr digits => DigitLimit digits
                end
            | _ => Scanned (JFloat (FloatLit (integer ++ frac ++ exp))) e
            end
        | None =>
            if (nextchar =? 78)%N && literal_at s idx "NaN" then
              Scanned (JFloat FloatNaN) (idx + 3)
            else if (nextchar =? 73)%N && literal_at s idx "Infinity" then
              Scanned (JFloat FloatInfinity) (idx + 8)
            else if (nextchar =? 45)%N && literal_at s idx "-Infinity" then
              Scanned (JFloat FloatNegInfinity) (idx + 9)
            else StopIteration idx
        end
    end
  end.

(** [json.loads(s)] for a [str] [s]. *)
Definition loads (s : str) : result json :=
  if startswith [65279%N] s then Err (JSONDecodeError UnexpectedBOM s 0)
  else
    match scan_once (S (length s)) s (w_end s 0) with
    | StopIteration idx => Err (JSONDecodeError ExpectingValue s idx)
    | DecodeError msg pos => Err (JSONDecodeError msg s pos)
    | DigitLimit digits => Err (ValueError_ExceedsDigitLimit digits)
    | Exhausted => Err RecursionError
    | Scanned obj end_ =>
        let end_ := w_end s end_ in
        if end_ =? length s then Ok obj
        else Err (JSONDecodeError ExtraData s end_)
    end.

End Json.

(* ================================================================= *)
(** ** The session and its environment *)

Module runtime.

(** [file_manager.UploadedFile].  [file_size_mb] is the float that
    [round(x, 1)] returns, kept as the decimal number it stands for;
    [upload_time] is a reading of [time.time()]. *)
Record UploadedFile := {
  original_name : str;
  temp_path : str;
  file_id : str;
  file_size_mb : Q;
  file_type : str;
  upload_time : Q
}.

(** The attributes of [file_manager.FileManager]. *)
Record FileManager := {
  uploaded_files : list UploadedFile;
  vector_store_id : option str;
  assistant_id : option str
}.

(** The object Streamlit's uploader hands to [handle_file_upload]:
    [name], [size] in bytes and the content behind [getbuffer()]. *)
Record FileData := {
  name : str;
  size : Z;
  getbuffer : bytes
}.

(** The local machine: the wall clock, the working directory, and what the
    code cannot decide: how long the [n]-th blocking operation takes beyond
    what was asked for, and for which paths [open] and [os.remove] fail. *)
Record Local := {
  now : Q;
  blocking_ops : nat;
  elapse : nat -> Q;
  disk : list (str * bytes);
  io_fails : str -> bool
}.

(** The remote assistant platform: the stored files, the files attached to
    each vector store, the log of the calls received, and what the code
    cannot decide: whether the [n]-th call fails in transport, the id the
    [n]-th call creates, and the status of a run at the [n]-th call. *)
Record Remote := {
  stored_files : list str;
  attached : list (str * str);
  calls : list remote_call;
  outage : nat -> bool;
  fresh_id : nat -> str;
  run_status_at : nat -> str
}.

(** What [main.py] shows in the sidebar. *)
Inductive notice :=
| UploadedSuccessfully (name : str)
| FailedToUpload (name : str) (e : exn)
| AssistantReady
| FailedToCreateVectorStoreOrAssistant (e : exn)
| RemovedSuccessfully (name : str)
| RemovedLocallyCleanupMayHaveFailed (name : str)
| FailedToRemove (name : str) (e : exn).

(** [openai_client.StudyBuddyClient] *)
Record StudyBuddyClient := { model : str }.

(** [st.session_state] together with the environment of the process. *)
Record Session := {
  file_manager : FileManager;
  openai_client : option StudyBuddyClient;
  uploader_version : nat;
  sidebar : list notice;
  local : Local;
  remote : Remote
}.

Definition set_uploaded_files (l : list UploadedFile) (fm : FileManager)
  : FileManager :=
  {| uploaded_files := l;
     vector_store_id := vector_store_id fm;
     assistant_id := assistant_id fm |}.

Definition set_file_manager (fm : FileManager) (s : Session) : Session :=
  {| file_manager := fm; openai_client := openai_client s;
     uploader_version := uploader_version s; sidebar := sidebar s;
     local := local s; remote := remote s |}.

Definition set_local (l : Local) (s : Session) : Session :=
  {| file_manager := file_manager s; openai_client := openai_client s;
     uploader_version := uploader_version s; sidebar := sidebar s;
     local := l; remote := remote s |}.

Definition set_remote (r : Remote) (s : Session) : Session :=
  {| file_manager := file_manager s; openai_client := openai_client s;
     uploader_version := uploader_version s; sidebar := sidebar s;
     local := local s; remote := r |}.

Definition show (n : notice) (s : Session) : Session :=
  {| file_manager := file_manager s; openai_client := openai_client s;
     uploader_version := uploader_version s; sidebar := sidebar s ++ [n];
     local := local s; remote := remote s |}.

Definition bump_uploader_version (s : Session) : Session :=
  {| file_manager := file_manager s; openai_client := openai_client s;
     uploader_version := S (uploader_version s); sidebar := sidebar s;
     local := local s; remote := remote s |}.

(** *** The state-and-exception monad *)

Definition M (A : Type) : Type := Session -> result A * Session.

#[export] Instance M_ret : MRet M := fun A a s => (Ok a, s).

#[export] Instance M_bind : MBind M := fun A B f m s =>
  match m s with
  | (Ok a, s') => f a s'
  | (Err e, s') => (Err e, s')
  end.

Definition raise {A} (e : exn) : M A := fun s => (Err e, s).

(** [try: body except Exception as e: handler(e)] *)
Definition try_except {A} (body : M A) (handler : exn -> M A) : M A :=
  fun s =>
    match body s with
    | (Ok a, s') => (Ok a, s')
    | (Err e, s') => handler e s'
    end.

Definition gets {A} (f : Session -> A) : M A := fun s => (Ok (f s), s).
Definition modify (f : Session -> Session) : M unit := fun s => (Ok tt, f s).

(** *** The local machine *)

(** [time.time()] *)
Definition time_time : M Q := gets (fun s => now (local s)).

(** A blocking operation asked to last [asked] seconds: the clock moves
    on by that and by what the operation takes on top. *)
Definition block (asked : Q) : M unit :=
  modify (fun s =>
    let l := local s in
    set_local {| now := (now l + asked + elapse l (blocking_ops l))%Q;
                 blocking_ops := S (blocking_ops l);
                 elapse := elapse l; disk := disk l;
                 io_fails := io_fails l |} s).

(** [time.sleep(seconds)] *)
Definition time_sleep (seconds : Q) : M unit := block seconds.

Definition set_disk (d : list (str * bytes)) : M unit :=
  modify (fun s =>
    let l := local s in
    set_local {| now := now l; blocking_ops := blocking_ops l;
                 elapse := elapse l; disk := d;
                 io_fails := io_fails l |} s).

Definition on_disk (path : str) (d : list (str * bytes)) : bool :=
  existsb (fun f => str_eqb f.1 path) d.

Definition without (path : str) (d : list (str * bytes))
  : list (str * bytes) :=
  filter (fun f => f.1 ≠ path) d.

(** [with open(path, "wb") as f: f.write(content)] *)
Definition write_file (path : str) (content : bytes) : M unit :=
  s ← gets id;
  if io_fails (local s) path then raise (OSError path)
  else set_disk ((path, content) :: without path (disk (local s))).

(** [os.path.exists(path)] *)
Definition os_path_exists (path : str) : M bool :=
  gets (fun s => on_disk path (disk (local s))).

(** [os.remove(path)] *)
Definition os_remove (path : str) : M unit :=
  s ← gets id;
  if io_fails (local s) path || negb (on_disk path (disk (local s)))
  then raise (OSError path)
  else set_disk (without path (disk (local s))).

(** *** The remote platform *)

(** One call to the platform: it takes time, is logged, and either fails in
    transport or has its [effect] on the platform and returns
    [answer]. *)
Definition remote_request {A} (call : remote_call)
           (effect : Remote -> Remote) (answer : Remote -> nat -> A) : M A :=
  block 0 ;;
  s ← gets id;
  let r := remote s in
  let n := length (calls r) in
  let logged (r' : Remote) :=
    {| stored_files := stored_files r'; attached := attached r';
       calls := calls r ++ [call]; outage := outage r;
       fresh_id := fresh_id r; run_status_at := run_status_at r |} in
  if outage r n then
    modify (set_remote (logged r)) ;; raise (APIError call)
  else
    modify (set_remote (logged (effect r))) ;; mret (answer r n).

Definition with_stored_files (f : list str -> list str) (r : Remote)
  : Remote :=
  {| stored_files := f (stored_files r); attached := attached r;
     calls := calls r; outage := outage r;
     fresh_id := fresh_id r; run_status_at := run_status_at r |}.

Definition with_attached (f : list (str * str) -> list (str * str))
           (r : Remote) : Remote :=
  {| stored_files := stored_files r; attached := f (attached r);
     calls := calls r; outage := outage r;
     fresh_id := fresh_id r; run_status_at := run_status_at r |}.

End runtime.

Export runtime.

(* ================================================================= *)
(** ** [config.py] *)

Module config.

Definition SUPPORTED_EXTS : list str :=
  lit <$> ["pdf"; "txt"; "md"; "docx"; "pptx"; "csv"; "json"; "html";
           "py"; "java"; "rb"; "tex"; "c"; "cpp"]%string.

Definition QUIZ_GENERATION_TIMEOUT : Z := 120.
Definition CHAT_RESPONSE_TIMEOUT : Z := 120.

Definition MAX_FILE_SIZE_MB : Z := 200.

End config.

(* ================================================================= *)
(** ** [utils.py] *)

Module utils.

(** [cleanup_temp_file(filepath)]: a failure of [os.remove] is caught. *)
Definition cleanup_temp_file (filepath : str) : M unit :=
  try_except
    (there ← os_path_exists filepath;
     if there : bool then os_remove filepath else mret tt)
    (fun _ => mret tt).

(** [create_temp_filename(original_name)] *)
Definition create_temp_filename (original_name : str) : M str :=
  t ← time_time;
  let timestamp := int_of_float t in
  mret (lit "temp_" ++ str_of_Z timestamp ++ lit "_" ++ original_name).

(** The characters [text.strip("`\n ")] removes. *)
Definition fence_chars : str := lit "`" ++ [LF] ++ lit " ".

(** The first block of [extract_first_json_array]: remove code fences. *)
Definition strip_code_fences (text : str) : str :=
  if startswith (lit "```") (strip text) then
    let cleaned := strip_chars fence_chars (strip text) in
    let cleaned :=
      if startswith (lit "json" ++ [LF]) cleaned
      then drop (length (lit "json" ++ [LF])) cleaned
      else cleaned in
    strip_chars fence_chars cleaned
  else text.

(** [re.search(r"\[.*\]", text, flags=re.DOTALL)], the text matched: at the
    leftmost ['['] that has a [']'] after it, [.*] runs to the end of the
    text and backs off to the last [']']. *)
Fixpoint re_search_array_block (text : str) : option str :=
  match text with
  | [] => None
  | c :: rest =>
      let here :=
        if (c =? 91)%N then
          match rfind 93%N rest with
          | Some j => Some (c :: take (S j) rest)
          | None => None
          end
        else None in
      match here with
      | Some m => Some m
      | None => re_search_array_block rest
      end
  end.

(** The loop that scans for balanced brackets: [rest] is [text[i:]]; the
    result is the candidate appended before the [break], if any. *)
Fixpoint scan_balanced (text rest : str) (i : nat) (start : option nat)
         (depth : nat) : option str :=
  match rest with
  | [] => None
  | c :: rest' =>
      if (c =? 91)%N then
        scan_balanced text rest' (S i)
                      (if depth =? 0 then Some i else start) (depth + 1)
      else if (c =? 93)%N then
        if 0 <? depth then
          let depth := depth - 1 in
          match depth, start with
          | 0, Some st => Some (slice text st (i + 1))
          | _, _ => scan_balanced text rest' (S i) start depth
          end
        else scan_balanced text rest' (S i) start depth
      else scan_balanced text rest' (S i) start depth
  end.

Definition list_of_option {A} (o : option A) : list A :=
  match o with
  | Some a => [a]
  | None => []
  end.

(** The list [candidates] when the parsing loop starts. *)
Definition candidates (text : str) : list str :=
  list_of_option (re_search_array_block text)
  ++ list_of_option (scan_balanced text text 0 None 0).

(** [for cand in candidates: try: return json.loads(cand) except Exception:
    continue] *)
Fixpoint first_loaded (cands : list str) : option Json.json :=
  match cands with
  | [] => None
  | cand :: cands' =>
      match Json.loads cand with
      | Ok v => Some v
      | Err _ => first_loaded cands'
      end
  end.

(** [extract_first_json_array(text)] *)
Definition extract_first_json_array (text : str) : result Json.json :=
  let text := strip_code_fences text in
  match first_loaded (candidates text) with
  | Some v => Ok v
  | None =>
      match Json.loads text with
      | Ok v => Ok v
      | Err e => Err (ValueError_CouldNotParseQuizData e)
      end
  end.

(** [pathlib.PurePosixPath(filename).name]: the last component that is
    neither empty nor ["."]. *)
Definition path_name (filename : str) : str :=
  let parts :=
    filter (fun x => x ≠ [] ∧ x ≠ lit ".") (split_on 47%N filename []) in
  default [] (last parts).

(** [pathlib.PurePosixPath(filename).suffix] *)
Definition path_suffix (filename : str) : str :=
  let name := path_name filename in
  match rfind 46%N name with
  | Some i => if (0 <? i) && (i <? length name - 1) then drop i name else []
  | None => []
  end.

(** [Path(filename).suffix.lower().lstrip(".")] *)
Definition extension `{UnicodeData} (filename : str) : str :=
  lstrip_chars (lit ".") (lower (path_suffix filename)).

(** [validate_file_type(filename, supported_extensions)] *)
Definition validate_file_type `{UnicodeData} (filename : str)
           (supported_extensions : list str) : bool :=
  let ext := extension filename in
  bool_decide (ext ∈ supported_extensions).

(** [round(n / d)] to the nearest integer, ties to the even one, for
    [0 < d]. *)
Definition round_half_even (n d : Z) : Z :=
  let q := (n / d)%Z in
  let r := (n mod d)%Z in
  if (2 * r <? d)%Z then q
  else if (d <? 2 * r)%Z then (q + 1)%Z
  else if Z.even q then q else (q + 1)%Z.

(** [get_file_size_mb(file_size_bytes)]:
    [round(file_size_bytes / (1024 * 1024), 1)].  The division is exact in
    binary floating point below 2^53 bytes, and [round] gives the float
    nearest to the quotient rounded half-even to one decimal; the result
    is that decimal. *)
Definition get_file_size_mb (file_size_bytes : Z) : Q :=
  Qmake (round_half_even (file_size_bytes * 10) (1024 * 1024)) 10%positive.

End utils.

(* ================================================================= *)
(** ** [openai_client.py] *)

Module openai_client.

(** [with open(filepath, "rb") as f: self.client.files.create(file=f,
    purpose="assistants")]; any exception is logged and raised again. *)
Definition upload_file (filepath : str) : M str :=
  s ← gets id;
  if io_fails (local s) filepath || negb (on_disk filepath (disk (local s)))
  then raise (OSError filepath)
  else
    remote_request (FilesCreate filepath)
      (fun r => with_stored_files
                  (fun l => l ++ [fresh_id r (length (calls r))]) r)
      (fun r n => fresh_id r n).

(** [delete_file(file_id)]: a failure is caught and reported as [False]. *)
Definition delete_file (file_id : str) : M bool :=
  try_except
    (remote_request (FilesDelete file_id)
       (with_stored_files (filter (fun f => f ≠ file_id)))
       (fun _ _ => true))
    (fun _ => mret false).

(** [create_vector_store(name)]; any exception is logged and raised
    again. *)
Definition create_vector_store (name : str) : M str :=
  remote_request (VectorStoresCreate name) id (fun r n => fresh_id r n).

(** [create_assistant(name, instructions, vector_store_ids)]; any exception
    is logged and raised again. *)
Definition create_assistant (name : str) (vector_store_ids : list str)
  : M str :=
  remote_request (AssistantsCreate name vector_store_ids) id
                 (fun r n => fresh_id r n).

(** [attach_file_to_vector_store(vector_store_id, file_id)] *)
Definition attach_file_to_vector_store (vector_store_id file_id : str)
  : M unit :=
  remote_request (VectorStoreFilesCreate vector_store_id file_id)
    (with_attached (fun l => l ++ [(vector_store_id, file_id)]))
    (fun _ _ => tt).

(** [attach_files_to_vector_store(vector_store_id, file_ids)] *)
Fixpoint attach_files_to_vector_store (vector_store_id : str)
         (file_ids : list str) : M unit :=
  match file_ids with
  | [] => mret tt
  | fid :: file_ids' =>
      attach_file_to_vector_store vector_store_id fid ;;
      attach_files_to_vector_store vector_store_id file_ids'
  end.

(** [remove_file_from_vector_store(vector_store_id, file_id)]: a failure is
    caught and reported as [False]. *)
Definition remove_file_from_vector_store (vector_store_id file_id : str)
  : M bool :=
  try_except
    (remote_request (VectorStoreFilesDelete vector_store_id file_id)
       (with_attached (filter (fun a => a ≠ (vector_store_id, file_id))))
       (fun _ _ => true))
    (fun _ => mret false).

(** The run object [runs.retrieve] returns. *)
Record Run := { status : str }.

(** [self.client.beta.threads.runs.retrieve(thread_id=..., run_id=...)] *)
Definition runs_retrieve (thread_id run_id : str) : M Run :=
  remote_request (RunsRetrieve thread_id run_id) id
    (fun r n => {| status := run_status_at r n |}).

(** [{"completed", "failed", "cancelled", "expired"}] *)
Definition terminal_statuses : list str :=
  lit <$> ["completed"; "failed"; "cancelled"; "expired"]%string.

(** The [while True] loop of [wait_for_run_completion], run for at most
    [fuel] iterations: [Some run] when the loop returned [run], [None] when
    it is still polling after [fuel] iterations. *)
Fixpoint poll (fuel : nat) (thread_id run_id : str) (timeout : Z)
         (start_time : Q) : M (option Run) :=
  match fuel with
  | 0 => mret None
  | S fuel' =>
      t ← time_time;
      if negb (Qle_bool (t - start_time) (inject_Z timeout)) then
        raise (RuntimeError_RunTimedOut timeout)
      else
        run ← runs_retrieve thread_id run_id;
        if bool_decide (status run ∈ terminal_statuses) then mret (Some run)
        else time_sleep 1 ;; poll fuel' thread_id run_id timeout start_time
  end.

(** [wait_for_run_completion(thread_id, run_id, timeout)] *)
Definition wait_for_run_completion (fuel : nat) (thread_id run_id : str)
           (timeout : Z) : M (option Run) :=
  start_time ← time_time;
  poll fuel thread_id run_id timeout start_time.

End openai_client.

(* ================================================================= *)
(** ** [file_manager.py] *)

Module file_manager.

Import config utils.

Definition on_file_manager (f : FileManager -> FileManager) : M unit :=
  modify (fun s => set_file_manager (f (file_manager s)) s).

(** [FileManager()] *)
Definition init : FileManager :=
  {| uploaded_files := []; vector_store_id := None; assistant_id := None |}.

(** [add_file(file_data)] *)
Definition add_file `{UnicodeData} (file_data : FileData) : M UploadedFile :=
  if negb (validate_file_type (name file_data) SUPPORTED_EXTS) then
    raise (ValueError_FileTypeNotSupported (name file_data))
  else
    let file_size_mb := get_file_size_mb (size file_data) in
    if negb (Qle_bool file_size_mb (inject_Z MAX_FILE_SIZE_MB)) then
      raise (ValueError_FileTooLarge file_size_mb MAX_FILE_SIZE_MB)
    else
      temp_filename ← create_temp_filename (name file_data);
      let temp_path := temp_filename : str in
      write_file temp_path (getbuffer file_data) ;;
      t ← time_time;
      let file_info :=
        {| original_name := name file_data;
           temp_path := temp_path;
           file_id := [];
           file_size_mb := file_size_mb;
           file_type := extension (name file_data);
           upload_time := t |} in
      on_file_manager
        (fun fm => set_uploaded_files (uploaded_files fm ++ [file_info]) fm) ;;
      mret file_info.

(** [get_file_by_name(filename)] *)
Definition get_file_by_name (fm : FileManager) (filename : str)
  : option UploadedFile :=
  find (fun file => str_eqb (original_name file) filename)
       (uploaded_files fm).

(** [has_file_with_name(filename)] *)
Definition has_file_with_name (fm : FileManager) (filename : str) : bool :=
  existsb (fun file => str_eqb (original_name file) filename)
          (uploaded_files fm).

(** The loop of [remove_file]: [files] is what [enumerate] has not yet
    yielded and [i] the index of its head. *)
Fixpoint remove_file_loop (files : list UploadedFile) (i : nat)
         (filename : str) : M bool :=
  match files with
  | [] => mret false
  | file :: files' =>
      if str_eqb (original_name file) filename then
        cleanup_temp_file (temp_path file) ;;
        on_file_manager
          (fun fm => set_uploaded_files (delete i (uploaded_files fm)) fm) ;;
        mret true
      else remove_file_loop files' (S i) filename
  end.

(** [remove_file(filename)] *)
Definition remove_file (filename : str) : M bool :=
  fm ← gets file_manager;
  remove_file_loop (uploaded_files fm) 0 filename.

(** [get_all_file_ids()] *)
Definition get_all_file_ids (fm : FileManager) : list str :=
  filter (fun fid => fid ≠ []) (file_id <$> uploaded_files fm).

Definition set_file_id (fid : str) (file : UploadedFile) : UploadedFile :=
  {| original_name := original_name file; temp_path := temp_path file;
     file_id := fid; file_size_mb := file_size_mb file;
     file_type := file_type file; upload_time := upload_time file |}.

Fixpoint update_first (filename fid : str) (files : list UploadedFile)
  : option (list UploadedFile) :=
  match files with
  | [] => None
  | file :: files' =>
      if str_eqb (original_name file) filename
      then Some (set_file_id fid file :: files')
      else cons file <$> update_first filename fid files'
  end.

(** [update_file_id(filename, file_id)] *)
Definition update_file_id (filename fid : str) : M bool :=
  fm ← gets file_manager;
  match update_first filename fid (uploaded_files fm) with
  | Some files => on_file_manager (set_uploaded_files files) ;; mret true
  | None => mret false
  end.

(** [has_files()] *)
Definition has_files (fm : FileManager) : bool :=
  0 <? length (uploaded_files fm).

(** [remove_file_from_openai(filename, openai_client)] *)
Definition remove_file_from_openai (filename : str) : M bool :=
  try_except
    (fm ← gets file_manager;
     match get_file_by_name fm filename with
     | None => mret false
     | Some file_info =>
         (match vector_store_id fm, file_id file_info with
          | Some (c :: vs), _ :: _ =>
              try_except
                (openai_client.remove_file_from_vector_store
                   (c :: vs) (file_id file_info) ;; mret tt)
                (fun _ => mret tt)
          | _, _ => mret tt
          end) ;;
         (match file_id file_info with
          | _ :: _ =>
              try_except
                (openai_client.delete_file (file_id file_info) ;; mret tt)
                (fun _ => mret tt)
          | [] => mret tt
          end) ;;
         mret true
     end)
    (fun _ => mret false).

(** [remove_file_completely(filename, openai_client)], the client taken
    from the session. *)
Definition remove_file_completely (filename : str) : M bool :=
  client ← gets openai_client;
  (match client with
   | Some _ => remove_file_from_openai filename ;; mret tt
   | None => mret tt
   end) ;;
  remove_file filename.

(** [needs_vector_store_update()] *)
Definition needs_vector_store_update (fm : FileManager) : bool :=
  match uploaded_files fm with
  | [] => truthy (vector_store_id fm) || truthy (assistant_id fm)
  | _ :: _ => if negb (truthy (vector_store_id fm)) then true else false
  end.

(** [clear_vector_store_info()] *)
Definition clear_vector_store_info (fm : FileManager) : FileManager :=
  {| uploaded_files := uploaded_files fm;
     vector_store_id := None; assistant_id := None |}.

(** [get_all_temp_paths()] *)
Definition get_all_temp_paths (fm : FileManager) : list str :=
  temp_path <$> uploaded_files fm.

(** [get_file_count()] *)
Definition get_file_count (fm : FileManager) : nat :=
  length (uploaded_files fm).

(** The loop of [cleanup_all_files]. *)
Fixpoint cleanup_each (files : list UploadedFile) : M unit :=
  match files with
  | [] => mret tt
  | file :: files' =>
      cleanup_temp_file (temp_path file) ;; cleanup_each files'
  end.

(** [cleanup_all_files()] *)
Definition cleanup_all_files : M unit :=
  fm ← gets file_manager;
  cleanup_each (uploaded_files fm) ;;
  on_file_manager (set_uploaded_files []).

(** The messages of [validate_files_for_processing], each with the name
    put into it. *)
Inductive processing_error :=
| NotUploadedToOpenAI (name : str)
| TemporaryFileMissing (name : str).

(** The loop of [validate_files_for_processing]. *)
Fixpoint validate_each (files : list UploadedFile)
         (errors : list processing_error) : M (list processing_error) :=
  match files with
  | [] => mret errors
  | file :: files' =>
      let errors :=
        match file_id file with
        | [] => errors ++ [NotUploadedToOpenAI (original_name file)]
        | _ :: _ => errors
        end in
      there ← os_path_exists (temp_path file);
      let errors :=
        if there : bool then errors
        else errors ++ [TemporaryFileMissing (original_name file)] in
      validate_each files' errors
  end.

(** [validate_files_for_processing()] *)
Definition validate_files_for_processing : M (list processing_error) :=
  fm ← gets file_manager;
  validate_each (uploaded_files fm) [].

End file_manager.

(* ================================================================= *)
(** ** [main.py] *)

Module main.

Import config utils file_manager Json.

(** The body of the loop of [handle_file_upload] for one uploaded file. *)
Definition upload_one `{UnicodeData} (uploaded_file : FileData) : M unit :=
  try_except
    (fm ← gets file_manager;
     if has_file_with_name fm (name uploaded_file) : bool then
       mret tt
     else
       file_info ← add_file uploaded_file;
       client ← gets openai_client;
       match client : option StudyBuddyClient with
       | None => raise AttributeError
       | Some _ =>
           fid ← openai_client.upload_file (temp_path file_info);
           update_file_id (original_name file_info) fid ;;
           fm ← gets file_manager;
           (match vector_store_id fm with
            | Some (c :: vs) =>
                openai_client.attach_file_to_vector_store (c :: vs) fid
            | _ => mret tt
            end) ;;
           modify (show (UploadedSuccessfully (name uploaded_file)))
       end)
    (fun e => modify (show (FailedToUpload (name uploaded_file) e))).

(** [handle_file_upload(uploaded_files)] *)
Fixpoint handle_file_upload `{UnicodeData} (uploaded_files : list FileData)
  : M unit :=
  match uploaded_files with
  | [] => mret tt
  | uploaded_file :: rest =>
      upload_one uploaded_file ;; handle_file_upload rest
  end.

Definition set_vector_store_id (vs : option str) (fm : FileManager)
  : FileManager :=
  {| uploaded_files := uploaded_files fm; vector_store_id := vs;
     assistant_id := assistant_id fm |}.

Definition set_assistant_id (a : option str) (fm : FileManager)
  : FileManager :=
  {| uploaded_files := uploaded_files fm;
     vector_store_id := vector_store_id fm; assistant_id := a |}.

(** [setup_vector_store_and_assistant()] *)
Definition setup_vector_store_and_assistant : M unit :=
  fm ← gets file_manager;
  if negb (has_files fm) then mret tt
  else if truthy (vector_store_id fm) && truthy (assistant_id fm) then mret tt
  else
    try_except
      (client ← gets openai_client;
       match client : option StudyBuddyClient with
       | None => raise AttributeError
       | Some _ =>
           vs ← openai_client.create_vector_store
                  (lit "StudyBuddyVectorStore");
           on_file_manager (set_vector_store_id (Some vs)) ;;
           fm ← gets file_manager;
           let file_ids := get_all_file_ids fm in
           (match file_ids with
            | [] => mret tt
            | _ :: _ =>
                openai_client.attach_files_to_vector_store vs file_ids
            end) ;;
           a ← openai_client.create_assistant (lit "Study Buddy") [vs];
           on_file_manager (set_assistant_id (Some a)) ;;
           modify (show AssistantReady)
       end)
      (fun e => modify (show (FailedToCreateVectorStoreOrAssistant e))).

(** The remove button of the sidebar, up to [st.rerun()]; the reset of
    [last_uploader_state] is left out. *)
Definition remove_clicked (file_name : str) : M unit :=
  try_except
    (success ← remove_file_completely file_name;
     (if success : bool
      then modify (show (RemovedSuccessfully file_name))
      else modify (show (RemovedLocallyCleanupMayHaveFailed file_name))) ;;
     modify bump_uploader_version)
    (fun e => modify (show (FailedToRemove file_name e))).

(** The block [if uploaded_files:] of the script: the uploader's files
    whose names are not tracked when the block starts are handed to
    [handle_file_upload]. *)
Definition uploads_block `{UnicodeData} (uploaded_files : list FileData)
  : M unit :=
  match uploaded_files with
  | [] => mret tt
  | _ :: _ =>
      fm ← gets file_manager;
      let processed_names := original_name <$> runtime.uploaded_files fm in
      let new_files :=
        filter (fun f => name f ∉ processed_names) uploaded_files in
      match new_files with
      | [] => mret tt
      | _ :: _ => handle_file_upload new_files
      end
  end.

(** The block of the script that follows the uploads and the creation of
    the client: set up vector store and assistant when documents are
    tracked, forget their ids when none is.  The result says whether the
    block ended in [st.rerun()]; the reset of the chat and quiz state on
    that branch is left out. *)
Definition sync_block : M bool :=
  fm ← gets file_manager;
  if has_files fm then
    setup_vector_store_and_assistant ;; mret false
  else if needs_vector_store_update fm then
    on_file_manager clear_vector_store_info ;;
    modify bump_uploader_version ;;
    mret true
  else mret false.

(** A line of the quiz result: the question number and, when the answer is
    wrong, the correct answer shown. *)
Inductive result_line :=
| Correct (number : nat)
| Incorrect (number : nat) (correct_answer : json).

(** The loop of the [if submit_quiz:] block: [questions] is what
    [enumerate] has not yet yielded and [idx] the index of its head. *)
Fixpoint grade_loop `{PyEquality} (questions : list json) (idx : nat)
         (user_answers : gmap nat json) (score : nat)
         (results : list result_line) : result (nat * list result_line) :=
  match questions with
  | [] => Ok (score, results)
  | question :: rest =>
      match getitem question (lit "correct") with
      | Err e => Err e
      | Ok correct_answer =>
          match user_answers !! idx with
          | None => Err (KeyError (KeyInt idx))
          | Some user_answer =>
              if py_eq user_answer correct_answer then
                grade_loop rest (S idx) user_answers (score + 1)
                           (results ++ [Correct (idx + 1)])
              else
                grade_loop rest (S idx) user_answers score
                           (results ++ [Incorrect (idx + 1) correct_answer])
          end
      end
  end.

(** What the [if submit_quiz:] block shows: the score, the number of
    questions it is out of, and the result lines. *)
Record Graded := {
  score : nat;
  out_of : nat;
  results : list result_line
}.

(** The [if submit_quiz:] block. *)
Definition submit_quiz `{PyEquality} (quiz_data : json)
           (user_answers : gmap nat json) : result Graded :=
  match py_iter quiz_data with
  | Err e => Err e
  | Ok questions =>
      match grade_loop questions 0 user_answers 0 [] with
      | Err e => Err e
      | Ok (score, results) =>
          Ok {| score := score; out_of := length questions;
                results := results |}
      end
  end.

End main.

(* ================================================================= *)
(** ** Notions the properties are stated with *)

Module spec.

Import utils Json.


(** The text starts with ['['] and ends with [']']. *)
Definition bracket_delimited (s : str) : Prop :=
  head s = Some 91%N ∧ last s = Some 93%N.





(** The document an exception holds: the [doc] of a [JSONDecodeError],
    also when the error is the chained context of the [ValueError] that
    [extract_first_json_array] raises. *)
Fixpoint error_doc (e : exn) : option str :=
  match e with
  | JSONDecodeError _ doc _ => Some doc
  | ValueError_CouldNotParseQuizData e' => error_doc e'
  | _ => None
  end.

(** A scanning result that, when it is a value, ends after [from] and
    within the document. *)
Definition advances {A} (s : str) (from : nat) (r : scanned A) : Prop :=
  match r with
  | Scanned _ e => from < e ≤ length s
  | _ => True
  end.

Definition not_exhausted {A} (r : scanned A) : Prop :=
  match r with
  | Exhausted => False
  | _ => True
  end.

(** A scanning result that, when it is the [ValueError] of [int], reports
    more digits than the limit. *)
Definition over_digit_limit {A} (r : scanned A) : Prop :=
  match r with
  | DigitLimit digits => int_max_str_digits < digits
  | _ => True
  end.

(** What [scanstring] can do from [pos] with [len] characters left: return
    a string that ends after [pos] and within the document, or raise a
    [JSONDecodeError]. *)
Definition string_scanned (pos len : nat) (r : scanned str) : Prop :=
  match r with
  | Scanned _ e => pos < e ≤ pos + len
  | DecodeError _ _ => True
  | _ => False
  end.

(** An ASCII string with its letters lower-cased. *)
Definition lowered (s : str) : str := ascii_lower_char <$> s.


(** The type check of [add_file] lets the file through: the call does not
    raise [ValueError("File type not supported: ...")]. *)
Definition passes_type_check `{UnicodeData} (file_data : FileData)
           (s : Session) : bool :=
  match (file_manager.add_file file_data s).1 with
  | Err (ValueError_FileTypeNotSupported _) => false
  | _ => true
  end.

(** An identifier is recorded: the attribute holds a non-empty string, which
    is how the code itself tests it. *)
Definition recorded (id : option str) : bool := truthy id.

(** [needs_resync()] in the words of the specification. *)
Definition needs_resync_as_specified (fm : FileManager) : bool :=
  let no_documents := bool_decide (uploaded_files fm = []) in
  no_documents && (recorded (vector_store_id fm) || recorded (assistant_id fm))
  || negb no_documents && negb (recorded (vector_store_id fm)).

(** Partial drift: an Index is recorded, and a tracked document that has a
    remote id is not attached to it on the platform. *)
Definition partial_drift (s : Session) : bool :=
  let vs := default [] (vector_store_id (file_manager s)) in
  recorded (vector_store_id (file_manager s))
  && existsb (fun fid => negb (bool_decide ((vs, fid) ∈ attached (remote s))))
             (file_manager.get_all_file_ids (file_manager s)).

(** The selection is a string, and the same string as the correct
    answer: the same code points in the same order. *)
Definition same_string (selection : json) (correct : str) : bool :=
  match selection with
  | JStr x => bool_decide (x = correct)
  | _ => false
  end.

Definition is_array (v : json) : bool :=
  match v with
  | JList _ => true
  | _ => false
  end.

End spec.

(* ================================================================= *)
(** ** Sample inputs *)

Module samples.

Import Json.

(** A JSON string literal: the text between double quotes. *)
Definition quoted (x : string) : str := [DQ] ++ lit x ++ [DQ].

(** [[{"question":"Q","options":["a","b","c","d"],"correct":"a"}]] *)
Definition one_item_quiz : str :=
  lit "[{" ++ quoted "question" ++ lit ":" ++ quoted "Q" ++ lit ","
  ++ quoted "options" ++ lit ":[" ++ quoted "a" ++ lit "," ++ quoted "b"
  ++ lit "," ++ quoted "c" ++ lit "," ++ quoted "d" ++ lit "],"
  ++ quoted "correct" ++ lit ":" ++ quoted "a" ++ lit "}]".

(** Prose, a fenced block tagged [json] holding the quiz, prose. *)
Definition tolerance_text : str :=
  lit "Sure! Here you go:" ++ [LF] ++ lit "```json" ++ [LF]
  ++ one_item_quiz ++ [LF] ++ lit "```" ++ [LF] ++ lit "Hope that helps!".

(** The items of a quiz whose correct answers are ["a"] and ["b"]. *)
Definition two_questions : list json :=
  let item (q correct : string) :=
    JDict [(lit "question", JStr (lit q));
           (lit "options", JList (JStr <$> [lit "a"; lit "b"; lit "c"; lit "d"]));
           (lit "correct", JStr (lit correct))] in
  [item "Q1" "a"; item "Q2" "b"]%string.

(** The selections ["a"] and ["B"]: right on the first item, wrong on the
    second, where only the case differs. *)
Definition selections : list json := [JStr (lit "a"); JStr (lit "B")].

(** The dict [user_answers] that holds [selected] under the indices 0, 1,
    and so on. *)
Definition answers_of (selected : list json) : gmap nat json :=
  list_to_map (zip (seq 0 (length selected)) selected).

Definition no_json_here : str := lit "no json here".

(** [no json here] inside a code fence. *)
Definition fenced_no_json : str :=
  lit "```" ++ [LF] ++ no_json_here ++ [LF] ++ lit "```".



(** A Unicode database for the closed examples; their file names are
    ASCII, so it is never consulted. *)
Definition ascii_names : UnicodeData := {| unicode_lower := id |}.

(** An equality on non-strings for the closed examples; they compare
    strings only, so it is never consulted. *)
Definition strings_only : PyEquality := {| eq_non_str := fun _ _ => false |}.

Definition x41 : Byte.byte := Byte.x41.

(** [n] zero bytes. *)
Definition zeros (n : N) : bytes := N.iter n (cons Byte.x00) [].

(** A machine whose clock reads 1700000000.25, with an empty working
    directory, where no file operation fails and no operation takes longer
    than asked. *)
Definition quiet_local : Local :=
  {| now := Qmake 6800000001 4; blocking_ops := 0;
     elapse := fun _ => 0%Q; disk := []; io_fails := fun _ => false |}.

(** A platform that holds nothing yet, whose calls fail as [outage] says;
    every run is reported [in_progress]. *)
Definition platform (outage : nat -> bool) : Remote :=
  {| stored_files := []; attached := []; calls := [];
     outage := outage;
     fresh_id := fun n => lit "id-" ++ str_of_nat n;
     run_status_at := fun _ => lit "in_progress" |}.

Definition client : StudyBuddyClient :=
  {| model := lit "gpt-4-1106-preview" |}.

(** The session when the application starts. *)
Definition starting_session (outage : nat -> bool) : Session :=
  {| file_manager := file_manager.init; openai_client := Some client;
     uploader_version := 0; sidebar := [];
     local := quiet_local; remote := platform outage |}.

Definition fresh_session : Session := starting_session (fun _ => false).

Definition notes_pdf : FileData :=
  {| name := lit "notes.pdf"; size := 3; getbuffer := [x41; x41; x41] |}.

(** The same three bytes under an upper-case extension. *)
Definition notes_PDF : FileData :=
  {| name := lit "notes.PDF"; size := 3; getbuffer := [x41; x41; x41] |}.

(** A file of 200 MB and one byte. *)
Definition big_pdf : FileData :=
  {| name := lit "big.pdf"; size := 209715201;
     getbuffer := zeros 209715201 |}.

(** A file of 300 MB whose extension is not in the allow-list. *)
Definition big_exe : FileData :=
  {| name := lit "big.exe"; size := 314572800;
     getbuffer := zeros 314572800 |}.

Definition slides_txt : FileData :=
  {| name := lit "slides.txt"; size := 2; getbuffer := [x41; x41] |}.

(** One script run with [uploaded] in the uploader: the uploads, then the
    set-up of vector store and assistant. *)
Definition script_run (uploaded : list FileData) : M unit :=
  main.handle_file_upload (H := ascii_names) uploaded ;;
  main.setup_vector_store_and_assistant.

(** The session after [notes.pdf] has been uploaded and indexed: four
    remote calls, all successful. *)
Definition session_with_notes : Session :=
  (script_run [notes_pdf] fresh_session).2.

(** The same session on a platform that fails every call after those
    four. *)
Definition session_then_outage : Session :=
  (script_run [notes_pdf] (starting_session (fun n => 4 <=? n))).2.

(** The same session after [slides.txt] was uploaded too, the call that
    attaches it to the vector store (the sixth call) having failed. *)
Definition drifted_session : Session :=
  (main.handle_file_upload (H := ascii_names) [slides_txt]
     (script_run [notes_pdf] (starting_session (fun n => n =? 5))).2).2.

(** The session that tracks [notes.pdf] after [add_file] was called with
    [notes.pdf] once more: two documents of that name, the second without
    a remote id. *)
Definition session_tracking_twice : Session :=
  (file_manager.add_file (H := ascii_names) notes_pdf session_with_notes).2.

End samples.

(* ================================================================= *)
(** * Properties *)

(* ================================================================= *)
(** ** The JSON decoder *)

Module decoder_properties.

Import Json spec.

Lemma skip_ws_bounds (rest : str) (pos : nat) :
  pos ≤ skip_ws rest pos ≤ pos + length rest.
Proof.
  revert pos. induction rest as [|c rest IH]; simpl; intros pos; [lia|].
  destruct (is_ws c); [|lia]. specialize (IH (S pos)). lia.
Qed.

Lemma w_end_bounds (s : str) (pos : nat) :
  pos `min` length s ≤ w_end s pos ≤ length s.
Proof.
  unfold w_end.
  pose proof (skip_ws_bounds (drop (pos `min` length s) s)
                             (pos `min` length s)) as H.
  rewrite length_drop in H. lia.
Qed.

Lemma skip_after_delimiter_ge (s : str) (pos : nat) :
  pos ≤ skip_after_delimiter s pos.
Proof.
  unfold skip_after_delimiter.
  destruct (s !! pos) as [c|]; [|lia].
  destruct (is_ws c); [|lia].
  destruct (s !! (pos + 1)) as [c'|] eqn:E; [|lia].
  destruct (is_ws c'); [|lia].
  apply lookup_lt_Some in E.
  pose proof (w_end_bounds s (pos + 1 + 1)). lia.
Qed.

Lemma is_char_Some (c : N) (s : str) (i : nat) :
  is_char c (s !! i) = true → i < length s.
Proof.
  destruct (s !! i) eqn:E; [|done]. intros _. by eapply lookup_lt_Some.
Qed.

Ltac split_scan :=
  repeat match goal with
    | |- context [if ?b then _ else _] => destruct b eqn:?
    | |- context [match ?x with [] => _ | _ :: _ => _ end] =>
        is_var x; destruct x
    | |- context [match decode_uXXXX ?a ?b ?c ?d with _ => _ end] =>
        destruct (decode_uXXXX a b c d) eqn:?
    | |- context [match backslash ?e with _ => _ end] =>
        destruct (backslash e) eqn:?
    end.

Lemma scanstring_from_scanned (n : nat) :
  ∀ (rest : str) (pos begin : nat) (chunks : str),
    length rest ≤ n →
    string_scanned pos (length rest) (scanstring_from rest pos begin chunks).
Proof.
  induction n as [|n IH]; intros rest pos begin chunks Hn.
  { destruct rest; [done|simpl in Hn; lia]. }
  destruct rest as [|c rest]; [done|].
  cbn [scanstring_from]. split_scan; cbn [length] in *.
  all: try match goal with
       | |- string_scanned _ _ (scanstring_from ?r ?p ?b ?c) =>
           pose proof (IH r p b c ltac:(cbn [length]; lia)) as Hr;
           destruct (scanstring_from r p b c);
           cbn [string_scanned length] in *; try done; lia
       end.
  all: cbn [string_scanned]; first [exact I | lia].
Qed.

Lemma scanstring_scanned (s : str) (end_ : nat) :
  string_scanned end_ (length s - end_) (scanstring s end_).
Proof.
  unfold scanstring.
  pose proof (scanstring_from_scanned _ (drop end_ s) end_ (end_ - 1) []
                                      (le_n _)) as H.
  by rewrite length_drop in H.
Qed.

Lemma span_digits_app (rest ds r : str) :
  span_digits rest = (ds, r) → rest = ds ++ r.
Proof.
  revert ds r. induction rest as [|c rest IH]; simpl; intros ds r E.
  - by injection E as <- <-.
  - destruct (is_digit c); [|by injection E as <- <-].
    destruct (span_digits rest) as [ds' r']. injection E as <- <-.
    simpl. f_equal. by apply IH.
Qed.

Lemma match_integer_app (rest m r : str) :
  match_integer rest = Some (m, r) → rest = m ++ r ∧ 0 < length m.
Proof.
  unfold match_integer. intros E.
  assert (∀ sign r1, rest = sign ++ r1 →
            match r1 with
            | c :: r0 =>
                if (c =? 48)%N then Some (sign ++ [c], r0)
                else if is_digit c then
                       let '(ds, r') := span_digits r0 in
                       Some (sign ++ c :: ds, r')
                     else None
            | [] => None
            end = Some (m, r) → rest = m ++ r ∧ 0 < length m) as Hint.
  { clear E. intros sign [|c r0] -> E; [done|].
    destruct (c =? 48)%N.
    - injection E as <- <-. rewrite <- app_assoc, length_app. simpl.
      split; [done|lia].
    - destruct (is_digit c); [|done].
      destruct (span_digits r0) as [ds r'] eqn:Hsp.
      apply span_digits_app in Hsp as ->. injection E as <- <-.
      rewrite <- app_assoc, length_app. simpl. split; [done|lia]. }
  destruct rest as [|c0 rest0].
  - by apply (Hint [] []).
  - destruct (c0 =? 45)%N.
    + by apply (Hint [c0] rest0).
    + by apply (Hint [] (c0 :: rest0)).
Qed.

Lemma match_frac_app (rest m r : str) :
  match_frac rest = (m, r) → rest = m ++ r.
Proof.
  unfold match_frac. intros E. destruct rest as [|c rest0].
  - by injection E as <- <-.
  - destruct (c =? 46)%N; [|by injection E as <- <-].
    destruct (span_digits rest0) as [ds r'] eqn:Hsp.
    apply span_digits_app in Hsp as ->.
    destruct ds; by injection E as <- <-.
Qed.

Lemma match_exp_app (rest m r : str) :
  match_exp rest = (m, r) → rest = m ++ r.
Proof.
  unfold match_exp. intros E. destruct rest as [|e rest0].
  - by injection E as <- <-.
  - destruct ((e =? 101) || (e =? 69))%N; [|by injection E as <- <-].
    assert (∃ sg r1, rest0 = sg ++ r1
              ∧ (let '(ds, r'') := span_digits r1 in
                 match ds with
                 | [] => ([], e :: rest0)
                 | _ :: _ => (e :: sg ++ ds, r'')
                 end) = (m, r)) as (sg & r1 & -> & E').
    { destruct rest0 as [|c r0]; [by exists [], []|].
      destruct ((c =? 45) || (c =? 43))%N.
      - by exists [c], r0.
      - by exists [], (c :: r0). }
    destruct (span_digits r1) as [ds r''] eqn:Hsp.
    apply span_digits_app in Hsp as ->.
    destruct ds; injection E' as <- <-; [done|].
    simpl. by rewrite <- !app_assoc.
Qed.

Lemma match_number_advances (s : str) (idx : nat)
      (integer frac exp : str) (e : nat) :
  match_number s idx = Some (integer, frac, exp, e) →
  idx < e ≤ length s.
Proof.
  unfold match_number. intros E.
  destruct (match_integer (drop idx s)) as [[i r1]|] eqn:Ei; [|done].
  destruct (match_frac r1) as [f r2] eqn:Ef.
  destruct (match_exp r2) as [x r3] eqn:Ex.
  injection E as <- <- <- <-.
  apply match_integer_app in Ei as [Hd Hi].
  apply match_frac_app in Ef as ->. apply match_exp_app in Ex as ->.
  apply (f_equal length) in Hd.
  rewrite length_drop, !length_app in Hd. lia.
Qed.

Lemma literal_at_within (s : str) (idx : nat) (word : string) :
  0 < length (lit word) →
  literal_at s idx word = true → idx + length (lit word) ≤ length s.
Proof.
  unfold literal_at, str_eqb, slice. intros Hw E.
  apply bool_decide_eq_true in E. apply (f_equal length) in E.
  rewrite length_take, length_drop in E. lia.
Qed.

Section loops.
Variable scan : str → nat → scanned json.
Variable s : str.
Hypothesis scan_advances : ∀ i, advances s i (scan s i).

Lemma delimiter_after_value (e1 p : nat) (nc : option N) (c : N) :
  e1 ≤ length s →
  (if in_ws (s !! e1)
   then (w_end s (e1 + 1), s !! w_end s (e1 + 1))
   else (e1, s !! e1)) = (p, nc) →
  is_char c nc = true →
  e1 ≤ p < length s.
Proof.
  intros He1 E Hc. pose proof (w_end_bounds s (e1 + 1)).
  destruct (in_ws _); injection E as <- <-; apply is_char_Some in Hc; lia.
Qed.

Lemma array_loop_advances (fuel : nat) :
  ∀ values end_, advances s end_ (array_loop scan fuel s values end_).
Proof.
  induction fuel as [|fuel IH]; intros values end_; [done|].
  cbn [array_loop]. pose proof (scan_advances end_) as Hs.
  destruct (scan s end_) as [value e1| | | |]; try done. simpl in Hs.
  match goal with
  | |- context [let '(_, _) := ?X in _] => destruct X as [p nc] eqn:Ep
  end.
  destruct (is_char 93 nc) eqn:H93.
  { pose proof (delimiter_after_value e1 _ _ _ ltac:(lia) Ep H93). simpl. lia. }
  destruct (is_char 44 nc) eqn:H44; [|done]. simpl.
  pose proof (delimiter_after_value e1 _ _ _ ltac:(lia) Ep H44).
  pose proof (skip_after_delimiter_ge s (p + 1)).
  specialize (IH (values ++ [value]) (skip_after_delimiter s (p + 1))).
  destruct (array_loop _ _ _ _ _); try done. simpl in *. lia.
Qed.

Lemma array_loop_not_exhausted (fuel : nat) :
  ∀ values end_,
    (∀ i, end_ ≤ i → not_exhausted (scan s i)) →
    length s - end_ < fuel →
    not_exhausted (array_loop scan fuel s values end_).
Proof.
  induction fuel as [|fuel IH]; intros values end_ Hne Hf; [lia|].
  cbn [array_loop]. pose proof (scan_advances end_) as Hs.
  specialize (Hne end_ (le_n _)) as Hn.
  destruct (scan s end_) as [value e1| | | |]; try done. simpl in Hs.
  match goal with
  | |- context [let '(_, _) := ?X in _] => destruct X as [p nc] eqn:Ep
  end.
  destruct (is_char 93 nc) eqn:H93; [done|].
  destruct (is_char 44 nc) eqn:H44; [|done]. simpl.
  pose proof (delimiter_after_value e1 _ _ _ ltac:(lia) Ep H44).
  pose proof (skip_after_delimiter_ge s (p + 1)).
  apply IH; [|lia]. intros i Hi. apply Hne. lia.
Qed.

Lemma JSONArray_advances (fuel end_ : nat) :
  end_ ≤ length s → advances s end_ (JSONArray scan fuel s end_).
Proof.
  intros He. unfold JSONArray.
  match goal with
  | |- context [let '(_, _) := ?X in _] => destruct X as [p nc] eqn:Ep
  end.
  destruct (is_char 93 nc) eqn:H93.
  { pose proof (delimiter_after_value _ _ _ _ He Ep H93). simpl. lia. }
  assert (end_ ≤ p).
  { pose proof (w_end_bounds s (end_ + 1)).
    destruct (in_ws _); injection Ep as <- <-; lia. }
  pose proof (array_loop_advances fuel [] p) as Ha.
  destruct (array_loop _ _ _ _ _); try done. simpl in *. lia.
Qed.

Lemma JSONArray_not_exhausted (fuel end_ : nat) :
  end_ ≤ length s →
  (∀ i, end_ ≤ i → not_exhausted (scan s i)) →
  length s - end_ < fuel →
  not_exhausted (JSONArray scan fuel s end_).
Proof.
  intros He Hne Hf. unfold JSONArray.
  match goal with
  | |- context [let '(_, _) := ?X in _] => destruct X as [p nc] eqn:Ep
  end.
  destruct (is_char 93 nc) eqn:H93; [done|].
  assert (end_ ≤ p).
  { pose proof (w_end_bounds s (end_ + 1)).
    destruct (in_ws _); injection Ep as <- <-; lia. }
  apply array_loop_not_exhausted; [|lia]. intros i Hi. apply Hne. lia.
Qed.

Lemma colon_after_key (e p : nat) :
  e ≤ length s →
  (if is_char 58 (s !! e) then inl e
   else let e' := w_end s e in
        if is_char 58 (s !! e') then inl e' else inr e')
  = (inl p : nat + nat) →
  e ≤ p < length s.
Proof.
  intros He E. pose proof (w_end_bounds s e).
  destruct (is_char 58 (s !! e)) eqn:H1.
  - injection E as <-. apply is_char_Some in H1. lia.
  - cbv zeta in E. destruct (is_char 58 (s !! w_end s e)) eqn:H2; [|done].
    injection E as <-. apply is_char_Some in H2. lia.
Qed.

Lemma delimiter_after_member (e1 p : nat) (nc : option N) (c : N) :
  e1 ≤ length s →
  match s !! e1 with
  | None => (e1, None)
  | Some x =>
      if is_ws x then (w_end s (e1 + 1), s !! w_end s (e1 + 1))
      else (e1, Some x)
  end = (p, nc) →
  is_char c nc = true →
  e1 ≤ p < length s.
Proof.
  intros He1 E Hc. pose proof (w_end_bounds s (e1 + 1)).
  destruct (s !! e1) as [x|] eqn:Ex.
  - apply lookup_lt_Some in Ex.
    destruct (is_ws x); injection E as <- <-.
    + apply is_char_Some in Hc. lia.
    + lia.
  - by injection E as <- <-.
Qed.

Lemma object_loop_advances (fuel : nat) :
  ∀ pairs end_, advances s end_ (object_loop scan fuel s pairs end_).
Proof.
  induction fuel as [|fuel IH]; intros pairs end_; [done|].
  cbn [object_loop]. pose proof (scanstring_scanned s end_) as Hk.
  destruct (scanstring s end_) as [key e1| | | |]; try done. simpl in Hk.
  match goal with
  | |- context [match ?X with inl _ => _ | inr _ => _ end] =>
      destruct X as [p|p] eqn:Ec; [|done]
  end.
  pose proof (colon_after_key e1 p ltac:(lia) Ec).
  pose proof (skip_after_delimiter_ge s (p + 1)).
  pose proof (scan_advances (skip_after_delimiter s (p + 1))) as Hs.
  destruct (scan s _) as [value e3| | | |]; try done. simpl in Hs.
  match goal with
  | |- context [let '(_, _) := ?X in _] => destruct X as [p' nc] eqn:Ep
  end.
  destruct (is_char 125 nc) eqn:H125.
  { pose proof (delimiter_after_member e3 _ _ _ ltac:(lia) Ep H125).
    simpl. lia. }
  destruct (is_char 44 nc) eqn:H44; [|done]. simpl.
  pose proof (delimiter_after_member e3 _ _ _ ltac:(lia) Ep H44).
  pose proof (w_end_bounds s (p' + 1)).
  destruct (is_char DQ (s !! w_end s (p' + 1))) eqn:Hq; [|done]. simpl.
  specialize (IH (pairs ++ [(key, value)]) (w_end s (p' + 1) + 1)).
  destruct (object_loop _ _ _ _ _); try done. simpl in *. lia.
Qed.

Lemma object_loop_not_exhausted (fuel : nat) :
  ∀ pairs end_,
    (∀ i, end_ ≤ i → not_exhausted (scan s i)) →
    length s - end_ < fuel →
    not_exhausted (object_loop scan fuel s pairs end_).
Proof.
  induction fuel as [|fuel IH]; intros pairs end_ Hne Hf; [lia|].
  cbn [object_loop]. pose proof (scanstring_scanned s end_) as Hk.
  destruct (scanstring s end_) as [key e1| | | |]; try done. simpl in Hk.
  match goal with
  | |- context [match ?X with inl _ => _ | inr _ => _ end] =>
      destruct X as [p|p] eqn:Ec; [|done]
  end.
  pose proof (colon_after_key e1 p ltac:(lia) Ec).
  pose proof (skip_after_delimiter_ge s (p + 1)).
  pose proof (scan_advances (skip_after_delimiter s (p + 1))) as Hs.
  specialize (Hne (skip_after_delimiter s (p + 1)) ltac:(lia)) as Hn.
  destruct (scan s _) as [value e3| | | |]; try done. simpl in Hs.
  match goal with
  | |- context [let '(_, _) := ?X in _] => destruct X as [p' nc] eqn:Ep
  end.
  destruct (is_char 125 nc) eqn:H125; [done|].
  destruct (is_char 44 nc) eqn:H44; [|done]. simpl.
  pose proof (delimiter_after_member e3 _ _ _ ltac:(lia) Ep H44).
  pose proof (w_end_bounds s (p' + 1)).
  destruct (is_char DQ (s !! w_end s (p' + 1))) eqn:Hq; [|done]. simpl.
  apply IH; [|lia]. intros i Hi. apply Hne. lia.
Qed.

Lemma JSONObject_advances (fuel end_ : nat) :
  end_ ≤ length s → advances s end_ (JSONObject scan fuel s end_).
Proof.
  intros He. unfold JSONObject.
  assert (∀ e, end_ ≤ e →
               advances s end_ (object_loop scan fuel s [] (e + 1))) as Hl.
  { intros e Hle. pose proof (object_loop_advances fuel [] (e + 1)) as Ha.
    destruct (object_loop _ _ _ _ _); try done. simpl in *. lia. }
  destruct (is_char DQ (s !! end_)); [by apply Hl|].
  match goal with
  | |- context [let '(_, _) := ?X in _] => destruct X as [p nc] eqn:Ep
  end.
  assert (end_ ≤ p ∧ nc = s !! p) as [Hp ->].
  { pose proof (w_end_bounds s end_).
    destruct (in_ws _); injection Ep as <- <-; split; (lia || done). }
  destruct (is_char 125 (s !! p)) eqn:H125.
  { apply is_char_Some in H125. simpl. lia. }
  destruct (is_char DQ (s !! p)); [|done]. by apply Hl.
Qed.

Lemma JSONObject_not_exhausted (fuel end_ : nat) :
  end_ ≤ length s →
  (∀ i, end_ ≤ i → not_exhausted (scan s i)) →
  length s - end_ < fuel →
  not_exhausted (JSONObject scan fuel s end_).
Proof.
  intros He Hne Hf. unfold JSONObject.
  assert (∀ e, end_ ≤ e →
               not_exhausted (object_loop scan fuel s [] (e + 1))) as Hl.
  { intros e Hle. apply object_loop_not_exhausted; [|lia].
    intros i Hi. apply Hne. lia. }
  destruct (is_char DQ (s !! end_)); [by apply Hl|].
  match goal with
  | |- context [let '(_, _) := ?X in _] => destruct X as [p nc] eqn:Ep
  end.
  assert (end_ ≤ p).
  { pose proof (w_end_bounds s end_).
    destruct (in_ws _); injection Ep as <- <-; lia. }
  destruct (is_char 125 nc); [done|].
  destruct (is_char DQ nc); [|done]. by apply Hl.
Qed.
End loops.

Lemma scan_once_advances (fuel : nat) :
  ∀ s idx, advances s idx (scan_once fuel s idx).
Proof.
  induction fuel as [|fuel IH]; intros s idx; [done|].
  cbn [scan_once]. destruct (s !! idx) as [c|] eqn:Ec; [|done].
  apply lookup_lt_Some in Ec.
  destruct (c =? DQ)%N.
  { pose proof (scanstring_scanned s (idx + 1)) as Hk.
    destruct (scanstring s (idx + 1)); try done. simpl in *. lia. }
  destruct (c =? 123)%N.
  { pose proof (JSONObject_advances (scan_once fuel) s (IH s) fuel (idx + 1)
                                    ltac:(lia)) as Ho.
    destruct (JSONObject _ _ _ _); try done. simpl in *. lia. }
  destruct (c =? 91)%N.
  { pose proof (JSONArray_advances (scan_once fuel) s (IH s) fuel (idx + 1)
                                   ltac:(lia)) as Ha.
    destruct (JSONArray _ _ _ _); try done. simpl in *. lia. }
  repeat match goal with
    | |- context [_ && literal_at s idx ?w] =>
        let H := fresh "Hl" in
        destruct (literal_at s idx w) eqn:H;
        [apply literal_at_within in H; [|vm_compute; lia];
         change (length (lit w)) with (String.length w) in H; simpl in H
        |rewrite andb_false_r]
    | |- context [if ?b && true then _ else _] => destruct b; simpl
    end; try (simpl; lia).
  all: destruct (match_number s idx) as [[[[i f] x] e]|] eqn:En;
    [apply match_number_advances in En;
     destruct (f ++ x); [destruct (int_of_lexeme i)|]; simpl; first [lia|done]|];
    try done.
  all: simpl; lia.
Qed.

Lemma scan_once_not_exhausted (fuel : nat) :
  ∀ s idx, length s - idx < fuel → not_exhausted (scan_once fuel s idx).
Proof.
  induction fuel as [|fuel IH]; intros s idx Hf; [lia|].
  cbn [scan_once]. destruct (s !! idx) as [c|] eqn:Ec; [|done].
  apply lookup_lt_Some in Ec.
  destruct (c =? DQ)%N.
  { pose proof (scanstring_scanned s (idx + 1)) as Hk.
    destruct (scanstring s (idx + 1)); done. }
  destruct (c =? 123)%N.
  { apply JSONObject_not_exhausted; [apply scan_once_advances|lia| |lia].
    intros i Hi. apply IH. lia. }
  destruct (c =? 91)%N.
  { apply JSONArray_not_exhausted; [apply scan_once_advances|lia| |lia].
    intros i Hi. apply IH. lia. }
  repeat match goal with
    | |- context [if ?b then _ else _] => destruct b
    end; try done.
  all: destruct (match_number s idx) as [[[[i f] x] e]|];
    [by destruct (f ++ x); [destruct (int_of_lexeme i)|]|].
  all: repeat match goal with
    | |- context [if ?b then _ else _] => destruct b
    end; done.
Qed.

Section limits.
Variable scan : str → nat → scanned json.
Variable s : str.
Hypothesis scan_limit : ∀ i, over_digit_limit (scan s i).

Lemma array_loop_digit_limit (fuel : nat) :
  ∀ values end_, over_digit_limit (array_loop scan fuel s values end_).
Proof.
  induction fuel as [|fuel IH]; intros values end_; [done|].
  cbn [array_loop]. pose proof (scan_limit end_) as Hs.
  destruct (scan s end_) as [value e1| | | |]; try done.
  match goal with
  | |- context [let '(_, _) := ?X in _] => destruct X as [p nc]
  end.
  destruct (is_char 93 nc); [done|].
  destruct (is_char 44 nc); [|done]. apply IH.
Qed.

Lemma JSONArray_digit_limit (fuel end_ : nat) :
  over_digit_limit (JSONArray scan fuel s end_).
Proof.
  unfold JSONArray.
  match goal with
  | |- context [let '(_, _) := ?X in _] => destruct X as [p nc]
  end.
  destruct (is_char 93 nc); [done|]. apply array_loop_digit_limit.
Qed.

Lemma object_loop_digit_limit (fuel : nat) :
  ∀ pairs end_, over_digit_limit (object_loop scan fuel s pairs end_).
Proof.
  induction fuel as [|fuel IH]; intros pairs end_; [done|].
  cbn [object_loop]. pose proof (scanstring_scanned s end_) as Hk.
  destruct (scanstring s end_) as [key e1| | | |]; try done.
  match goal with
  | |- context [match ?X with inl _ => _ | inr _ => _ end] =>
      destruct X as [p|p]; [|done]
  end.
  pose proof (scan_limit (skip_after_delimiter s (p + 1))) as Hs.
  destruct (scan s _) as [value e3| | | |]; try done.
  match goal with
  | |- context [let '(_, _) := ?X in _] => destruct X as [p' nc]
  end.
  destruct (is_char 125 nc); [done|].
  destruct (is_char 44 nc); [|done]. simpl.
  destruct (is_char DQ (s !! w_end s (p' + 1))); [|done]. apply IH.
Qed.

Lemma JSONObject_digit_limit (fuel end_ : nat) :
  over_digit_limit (JSONObject scan fuel s end_).
Proof.
  unfold JSONObject.
  destruct (is_char DQ (s !! end_)); [apply object_loop_digit_limit|].
  match goal with
  | |- context [let '(_, _) := ?X in _] => destruct X as [p nc]
  end.
  destruct (is_char 125 nc); [done|].
  destruct (is_char DQ nc); [|done]. apply object_loop_digit_limit.
Qed.
End limits.

Lemma int_of_lexeme_digit_limit (integer : str) (digits : nat) :
  int_of_lexeme integer = inr digits → int_max_str_digits < digits.
Proof.
  unfold int_of_lexeme.
  match goal with
  | |- context [let '(_, _) := ?X in _] => destruct X as [negative ds]
  end.
  destruct (_ <? _) eqn:E; [|done]. intros [= <-].
  by apply Nat.ltb_lt in E.
Qed.

Lemma scan_once_digit_limit (fuel : nat) :
  ∀ s idx, over_digit_limit (scan_once fuel s idx).
Proof.
  induction fuel as [|fuel IH]; intros s idx; [done|].
  cbn [scan_once]. destruct (s !! idx) as [c|]; [|done].
  destruct (c =? DQ)%N.
  { pose proof (scanstring_scanned s (idx + 1)) as Hk.
    destruct (scanstring s (idx + 1)); done. }
  destruct (c =? 123)%N; [apply JSONObject_digit_limit, IH|].
  destruct (c =? 91)%N; [apply JSONArray_digit_limit, IH|].
  repeat match goal with
    | |- context [if ?b then _ else _] => destruct b
    end; try done.
  all: destruct (match_number s idx) as [[[[i f] x] e]|];
    [destruct (f ++ x); [|done];
     destruct (int_of_lexeme i) eqn:Ei; [done|];
     by apply int_of_lexeme_digit_limit in Ei|].
  all: repeat match goal with
    | |- context [if ?b then _ else _] => destruct b
    end; done.
Qed.

(** The nesting bound of the model is never reached: [json.loads] returns
    a value, raises a [JSONDecodeError] about its argument, or lets through
    the [ValueError] of an integer of more than 4300 digits. *)
Theorem loads_total (s : str) :
  (∃ v, loads s = Ok v)
  ∨ (∃ msg pos, loads s = Err (JSONDecodeError msg s pos))
  ∨ (∃ digits, int_max_str_digits < digits
               ∧ loads s = Err (ValueError_ExceedsDigitLimit digits)).
Proof.
  unfold loads. destruct (startswith _ _); [by right; left; eexists _, _|].
  pose proof (scan_once_not_exhausted (S (length s)) s (w_end s 0)
                                      ltac:(lia)) as Hn.
  pose proof (scan_once_digit_limit (S (length s)) s (w_end s 0)) as Hd.
  destruct (scan_once _ _ _) as [obj e| | |digits|];
    [|by right; left; eexists _, _..| |done].
  - destruct (_ =? _); [left|right; left]; eauto.
  - right; right. exists digits. split; [by apply Hd|done].
Qed.


End decoder_properties.

(* ================================================================= *)
(** ** The extractor *)

Module extractor_properties.

Import utils Json spec samples.























(** C5.  On the text made of prose, a fenced block tagged [json] holding a
    one-item quiz array, and more prose, extraction succeeds and returns
    exactly one record, whose ["correct"] field is ["a"]. *)
Theorem C5_extraction_tolerance :
  ∃ record,
    extract_first_json_array tolerance_text = Ok (JList [record])
    ∧ getitem record (lit "correct") = Ok (JStr (lit "a")).
Proof. eexists. split; vm_compute; reflexivity. Qed.

(** Without a candidate, the result is whatever the fence-stripped text
    parses to. *)
Lemma fallback_returns_whole_parse (text : str) (v : json) :
  candidates (strip_code_fences text) = [] →
  loads (strip_code_fences text) = Ok v →
  extract_first_json_array text = Ok v.
Proof.
  intros Hc Hl. unfold extract_first_json_array. by rewrite Hc, Hl.
Qed.

(** C10.  The result need not be an array: the texts [7] and [null] have no
    bracketed candidate, the parse of the whole text succeeds, and the
    function returns the integer 7 and [None]. *)
Theorem C10_fallback_returns_non_array :
  (candidates (strip_code_fences (lit "7")) = []
   ∧ extract_first_json_array (lit "7") = Ok (JInt 7)
   ∧ is_array (JInt 7) = false)
  ∧ (candidates (strip_code_fences (lit "null")) = []
     ∧ extract_first_json_array (lit "null") = Ok JNull
     ∧ is_array JNull = false).
Proof. repeat split; vm_compute; reflexivity. Qed.



Lemma fenced_text_error_is_that_of_inner_text :
  ∃ e, extract_first_json_array fenced_no_json = Err e
       ∧ extract_first_json_array no_json_here = Err e
       ∧ fenced_no_json ≠ no_json_here
       ∧ error_doc e = Some no_json_here.
Proof. eexists. split_and!; [vm_compute; reflexivity..|done|vm_compute; reflexivity]. Qed.


End extractor_properties.

(* ================================================================= *)
(** ** The resource registry *)

Module registry_properties.

Import config utils file_manager main spec samples.

Ltac run_monad :=
  unfold mbind, M_bind, mret, M_ret, gets, modify, raise, try_except; simpl.

Lemma too_large_threshold (z : Z) :
  Qle_bool (get_file_size_mb z) (inject_Z MAX_FILE_SIZE_MB) = false
  ↔ (209767629 ≤ z)%Z.
Proof.
  unfold get_file_size_mb, Qle_bool, round_half_even, MAX_FILE_SIZE_MB.
  cbn [Qnum Qden inject_Z].
  pose proof (Z.div_mod (z * 10) (1024 * 1024) ltac:(lia)) as Hdm.
  pose proof (Z.mod_pos_bound (z * 10) (1024 * 1024) ltac:(lia)) as Hr.
  set (q := (z * 10 / (1024 * 1024))%Z) in *.
  set (r := ((z * 10) mod (1024 * 1024))%Z) in *.
  rewrite Z.leb_gt.
  destruct (Z.ltb_spec (2 * r) (1024 * 1024)).
  { lia. }
  destruct (Z.ltb_spec (1024 * 1024) (2 * r)).
  { lia. }
  destruct (Z.even q) eqn:Hev; [lia|].
  assert (q ≠ 2000%Z) by (intros ->; discriminate). lia.
Qed.

Lemma ascii_lower_char_eqb (c sep : N) :
  (sep = 47 ∨ sep = 46)%N →
  (ascii_lower_char c =? sep)%N = (c =? sep)%N.
Proof.
  unfold ascii_lower_char. intros Hsep.
  destruct ((65 <=? c) && (c <=? 90))%N eqn:E; [|done].
  apply andb_true_iff in E as [H1 H2].
  apply N.leb_le in H1, H2.
  destruct (N.eqb_spec (c + 32) sep), (N.eqb_spec c sep); try done; lia.
Qed.

Lemma split_on_lowered (sep : N) (s cur : str) :
  (sep = 47 ∨ sep = 46)%N →
  split_on sep (lowered s) (lowered cur) = lowered <$> split_on sep s cur.
Proof.
  intros Hsep. revert cur. induction s as [|c s IH]; intros cur; simpl; [done|].
  rewrite ascii_lower_char_eqb by done.
  destruct (c =? sep)%N; simpl.
  - f_equal. apply (IH []).
  - rewrite <- IH. unfold lowered. by rewrite fmap_app.
Qed.

Lemma split_on_Forall (P : N → Prop) (sep : N) (s cur : str) :
  Forall P s → Forall P cur → Forall (Forall P) (split_on sep s cur).
Proof.
  intros Hs. revert cur. induction Hs as [|c s Hc Hs IH]; intros cur Hcur; simpl.
  - by constructor.
  - destruct (c =? sep)%N.
    + constructor; [done|]. by apply IH.
    + apply IH. apply Forall_app. split; [done|]. by constructor.
Qed.

Lemma lowered_eq_dot (x : str) : lowered x = lit "." ↔ x = lit ".".
Proof.
  split; [|by intros ->].
  change (lit ".") with [46%N].
  destruct x as [|c [|d x]]; try done. simpl. intros [= E].
  f_equal. pose proof (ascii_lower_char_eqb c 46 ltac:(by right)) as H.
  rewrite E in H. simpl in H. symmetry in H. by apply N.eqb_eq in H.
Qed.

Lemma path_name_lowered (filename : str) :
  path_name (lowered filename) = lowered (path_name filename).
Proof.
  unfold path_name.
  pose proof (split_on_lowered 47 filename [] ltac:(by left)) as Hs.
  change (lowered []) with (@nil N) in Hs. rewrite Hs. clear Hs.
  generalize (split_on 47%N filename []). intros parts.
  assert (filter (λ x : str, x ≠ [] ∧ x ≠ lit ".") (lowered <$> parts)
          = lowered <$> filter (λ x : str, x ≠ [] ∧ x ≠ lit ".") parts) as ->.
  { induction parts as [|x parts IH]; [done|].
    rewrite fmap_cons, !filter_cons, IH.
    destruct (decide (x ≠ [] ∧ x ≠ lit ".")) as [[H1 H2]|Hn].
    - rewrite decide_True; [done|]. split.
      + by destruct x.
      + by rewrite lowered_eq_dot.
    - rewrite decide_False; [done|]. intros [H1 H2]. apply Hn. split.
      + by destruct x.
      + by rewrite <- lowered_eq_dot. }
  rewrite fmap_last. by destruct (last _).
Qed.

Lemma rfind_from_lowered (c : N) (s : str) (i : nat) (found : option nat) :
  (c = 47 ∨ c = 46)%N →
  rfind_from c (lowered s) i found = rfind_from c s i found.
Proof.
  intros Hc. revert i found. induction s as [|x s IH]; intros i found; simpl; [done|].
  rewrite ascii_lower_char_eqb by done. apply IH.
Qed.

Lemma path_suffix_lowered (filename : str) :
  path_suffix (lowered filename) = lowered (path_suffix filename).
Proof.
  unfold path_suffix, rfind. rewrite path_name_lowered.
  rewrite rfind_from_lowered by (by right).
  unfold lowered at 1. rewrite length_fmap.
  destruct (rfind_from _ _ _ _) as [i|]; [|done].
  destruct (_ && _); [|done]. unfold lowered. by rewrite fmap_drop.
Qed.

Lemma path_name_Forall (P : N → Prop) (filename : str) :
  Forall P filename → Forall P (path_name filename).
Proof.
  intros Hf. unfold path_name.
  pose proof (split_on_Forall P 47 filename [] Hf (Forall_nil_2 _)) as Hp.
  destruct (last _) as [x|] eqn:El; [|by constructor]. simpl.
  apply last_Some_elem_of in El. apply list_elem_of_filter in El as [_ El].
  rewrite Forall_forall in Hp. by apply Hp.
Qed.

Lemma path_suffix_Forall (P : N → Prop) (filename : str) :
  Forall P filename → Forall P (path_suffix filename).
Proof.
  intros Hf. unfold path_suffix.
  destruct (rfind _ _); [|by constructor].
  destruct (_ && _); [|by constructor].
  by apply Forall_drop, path_name_Forall.
Qed.

Lemma is_ascii_Forall (s : str) :
  is_ascii s = true ↔ Forall (λ c, (c < 128)%N) s.
Proof.
  unfold is_ascii. rewrite forallb_forall, Forall_forall.
  split; intros H c Hc.
  - apply N.ltb_lt, H. by apply list_elem_of_In.
  - apply N.ltb_lt, H. by apply list_elem_of_In.
Qed.

Lemma split_on_absent (sep : N) (s cur : str) :
  sep ∉ s → split_on sep s cur = [cur ++ s].
Proof.
  revert cur. induction s as [|c s IH]; intros cur Hs; simpl.
  - by rewrite app_nil_r.
  - apply not_elem_of_cons in Hs as [Hc Hs].
    destruct (N.eqb_spec c sep) as [->|_]; [done|].
    rewrite IH by done. by rewrite <- app_assoc.
Qed.

Lemma rfind_from_absent (c : N) (s : str) (i : nat) (found : option nat) :
  c ∉ s → rfind_from c s i found = found.
Proof.
  revert i found. induction s as [|x s IH]; intros i found Hs; simpl; [done|].
  apply not_elem_of_cons in Hs as [Hc Hs].
  rewrite IH by done. destruct (N.eqb_spec x c); [congruence|done].
Qed.

Lemma rfind_from_last (c : N) (pre post : str) (i : nat) (found : option nat) :
  c ∉ post →
  rfind_from c (pre ++ c :: post) i found = Some (i + length pre).
Proof.
  intros Hpost. revert i found.
  induction pre as [|x pre IH]; intros i found; simpl.
  - rewrite N.eqb_refl, rfind_from_absent by done. f_equal. lia.
  - rewrite IH. f_equal. lia.
Qed.

Lemma lstrip_by_head (p : N → bool) (s : str) :
  (∀ c, head s = Some c → p c = false) → lstrip_by p s = s.
Proof.
  destruct s as [|c s]; [done|]. simpl. intros Hc.
  by rewrite (Hc c eq_refl).
Qed.

Lemma lowered_dot_absent (s : str) : 46%N ∉ s → 46%N ∉ lowered s.
Proof.
  intros Hs Hin. apply list_elem_of_fmap in Hin as (c & Hc & Hin).
  pose proof (ascii_lower_char_eqb c 46 ltac:(by right)) as E.
  rewrite <- Hc, N.eqb_refl in E. symmetry in E. apply N.eqb_eq in E.
  by subst.
Qed.

Section case.
Context `{UnicodeData}.

(** The extension of an ASCII file name is the suffix of the lower-cased
    name, without its dot. *)
Lemma extension_of_ascii (filename : str) :
  is_ascii filename = true →
  extension filename = lstrip_chars (lit ".") (path_suffix (lowered filename)).
Proof.
  intros Ha. unfold extension, lower.
  assert (is_ascii (path_suffix filename) = true) as ->.
  { apply is_ascii_Forall, path_suffix_Forall. by apply is_ascii_Forall. }
  by rewrite path_suffix_lowered.
Qed.

(** The type check does not see the case of ASCII letters: two ASCII names
    that are equal once lower-cased are both accepted or both rejected. *)
Lemma validate_file_type_ignores_case (name1 name2 : str)
      (supported_extensions : list str) :
  is_ascii name1 = true → is_ascii name2 = true →
  lowered name1 = lowered name2 →
  validate_file_type name1 supported_extensions
  = validate_file_type name2 supported_extensions.
Proof.
  intros H1 H2 E. unfold validate_file_type.
  by rewrite !extension_of_ascii, E by done.
Qed.

(** The extension of a name [stem.ext], where [stem] is not empty and
    holds no ['/'], and [ext] is a non-empty ASCII string without ['.']
    and ['/']: it is [ext] in lower case, whatever dots [stem] holds. *)
Lemma dotted_name_extension (stem ext : str) :
  stem ≠ [] → ext ≠ [] →
  47%N ∉ stem → 47%N ∉ ext → 46%N ∉ ext →
  is_ascii ext = true →
  extension (stem ++ lit "." ++ ext) = lowered ext.
Proof.
  intros Hstem Hext Hs1 Hs2 Hdot Hascii.
  unfold extension, path_suffix.
  assert (path_name (stem ++ lit "." ++ ext) = stem ++ lit "." ++ ext) as ->.
  { unfold path_name. rewrite split_on_absent.
    - simpl. rewrite filter_cons, decide_True; [done|].
      split; [by destruct stem|].
      destruct stem as [|c [|d stem]]; [done| |done].
      by destruct ext.
    - rewrite !not_elem_of_app. split_and!; [done| |done].
      by intros ?%list_elem_of_singleton. }
  change (lit ".") with [46%N]. unfold rfind. simpl.
  rewrite rfind_from_last by done. simpl.
  assert ((0 <? length stem) && (length stem <? length (stem ++ 46%N :: ext) - 1)
          = true) as ->.
  { rewrite length_app. simpl. apply andb_true_iff.
    split; apply Nat.ltb_lt; destruct stem, ext; simpl in *; try done; lia. }
  rewrite drop_app_length. unfold lower.
  assert (is_ascii (46%N :: ext) = true) as -> by (simpl; by rewrite Hascii).
  simpl. unfold lstrip_chars. simpl.
  apply lstrip_by_head. intros c Hc. apply head_Some_elem_of in Hc.
  simpl. rewrite orb_false_r. apply N.eqb_neq. intros ->.
  by apply (lowered_dot_absent ext).
Qed.
End case.

Section registry.
Context `{UnicodeData}.

Lemma add_file_unsupported (f : FileData) (s : Session) :
  validate_file_type (name f) SUPPORTED_EXTS = false →
  add_file f s = (Err (ValueError_FileTypeNotSupported (name f)), s).
Proof. intros Hv. unfold add_file. rewrite Hv. reflexivity. Qed.

Lemma add_file_too_large (f : FileData) (s : Session) :
  validate_file_type (name f) SUPPORTED_EXTS = true →
  Qle_bool (get_file_size_mb (size f)) (inject_Z MAX_FILE_SIZE_MB) = false →
  add_file f s
  = (Err (ValueError_FileTooLarge (get_file_size_mb (size f))
                                  MAX_FILE_SIZE_MB), s).
Proof. intros Hv Hs. unfold add_file. rewrite Hv, Hs. reflexivity. Qed.

Lemma add_file_accepted (f : FileData) (s : Session) :
  validate_file_type (name f) SUPPORTED_EXTS = true →
  Qle_bool (get_file_size_mb (size f)) (inject_Z MAX_FILE_SIZE_MB) = true →
  (∀ path, io_fails (local s) path = false) →
  ∃ info s',
    add_file f s = (Ok info, s')
    ∧ uploaded_files (file_manager s')
      = uploaded_files (file_manager s) ++ [info]
    ∧ original_name info = name f
    ∧ remote s' = remote s.
Proof.
  intros Hv Hs Hio. unfold add_file. rewrite Hv, Hs. simpl.
  unfold create_temp_filename, write_file, time_time, set_disk,
    on_file_manager.
  run_monad. rewrite Hio. simpl. eauto 10.
Qed.

Lemma upload_one_skips (f : FileData) (s : Session) :
  has_file_with_name (file_manager s) (name f) = true →
  upload_one f s = (Ok tt, s).
Proof. intros Hn. unfold upload_one. run_monad. rewrite Hn. done. Qed.

(** C1 (as amended).  [handle_file_upload] skips a document whose name is
    already tracked: it raises nothing, shows nothing, and leaves the
    whole session as it was: tracked documents, disk and platform. *)
Theorem C1_duplicate_is_skipped (f : FileData) (s : Session) :
  has_file_with_name (file_manager s) (name f) = true →
  handle_file_upload [f] s = (Ok tt, s).
Proof.
  intros Hn. simpl. unfold mbind, M_bind at 1.
  rewrite (upload_one_skips f s Hn). done.
Qed.

(** C8 (as amended).  A document with an allowed extension and a size of
    at least 209767629 bytes (the sizes that round to more than 200.0 MB)
    is rejected by [add_file] with [ValueError("File too large: ...")]
    before anything is written or sent: the session is unchanged, and
    [handle_file_upload] only adds the error to the sidebar. *)
Theorem C8_too_large_is_rejected (f : FileData) (s : Session) :
  validate_file_type (name f) SUPPORTED_EXTS = true →
  (209767629 ≤ size f)%Z →
  let e := ValueError_FileTooLarge (get_file_size_mb (size f))
                                   MAX_FILE_SIZE_MB in
  add_file f s = (Err e, s)
  ∧ (has_file_with_name (file_manager s) (name f) = false →
     handle_file_upload [f] s = (Ok tt, show (FailedToUpload (name f) e) s)).
Proof.
  intros Hv Hs e. apply too_large_threshold in Hs.
  pose proof (add_file_too_large f s Hv Hs) as Ha.
  split; [done|]. intros Hn. simpl. unfold upload_one. run_monad.
  rewrite Hn. fold e in Ha. rewrite Ha. done.
Qed.

Lemma passes_type_check_spec (f : FileData) (s : Session) :
  passes_type_check f s = bool_decide (extension (name f) ∈ SUPPORTED_EXTS).
Proof.
  unfold passes_type_check, add_file, validate_file_type.
  destruct (bool_decide _); simpl; [|done].
  destruct (Qle_bool _ _); simpl; [|done].
  unfold create_temp_filename, write_file, time_time, set_disk,
    on_file_manager.
  run_monad. destruct (io_fails _ _); done.
Qed.

(** C9.  The type check of [add_file] is blind to the case of the
    extension.  For every file, in every session:
    - the check lets the file through exactly when
      [Path(name).suffix.lower().lstrip(".")] is in the allow-list;
    - when the name is [stem.ext] ([stem] not empty and without ['/'],
      [ext] a non-empty ASCII string without ['.'] and ['/']), that is
      exactly when [ext] with its letters lower-cased is in the
      allow-list, whatever the case of the letters of [ext];
    - another file whose ASCII name differs from this ASCII name only in
      the case of its letters passes or fails alike, in any session.
    So [notes.PDF] passes although [PDF] itself is not in the list, and
    it is stored with file type [pdf]. *)
Theorem C9_extension_check_ignores_case (f : FileData) (s : Session) :
  passes_type_check f s = bool_decide (extension (name f) ∈ SUPPORTED_EXTS)
  ∧ (∀ stem ext,
       name f = stem ++ lit "." ++ ext →
       stem ≠ [] → ext ≠ [] →
       47%N ∉ stem → 47%N ∉ ext → 46%N ∉ ext →
       is_ascii ext = true →
       passes_type_check f s = bool_decide (lowered ext ∈ SUPPORTED_EXTS))
  ∧ (∀ g s',
       is_ascii (name f) = true → is_ascii (name g) = true →
       lowered (name g) = lowered (name f) →
       passes_type_check g s' = passes_type_check f s)
  ∧ (lit "PDF" ∉ SUPPORTED_EXTS)
  ∧ passes_type_check notes_PDF s = true
  ∧ (∃ info s', add_file notes_PDF fresh_session = (Ok info, s')
                ∧ file_type info = lit "pdf").
Proof.
  split_and!.
  - apply passes_type_check_spec.
  - intros stem ext Hname Hstem Hext Hs1 Hs2 Hdot Hascii.
    rewrite passes_type_check_spec, Hname.
    by rewrite dotted_name_extension.
  - intros g s' Hf Hg E. rewrite !passes_type_check_spec.
    by apply (validate_file_type_ignores_case (name g) (name f)).
  - intros Hin. pose proof (bool_decide_pack _ Hin) as Hb.
    vm_compute in Hb. exact Hb.
  - rewrite passes_type_check_spec. vm_compute. reflexivity.
  - eexists _, _. split; vm_compute; reflexivity.
Qed.
End registry.

(** C4.  [needs_vector_store_update] is true exactly when (there are no
    documents and a vector store id or an assistant id is recorded) or
    (there are documents and no vector store id is recorded); in
    particular it is false under partial drift, when documents exist, an
    Index is recorded, and the Index lacks one of the documents. *)
Theorem C4_needs_resync (s : Session) :
  needs_vector_store_update (file_manager s)
  = needs_resync_as_specified (file_manager s)
  ∧ (partial_drift s = true →
     has_files (file_manager s) = true →
     needs_vector_store_update (file_manager s) = false).
Proof.
  unfold needs_vector_store_update, needs_resync_as_specified, partial_drift,
    recorded, has_files.
  destruct (file_manager s) as [files vs a]; simpl.
  destruct files as [|file files]; simpl.
  - split; [by destruct (truthy vs), (truthy a)|done].
  - split; [by destruct (truthy vs)|].
    by destruct (truthy vs).
Qed.

(** C1 as the specification states it fails: with [notes.pdf] tracked,
    [add_file] of [notes.pdf] returns a handle and tracks it twice. *)
Lemma C1_counterexample :
  has_file_with_name (file_manager session_with_notes) (name notes_pdf) = true
  ∧ ∃ info s',
      add_file (H := ascii_names) notes_pdf session_with_notes = (Ok info, s')
      ∧ original_name <$> uploaded_files (file_manager s')
        = [lit "notes.pdf"; lit "notes.pdf"].
Proof. split; [|eexists _, _; split]; vm_compute; reflexivity. Qed.

(** C1 at the session that tracks [notes.pdf]. *)
Lemma C1_witness :
  handle_file_upload (H := ascii_names) [notes_pdf] session_with_notes
  = (Ok tt, session_with_notes).
Proof.
  apply (C1_duplicate_is_skipped (H := ascii_names)).
  vm_compute. reflexivity.
Defined.

(** C8 as the specification states it fails at two inputs of more than
    200 MB: [big.pdf] (200 MB and one byte) is accepted, and [big.exe] is
    rejected for its type, not its size. *)
Lemma C8_counterexample :
  ((inject_Z MAX_FILE_SIZE_MB * 1024 * 1024 < inject_Z (size big_pdf))%Q
   ∧ ∃ info s',
       add_file (H := ascii_names) big_pdf fresh_session = (Ok info, s')
       ∧ uploaded_files (file_manager s') = [info])
  ∧ ((inject_Z MAX_FILE_SIZE_MB * 1024 * 1024 < inject_Z (size big_exe))%Q
     ∧ add_file (H := ascii_names) big_exe fresh_session
       = (Err (ValueError_FileTypeNotSupported (name big_exe)), fresh_session)).
Proof.
  split; split.
  - lazy. reflexivity.
  - destruct (add_file_accepted (H := ascii_names) big_pdf fresh_session)
      as (info & s' & Ha & Hf & _).
    + lazy. reflexivity.
    + lazy. reflexivity.
    + done.
    + exists info, s'. split; [exact Ha|exact Hf].
  - lazy. reflexivity.
  - apply (add_file_unsupported (H := ascii_names)). lazy. reflexivity.
Qed.

(** C8 at a PDF of 209767629 bytes. *)
Lemma C8_witness :
  let huge := {| name := lit "huge.pdf"; size := 209767629;
                 getbuffer := zeros 209767629 |} in
  let e := ValueError_FileTooLarge (get_file_size_mb (size huge))
                                   MAX_FILE_SIZE_MB in
  add_file (H := ascii_names) huge fresh_session = (Err e, fresh_session)
  ∧ (has_file_with_name (file_manager fresh_session) (name huge) = false →
     handle_file_upload (H := ascii_names) [huge] fresh_session
     = (Ok tt, show (FailedToUpload (name huge) e) fresh_session)).
Proof.
  intros huge.
  apply (C8_too_large_is_rejected (H := ascii_names) huge fresh_session).
  - lazy. reflexivity.
  - lazy. discriminate.
Defined.

(** C9 at [notes.PDF]: its extension is [PDF], lower-cased before it is
    looked up, and [notes.pdf] fares the same. *)
Lemma C9_witness :
  passes_type_check (H := ascii_names) notes_PDF fresh_session
  = bool_decide (lowered (lit "PDF") ∈ SUPPORTED_EXTS)
  ∧ passes_type_check (H := ascii_names) notes_pdf session_with_notes
    = passes_type_check (H := ascii_names) notes_PDF fresh_session.
Proof.
  destruct (C9_extension_check_ignores_case (H := ascii_names)
              notes_PDF fresh_session) as (_ & Hext & Hcase & _).
  split.
  - apply (Hext (lit "notes") (lit "PDF")); try done.
    all: intros Hin; pose proof (bool_decide_pack _ Hin) as Hb;
         vm_compute in Hb; exact Hb.
  - apply Hcase; vm_compute; reflexivity.
Defined.

(** C4 at a session in partial drift. *)
Lemma C4_witness :
  needs_vector_store_update (file_manager drifted_session)
  = needs_resync_as_specified (file_manager drifted_session)
  ∧ (partial_drift drifted_session = true →
     has_files (file_manager drifted_session) = true →
     needs_vector_store_update (file_manager drifted_session) = false).
Proof. apply C4_needs_resync. Defined.

Lemma partial_drift_is_reachable :
  partial_drift drifted_session = true
  ∧ has_files (file_manager drifted_session) = true
  ∧ needs_vector_store_update (file_manager drifted_session) = false.
Proof. split_and!; vm_compute; reflexivity. Qed.

Lemma remove_file_from_openai_keeps_registry (filename : str) (s : Session) :
  ∃ b s', remove_file_from_openai filename s = (Ok b, s')
          ∧ file_manager s' = file_manager s.
Proof.
  unfold remove_file_from_openai, openai_client.remove_file_from_vector_store,
    openai_client.delete_file, remote_request, block.
  run_monad.
  repeat (case_match; simplify_eq/=); eauto.
Qed.

Lemma cleanup_temp_file_keeps_registry (path : str) (s : Session) :
  ∃ s', cleanup_temp_file path s = (Ok tt, s')
        ∧ file_manager s' = file_manager s.
Proof.
  unfold cleanup_temp_file, os_path_exists, os_remove, set_disk.
  run_monad.
  repeat (case_match; simplify_eq/=); eauto.
Qed.

Lemma remove_file_loop_flag (filename : str) (files : list UploadedFile) :
  ∀ i s, ∃ s',
    remove_file_loop files i filename s
    = (Ok (existsb (λ file, str_eqb (original_name file) filename) files), s').
Proof.
  induction files as [|file files IH]; intros i s; simpl.
  - by eexists.
  - destruct (str_eqb (original_name file) filename); simpl; [|apply IH].
    destruct (cleanup_temp_file_keeps_registry (temp_path file) s)
      as (s' & E & _).
    unfold on_file_manager. run_monad. rewrite E. by eexists.
Qed.

(** The flag [remove_file_completely] returns says whether the document was
    tracked, and nothing else: what the remote calls did does not enter
    it. *)
Lemma remove_file_completely_flag (filename : str) (s : Session) :
  (remove_file_completely filename s).1
  = Ok (has_file_with_name (file_manager s) filename).
Proof.
  unfold remove_file_completely, remove_file, has_file_with_name.
  run_monad.
  destruct (openai_client s); simpl.
  - destruct (remove_file_from_openai_keeps_registry filename s)
      as (b & s' & E & Hfm).
    rewrite E. simpl. rewrite Hfm.
    destruct (remove_file_loop_flag filename (uploaded_files (file_manager s))
                                    0 s') as [s'' E'].
    by rewrite E'.
  - destruct (remove_file_loop_flag filename (uploaded_files (file_manager s))
                                    0 s) as [s'' E'].
    by rewrite E'.
Qed.


(** C2 at the failing input.  With [notes.pdf] uploaded and indexed and the
    platform then failing every call, removing it returns [True], the
    same flag as when the cleanup succeeds; the file and its attachment
    stay on the platform, and the sidebar reads "removed successfully". *)
Theorem C2_failed_cleanup_reported_as_full_success :
  let file_name := lit "notes.pdf" in
  let failed := remove_clicked file_name session_then_outage in
  let cleaned := remove_clicked file_name session_with_notes in
  (remove_file_completely file_name session_then_outage).1 = Ok true
  ∧ (remove_file_completely file_name session_with_notes).1 = Ok true
  ∧ uploaded_files (file_manager failed.2) = []
  ∧ stored_files (remote failed.2) = [lit "id-0"]
  ∧ attached (remote failed.2) = [(lit "id-1", lit "id-0")]
  ∧ stored_files (remote cleaned.2) = []
  ∧ attached (remote cleaned.2) = []
  ∧ sidebar failed.2 = sidebar cleaned.2
  ∧ last (sidebar failed.2) = Some (RemovedSuccessfully file_name).
Proof. split_and!; vm_compute; reflexivity. Qed.

End registry_properties.

(* ================================================================= *)
(** ** The job poller *)

Module poller_properties.

Import openai_client spec samples.
Import registry_properties.

Lemma inject_Z_succ (k : nat) :
  (inject_Z (Z.of_nat (S k)) == inject_Z (Z.of_nat k) + 1)%Q.
Proof. rewrite Nat2Z.inj_succ. unfold Z.succ. rewrite inject_Z_plus. reflexivity. Qed.

Lemma poll_times_out (timeout : Z) (thread_id run_id : str) (start : Q)
      (n0 : nat) (fuel : nat) :
  ∀ (k : nat) (s : Session),
    (∀ n, 0 <= elapse (local s) n)%Q →
    (∀ i, i ≤ Z.to_nat timeout →
          outage (remote s) (n0 + i) = false
          ∧ run_status_at (remote s) (n0 + i) ∉ terminal_statuses) →
    length (calls (remote s)) = n0 + k →
    (start + inject_Z (Z.of_nat k) <= now (local s))%Q →
    1 ≤ fuel →
    Z.to_nat timeout + 2 ≤ k + fuel →
    ∃ s', poll fuel thread_id run_id timeout start s
          = (Err (RuntimeError_RunTimedOut timeout), s').
Proof.
  induction fuel as [|fuel IH]; intros k s Hel Hst Hcalls Hnow Hf1 Hf; [lia|].
  simpl. unfold time_time. run_monad.
  destruct (Qle_bool (now (local s) - start) (inject_Z timeout)) eqn:Hq; simpl.
  2: { eauto. }
  apply Qle_bool_iff in Hq.
  assert (Z.of_nat k ≤ timeout)%Z as Hk.
  { rewrite Zle_Qle. lra. }
  unfold runs_retrieve, remote_request, block, time_sleep, block. run_monad.
  rewrite Hcalls.
  destruct (Hst k ltac:(lia)) as [Hout Hs]. rewrite Hout. simpl.
  rewrite bool_decide_eq_false_2 by done.
  apply (IH (S k)); simpl.
  - done.
  - done.
  - rewrite length_app. simpl. lia.
  - rewrite inject_Z_succ.
    pose proof (Hel (blocking_ops (local s))).
    pose proof (Hel (S (blocking_ops (local s)))). lra.
  - lia.
  - lia.
Qed.

(** C6.  When time does not run backwards and each of the polls that can be
    made before the timeout elapses (the first [timeout + 1]) reaches the
    platform and reports a non-terminal status,
    [wait_for_run_completion] raises [RuntimeError("Run timed out ...")],
    within [timeout + 2] iterations, and returns no run. *)
Theorem C6_job_timeout (s : Session) (thread_id run_id : str) (timeout : Z)
        (fuel : nat) :
  (∀ n, 0 <= elapse (local s) n)%Q →
  (∀ i, i ≤ Z.to_nat timeout →
        outage (remote s) (length (calls (remote s)) + i) = false
        ∧ run_status_at (remote s) (length (calls (remote s)) + i)
          ∉ terminal_statuses) →
  Z.to_nat timeout + 2 ≤ fuel →
  ∃ s', wait_for_run_completion fuel thread_id run_id timeout s
        = (Err (RuntimeError_RunTimedOut timeout), s').
Proof.
  intros Hel Hst Hf. unfold wait_for_run_completion, time_time. run_monad.
  apply (poll_times_out timeout thread_id run_id (now (local s))
           (length (calls (remote s))) fuel 0 s); try done; try lia.
  change (inject_Z (Z.of_nat 0)) with 0%Q. lra.
Qed.

(** C6 at a run that stays [in_progress], with a timeout of 3 seconds. *)
Lemma C6_witness :
  ∃ s', wait_for_run_completion 5 (lit "thread_1") (lit "run_1") 3
          session_with_notes
        = (Err (RuntimeError_RunTimedOut 3), s').
Proof.
  apply C6_job_timeout.
  - intros n. simpl. lra.
  - intros i _. split; [done|].
    intros Hin. pose proof (bool_decide_pack _ Hin) as Hb.
    vm_compute in Hb. exact Hb.
  - simpl. lia.
Defined.

End poller_properties.

(* ================================================================= *)
(** ** Quiz grading *)

Module grading_properties.

Import Json main spec samples.

Section grading.
Context `{PyEquality}.

Lemma py_eq_string (selection : json) (correct : str) :
  py_eq selection (JStr correct) = same_string selection correct.
Proof. by destruct selection. Qed.

Lemma grade_loop_counts (user_answers : gmap nat json)
      (questions : list json) (corrects : list str) :
  Forall2 (λ q c, getitem q (lit "correct") = Ok (JStr c))
          questions corrects →
  ∀ (selected : list json) (idx score : nat) (results : list result_line),
    length selected = length questions →
    (∀ i a, selected !! i = Some a → user_answers !! (idx + i) = Some a) →
    ∃ results',
      grade_loop questions idx user_answers score results
      = Ok (score + length (filter (λ p, same_string p.1 p.2)
                                   (zip selected corrects)),
            results').
Proof.
  induction 1 as [|q c questions corrects Hq _ IH];
    intros selected idx score results Hlen Hsel.
  - destruct selected; [|done]. simpl. rewrite Nat.add_0_r. eauto.
  - destruct selected as [|a selected]; [done|]. simpl in *.
    rewrite Hq. specialize (Hsel 0 a eq_refl) as Ha.
    rewrite Nat.add_0_r in Ha. rewrite Ha, py_eq_string.
    assert (∀ i b, selected !! i = Some b →
                   user_answers !! (S idx + i) = Some b) as Hsel'.
    { intros i b Hi. specialize (Hsel (S i) b Hi).
      by replace (idx + S i) with (S idx + i) in Hsel by lia. }
    rewrite filter_cons. simpl.
    destruct (decide (same_string a c)) as [Hs|Hs].
    + apply Is_true_true in Hs. rewrite Hs.
      edestruct (IH selected (S idx) (score + 1)) as [r Hr]; [lia|done|].
      rewrite Hr. simpl. exists r. do 2 f_equal. lia.
    + apply Is_true_false in Hs. rewrite Hs. apply IH; [lia|done].
Qed.

(** C7.  For a quiz whose items have the strings [corrects] as their
    ["correct"] fields, and whatever the selections are, the score is the
    number of items whose selection is a string with exactly the code
    points of the correct answer, out of the number of items. *)
Theorem C7_score_counts_exact_matches (questions : list json)
        (corrects : list str) (selected : list json)
        (user_answers : gmap nat json) :
  Forall2 (λ q c, getitem q (lit "correct") = Ok (JStr c))
          questions corrects →
  length selected = length questions →
  (∀ i a, selected !! i = Some a → user_answers !! i = Some a) →
  ∃ g, submit_quiz (JList questions) user_answers = Ok g
       ∧ score g = length (filter (λ p, same_string p.1 p.2)
                                  (zip selected corrects))
       ∧ out_of g = length questions.
Proof.
  intros Hq Hlen Hsel. unfold submit_quiz. simpl.
  destruct (grade_loop_counts user_answers questions corrects Hq
              selected 0 0 [] Hlen Hsel) as [r Hr].
  rewrite Hr. eexists. split_and!; done.
Qed.
End grading.

(** C7 at a quiz of two items with selections right on the first and wrong
    on the second: 1 out of 2. *)
Lemma C7_witness :
  ∃ g, submit_quiz (H := strings_only) (JList two_questions)
                   (answers_of selections) = Ok g
       ∧ score g = 1 ∧ out_of g = 2.
Proof.
  destruct (C7_score_counts_exact_matches (H := strings_only) two_questions
              [lit "a"; lit "b"] selections (answers_of selections))
    as (g & Hg & Hs & Ho).
  - repeat constructor.
  - reflexivity.
  - intros [|[|i]] a; simpl; intros [= <-]; vm_compute; reflexivity.
  - exists g. split_and!; [exact Hg|exact Hs|exact Ho].
Defined.

End grading_properties.

(* ================================================================= *)
(** ** Reported sizes *)

Module size_properties.
Import config utils spec samples.

Lemma round_half_even_bounds (n d : Z) :
  (0 < d)%Z →
  (2 * n - d ≤ 2 * d * round_half_even n d ≤ 2 * n + d)%Z.
Proof.
  intros Hd. unfold round_half_even.
  pose proof (Z.div_mod n d ltac:(lia)) as Hdm.
  pose proof (Z.mod_pos_bound n d Hd) as Hr.
  set (q := (n / d)%Z) in *. set (r := (n mod d)%Z) in *.
  destruct (Z.ltb_spec (2 * r) d); [nia|].
  destruct (Z.ltb_spec d (2 * r)); [nia|].
  destruct (Z.even q); nia.
Qed.

Lemma round_half_even_mono (n m d : Z) :
  (0 < d)%Z → (n ≤ m)%Z → (round_half_even n d ≤ round_half_even m d)%Z.
Proof.
  intros Hd Hnm.
  destruct (Z.eq_dec n m) as [->|Hne]; [lia|].
  pose proof (round_half_even_bounds n d Hd).
  pose proof (round_half_even_bounds m d Hd).
  (* a tie on both sides would need 2n + d = 2m - d ... *)
  unfold round_half_even in *.
  pose proof (Z.div_mod n d ltac:(lia)) as Hdn.
  pose proof (Z.mod_pos_bound n d Hd) as Hrn.
  pose proof (Z.div_mod m d ltac:(lia)) as Hdmm.
  pose proof (Z.mod_pos_bound m d Hd) as Hrm.
  set (q := (n / d)%Z) in *. set (r := (n mod d)%Z) in *.
  set (q' := (m / d)%Z) in *. set (r' := (m mod d)%Z) in *.
  assert (q ≤ q')%Z by nia.
  destruct (Z.eq_dec q q') as [Eq|Nq].
  - rewrite <- Eq in *.
    assert (r ≤ r')%Z by nia.
    destruct (Z.ltb_spec (2 * r) d), (Z.ltb_spec (2 * r') d),
      (Z.ltb_spec d (2 * r)), (Z.ltb_spec d (2 * r')), (Z.even q); lia.
  - assert (q + 1 ≤ q')%Z by lia.
    destruct (Z.ltb_spec (2 * r) d), (Z.ltb_spec (2 * r') d),
      (Z.ltb_spec d (2 * r)), (Z.ltb_spec d (2 * r')), (Z.even q), (Z.even q'); lia.
Qed.


(** X2.  [get_file_size_mb] is monotone: a file with at least as many
    bytes is reported at least as large, so that the rounding never lets
    a larger file pass the size check that a smaller one fails. *)
Theorem size_is_monotone (a b : Z) :
  (a ≤ b)%Z → (get_file_size_mb a <= get_file_size_mb b)%Q.
Proof.
  intros Hab. unfold get_file_size_mb, Qle. simpl.
  pose proof (round_half_even_mono (a * 10) (b * 10) (1024 * 1024)
                ltac:(lia) ltac:(lia)).
  lia.
Qed.

(** [size_is_monotone] at 3 bytes and at 200 MB and one byte. *)
Lemma size_is_monotone_witness :
  (get_file_size_mb 3 <= get_file_size_mb 209715201)%Q.
Proof. apply size_is_monotone. lia. Defined.

End size_properties.

(* ================================================================= *)
(** ** File names and extensions *)

Module type_properties.
Import config utils file_manager spec samples.
Import registry_properties.

Section extension.
Context `{UnicodeData}.

(** X3.  The extension of a name [stem.ext], where [stem] is not empty
    and holds no ['/'], and [ext] is a non-empty ASCII string without
    ['.'] and ['/']: it is [ext] in lower case, whatever dots [stem]
    holds, and the name passes the type check exactly when that is in the
    allow-list. *)
Theorem extension_of_dotted_name (stem ext : str) :
  stem ≠ [] → ext ≠ [] →
  47%N ∉ stem → 47%N ∉ ext → 46%N ∉ ext →
  is_ascii ext = true →
  extension (stem ++ lit "." ++ ext) = lowered ext
  ∧ validate_file_type (stem ++ lit "." ++ ext) SUPPORTED_EXTS
    = bool_decide (lowered ext ∈ SUPPORTED_EXTS).
Proof.
  intros Hstem Hext Hs1 Hs2 Hdot Hascii.
  pose proof (dotted_name_extension stem ext Hstem Hext Hs1 Hs2 Hdot Hascii)
    as E.
  split; [done|]. unfold validate_file_type. by rewrite E.
Qed.
End extension.

(** [extension_of_dotted_name] at [Lecture 1.final.DocX]. *)
Lemma extension_of_dotted_name_witness :
  extension (H := ascii_names) (lit "Lecture 1.final" ++ lit "." ++ lit "DocX")
  = lowered (lit "DocX")
  ∧ validate_file_type (H := ascii_names)
      (lit "Lecture 1.final" ++ lit "." ++ lit "DocX") SUPPORTED_EXTS
    = bool_decide (lowered (lit "DocX") ∈ SUPPORTED_EXTS).
Proof.
  apply (extension_of_dotted_name (H := ascii_names)); try done.
  all: intros Hin; pose proof (bool_decide_pack _ Hin) as Hb;
       vm_compute in Hb; exact Hb.
Defined.

End type_properties.

(* ================================================================= *)
(** ** More on the extraction of JSON *)

Module more_extractor_properties.
Import utils Json spec samples.
Import extractor_properties registry_properties.

Lemma bracket_delimited_inv (a : str) :
  bracket_delimited a → ∃ mid, a = 91%N :: mid ++ [93%N].
Proof.
  intros [Hh Hl]. apply last_Some in Hl as [l' ->].
  destruct l' as [|c mid]; [done|]. simpl in Hh. injection Hh as ->.
  by exists mid.
Qed.

Lemma re_search_array_block_skips (pre rest : str) :
  91%N ∉ pre →
  re_search_array_block (pre ++ rest) = re_search_array_block rest.
Proof.
  induction pre as [|c pre IH]; intros Hpre; simpl; [done|].
  apply not_elem_of_cons in Hpre as [Hc Hpre].
  destruct (N.eqb_spec c 91) as [->|_]; [done|]. by apply IH.
Qed.

Lemma re_search_array_block_finds (pre a post : str) :
  bracket_delimited a → 91%N ∉ pre → 93%N ∉ post →
  re_search_array_block (pre ++ a ++ post) = Some a.
Proof.
  intros [mid ->]%bracket_delimited_inv Hpre Hpost.
  rewrite re_search_array_block_skips by done. simpl. unfold rfind.
  rewrite <- app_assoc. simpl.
  rewrite rfind_from_last by done. simpl. do 2 f_equal.
  change (mid ++ 93%N :: post) with (mid ++ [93%N] ++ post).
  rewrite app_assoc.
  replace (S (length mid)) with (length (mid ++ [93%N]))
    by (rewrite length_app; simpl; lia).
  by rewrite take_app_length.
Qed.

(** X4.  A JSON document that starts with ['['] and ends with [']'] is
    found and returned when the text around it holds no ['['] before it
    and no [']'] after it, and the text does not start with a code
    fence. *)
Theorem array_inside_prose_is_extracted (pre a post : str) (v : json) :
  bracket_delimited a → loads a = Ok v →
  91%N ∉ pre → 93%N ∉ post →
  startswith (lit "```") (strip (pre ++ a ++ post)) = false →
  extract_first_json_array (pre ++ a ++ post) = Ok v.
Proof.
  intros Ha Hv Hpre Hpost Hfence.
  unfold extract_first_json_array, strip_code_fences. rewrite Hfence.
  unfold candidates. rewrite re_search_array_block_finds by done.
  simpl. by rewrite Hv.
Qed.

(** [array_inside_prose_is_extracted] at a quiz between two sentences,
    the second with an opening bracket. *)
Lemma array_inside_prose_is_extracted_witness :
  ∃ v, extract_first_json_array
         (lit "Here is your quiz: " ++ one_item_quiz ++ lit " [end of quiz")
       = Ok v.
Proof.
  eexists.
  apply array_inside_prose_is_extracted.
  - split; vm_compute; reflexivity.
  - vm_compute. reflexivity.
  - intros Hin. pose proof (bool_decide_pack _ Hin) as Hb.
    vm_compute in Hb. exact Hb.
  - intros Hin. pose proof (bool_decide_pack _ Hin) as Hb.
    vm_compute in Hb. exact Hb.
  - vm_compute. reflexivity.
Defined.

Lemma lstrip_by_app (p : N → bool) (t s : str) :
  forallb p t = true → (∀ c, head s = Some c → p c = false) →
  lstrip_by p (t ++ s) = s.
Proof.
  intros Ht Hs. induction t as [|x t IH]; simpl.
  - by apply lstrip_by_head.
  - simpl in Ht. apply andb_true_iff in Ht as [-> Ht]. by apply IH.
Qed.

Lemma rstrip_by_app (p : N → bool) (s t : str) :
  forallb p t = true → (∀ c, last s = Some c → p c = false) →
  rstrip_by p (s ++ t) = s.
Proof.
  intros Ht Hs. unfold rstrip_by. rewrite reverse_app.
  rewrite lstrip_by_app.
  - apply reverse_involutive.
  - rewrite forallb_forall in *. intros c Hc. apply Ht.
    apply list_elem_of_In. apply list_elem_of_In in Hc.
    by apply elem_of_reverse.
  - intros c Hc. apply Hs. by rewrite <- head_reverse.
Qed.

Lemma strip_by_id (p : N → bool) (s : str) :
  (∀ c, head s = Some c → p c = false) →
  (∀ c, last s = Some c → p c = false) →
  strip_by p s = s.
Proof.
  intros Hh Hl. unfold strip_by. rewrite lstrip_by_head by done.
  rewrite <- (app_nil_r s) at 1. by apply rstrip_by_app.
Qed.

Lemma strip_by_fenced (p : N → bool) (t1 s t2 : str) :
  forallb p t1 = true → forallb p t2 = true →
  (∀ c, head s = Some c → p c = false) →
  (∀ c, last s = Some c → p c = false) →
  strip_by p (t1 ++ s ++ t2) = s.
Proof.
  intros H1 H2 Hh Hl. unfold strip_by.
  destruct s as [|c s].
  - simpl. rewrite <- (app_nil_r (t1 ++ t2)).
    rewrite lstrip_by_app; [done| |done].
    rewrite forallb_app. by rewrite H1, H2.
  - rewrite lstrip_by_app; [by apply rstrip_by_app|done|].
    intros d Hd. apply Hh. done.
Qed.

(** X5.  A document that starts with ['['] and ends with [']'], wrapped
    in a code fence with or without the tag [json], is treated as the
    document itself. *)
Theorem fenced_document_is_unwrapped (a : str) :
  bracket_delimited a →
  let tagged := lit "```json" ++ [LF] ++ a ++ [LF] ++ lit "```" in
  let plain := lit "```" ++ [LF] ++ a ++ [LF] ++ lit "```" in
  strip_code_fences tagged = a
  ∧ strip_code_fences plain = a
  ∧ extract_first_json_array tagged = extract_first_json_array a
  ∧ extract_first_json_array plain = extract_first_json_array a.
Proof.
  intros Ha tagged plain.
  destruct (bracket_delimited_inv a Ha) as [mid Ea].
  assert (∀ c, head a = Some c → c = 91%N) as Hh.
  { intros c. rewrite Ea. simpl. congruence. }
  assert (∀ c, last a = Some c → c = 93%N) as Hl.
  { intros c. destruct Ha as [_ Hl]. rewrite Hl. congruence. }
  assert (strip_code_fences a = a) as E0.
  { unfold strip_code_fences.
    assert (strip a = a) as ->.
    { apply strip_by_id; intros c Hc; [apply Hh in Hc|apply Hl in Hc];
        by subst. }
    by rewrite Ea. }
  assert (strip_chars fence_chars a = a) as Ef.
  { apply strip_by_id; intros c Hc; [apply Hh in Hc|apply Hl in Hc];
      by subst. }
  assert (strip_code_fences tagged = a) as E1.
  { unfold strip_code_fences, tagged.
    assert (∀ s : str, strip (lit "```json" ++ [LF] ++ s ++ [LF] ++ lit "```")
                       = lit "```json" ++ [LF] ++ s ++ [LF] ++ lit "```") as Es.
    { intros s. apply strip_by_id.
      - simpl. by intros c [= <-].
      - intros c. rewrite !app_assoc. rewrite last_app. simpl. by intros [= <-]. }
    rewrite Es.
    change (startswith (lit "```") (lit "```json" ++ [LF] ++ a ++ [LF] ++ lit "```"))
      with true. cbv iota.
    assert (strip_chars fence_chars
              (lit "```json" ++ [LF] ++ a ++ [LF] ++ lit "```")
            = lit "json" ++ [LF] ++ a) as ->.
    { change (lit "```json" ++ [LF] ++ a ++ [LF] ++ lit "```")
        with (lit "```" ++ (lit "json" ++ [LF] ++ a) ++ ([LF] ++ lit "```")).
      apply strip_by_fenced; [done|done| |].
      - simpl. by intros c [= <-].
      - intros c. rewrite app_assoc, last_app.
        destruct Ha as [_ ->]. by intros [= <-]. }
    change (startswith (lit "json" ++ [LF]) (lit "json" ++ [LF] ++ a)) with true.
    cbv iota. simpl. exact Ef. }
  assert (strip_code_fences plain = a) as E2.
  { unfold strip_code_fences, plain.
    assert (∀ s : str, strip (lit "```" ++ [LF] ++ s ++ [LF] ++ lit "```")
                       = lit "```" ++ [LF] ++ s ++ [LF] ++ lit "```") as Es.
    { intros s. apply strip_by_id.
      - simpl. by intros c [= <-].
      - intros c. rewrite !app_assoc. rewrite last_app. simpl. by intros [= <-]. }
    rewrite Es.
    change (startswith (lit "```") (lit "```" ++ [LF] ++ a ++ [LF] ++ lit "```"))
      with true. cbv iota.
    assert (strip_chars fence_chars
              (lit "```" ++ [LF] ++ a ++ [LF] ++ lit "```") = a) as ->.
    { change (lit "```" ++ [LF] ++ a ++ [LF] ++ lit "```")
        with ((lit "```" ++ [LF]) ++ a ++ ([LF] ++ lit "```")).
      apply strip_by_fenced; [done|done| |];
        intros c Hc; [apply Hh in Hc|apply Hl in Hc]; by subst. }
    assert (startswith (lit "json" ++ [LF]) a = false) as ->
      by (by rewrite Ea).
    exact Ef. }
  split_and!; [done|done| |].
  - unfold extract_first_json_array. by rewrite E1, E0.
  - unfold extract_first_json_array. by rewrite E2, E0.
Qed.

(** [fenced_document_is_unwrapped] at the quiz of one item. *)
Lemma fenced_document_is_unwrapped_witness :
  let tagged := lit "```json" ++ [LF] ++ one_item_quiz ++ [LF] ++ lit "```" in
  let plain := lit "```" ++ [LF] ++ one_item_quiz ++ [LF] ++ lit "```" in
  strip_code_fences tagged = one_item_quiz
  ∧ strip_code_fences plain = one_item_quiz
  ∧ extract_first_json_array tagged = extract_first_json_array one_item_quiz
  ∧ extract_first_json_array plain = extract_first_json_array one_item_quiz.
Proof.
  apply fenced_document_is_unwrapped.
  split; vm_compute; reflexivity.
Defined.



End more_extractor_properties.

(* ================================================================= *)
(** ** Uploads *)

Module upload_properties.
Import config utils file_manager main spec samples.
Import registry_properties.

#[local] Arguments lit : simpl never.

Lemma bind_ok {A B} (m : M A) (f : A → M B) (s s' : Session) (a : A) :
  m s = (Ok a, s') → (m ≫= f) s = f a s'.
Proof. intros E. unfold mbind, M_bind. by rewrite E. Qed.

Lemma bind_err {A B} (m : M A) (f : A → M B) (s s' : Session) (e : exn) :
  m s = (Err e, s') → (m ≫= f) s = (Err e, s').
Proof. intros E. unfold mbind, M_bind. by rewrite E. Qed.

Lemma try_ok {A} (m : M A) (h : exn → M A) (s s' : Session) (a : A) :
  m s = (Ok a, s') → try_except m h s = (Ok a, s').
Proof. intros E. unfold try_except. by rewrite E. Qed.

Lemma try_err {A} (m : M A) (h : exn → M A) (s s' : Session) (e : exn) :
  m s = (Err e, s') → try_except m h s = h e s'.
Proof. intros E. unfold try_except. by rewrite E. Qed.

Lemma update_first_new (filename fid : str) (files : list UploadedFile)
      (info : UploadedFile) :
  existsb (λ file, str_eqb (original_name file) filename) files = false →
  original_name info = filename →
  update_first filename fid (files ++ [info])
  = Some (files ++ [set_file_id fid info]).
Proof.
  intros Hn Hi. induction files as [|file files IH]; simpl in *.
  - rewrite Hi. unfold str_eqb. by rewrite bool_decide_eq_true_2.
  - apply orb_false_iff in Hn as [-> Hn]. by rewrite IH.
Qed.

Lemma update_first_names (filename fid : str) (files files' : list UploadedFile) :
  update_first filename fid files = Some files' →
  original_name <$> files' = original_name <$> files.
Proof.
  revert files'. induction files as [|file files IH]; intros files'; simpl; [done|].
  destruct (str_eqb _ _); [by intros [= <-]|].
  destruct (update_first _ _ files) as [l|]; [|done]. simpl.
  intros [= <-]. simpl. f_equal. by apply IH.
Qed.

Lemma size_accepted (z : Z) :
  (z < 209767629)%Z →
  Qle_bool (get_file_size_mb z) (inject_Z MAX_FILE_SIZE_MB) = true.
Proof.
  intros Hz. destruct (Qle_bool _ _) eqn:E; [done|].
  apply too_large_threshold in E. lia.
Qed.

(** A remote call leaves the session's own state alone. *)
Lemma remote_request_frame {A} (call : remote_call) (effect : Remote → Remote)
      (answer : Remote → nat → A) (s : Session) :
  ∃ r s', remote_request call effect answer s = (r, s')
          ∧ file_manager s' = file_manager s
          ∧ openai_client s' = openai_client s
          ∧ sidebar s' = sidebar s
          ∧ disk (local s') = disk (local s)
          ∧ io_fails (local s') = io_fails (local s).
Proof.
  unfold remote_request, block. run_monad.
  destruct (outage _ _); simpl; eauto 10.
Qed.

Lemma upload_file_frame (path : str) (s : Session) :
  ∃ r s', openai_client.upload_file path s = (r, s')
          ∧ file_manager s' = file_manager s
          ∧ openai_client s' = openai_client s
          ∧ sidebar s' = sidebar s
          ∧ disk (local s') = disk (local s)
          ∧ io_fails (local s') = io_fails (local s).
Proof.
  unfold openai_client.upload_file. run_monad.
  destruct (_ || _); simpl; [eauto 10|].
  apply remote_request_frame.
Qed.

Lemma update_file_id_frame (filename fid : str) (s : Session) :
  ∃ b s', update_file_id filename fid s = (Ok b, s')
          ∧ original_name <$> uploaded_files (file_manager s')
            = original_name <$> uploaded_files (file_manager s)
          ∧ vector_store_id (file_manager s') = vector_store_id (file_manager s)
          ∧ assistant_id (file_manager s') = assistant_id (file_manager s)
          ∧ openai_client s' = openai_client s
          ∧ sidebar s' = sidebar s
          ∧ local s' = local s
          ∧ remote s' = remote s.
Proof.
  unfold update_file_id, on_file_manager. run_monad.
  destruct (update_first _ _ _) as [files|] eqn:E; simpl.
  - eexists _, _. split; [done|]. simpl. split_and!; try done.
    by apply update_first_names in E.
  - eauto 10.
Qed.

Section upload.
Context `{UnicodeData}.

(** What [add_file] does with a file that passes both checks: it writes
    the buffer under a temporary name and tracks the file, without a
    remote id. *)
Lemma add_file_run (f : FileData) (s : Session) :
  validate_file_type (name f) SUPPORTED_EXTS = true →
  (size f < 209767629)%Z →
  ∃ tp,
    create_temp_filename (name f) s = (Ok tp, s)
    ∧ (io_fails (local s) tp = true →
       add_file f s = (Err (OSError tp), s))
    ∧ (io_fails (local s) tp = false →
       let info :=
         {| original_name := name f; temp_path := tp; file_id := [];
            file_size_mb := get_file_size_mb (size f);
            file_type := extension (name f);
            upload_time := now (local s) |} in
       add_file f s
       = (Ok info,
          set_file_manager
            (set_uploaded_files (uploaded_files (file_manager s) ++ [info])
                                (file_manager s))
            (set_local
               {| now := now (local s);
                  blocking_ops := blocking_ops (local s);
                  elapse := elapse (local s);
                  disk := (tp, getbuffer f) :: without tp (disk (local s));
                  io_fails := io_fails (local s) |} s))).
Proof.
  intros Hv Hsz. apply size_accepted in Hsz.
  eexists. split; [reflexivity|].
  split; intros Hio; unfold add_file; rewrite Hv, Hsz;
    unfold create_temp_filename, write_file, time_time, set_disk,
      on_file_manager; run_monad; simpl in Hio; rewrite Hio; reflexivity.
Qed.

(** [add_file] either raises and leaves the session as it was, or tracks
    one more document, under the name of the file and without a remote
    id. *)
Lemma add_file_outcome (f : FileData) (s : Session) :
  (∃ e, add_file f s = (Err e, s))
  ∨ (∃ info s1,
       add_file f s = (Ok info, s1)
       ∧ original_name info = name f
       ∧ file_id info = []
       ∧ uploaded_files (file_manager s1)
         = uploaded_files (file_manager s) ++ [info]
       ∧ vector_store_id (file_manager s1) = vector_store_id (file_manager s)
       ∧ assistant_id (file_manager s1) = assistant_id (file_manager s)
       ∧ openai_client s1 = openai_client s
       ∧ sidebar s1 = sidebar s
       ∧ remote s1 = remote s
       ∧ (temp_path info, getbuffer f) ∈ disk (local s1)).
Proof.
  destruct (validate_file_type (name f) SUPPORTED_EXTS) eqn:Hv.
  2: { left. eexists. by apply add_file_unsupported. }
  destruct (Qle_bool (get_file_size_mb (size f)) (inject_Z MAX_FILE_SIZE_MB))
    eqn:Hq.
  2: { left. eexists. by apply add_file_too_large. }
  assert (size f < 209767629)%Z as Hsz.
  { destruct (Z.lt_ge_cases (size f) 209767629) as [|Hge]; [done|].
    apply too_large_threshold in Hge. congruence. }
  destruct (add_file_run f s Hv Hsz) as (tp & _ & Hfail & Hok).
  destruct (io_fails (local s) tp) eqn:Hio.
  - left. eexists. by apply Hfail.
  - right. eexists _, _. split; [by apply Hok|]. simpl.
    split_and!; try done. apply list_elem_of_here.
Qed.

Lemma attach_file_frame (vs fid : str) (s : Session) :
  ∃ r s', openai_client.attach_file_to_vector_store vs fid s = (r, s')
          ∧ file_manager s' = file_manager s
          ∧ openai_client s' = openai_client s
          ∧ sidebar s' = sidebar s
          ∧ disk (local s') = disk (local s)
          ∧ io_fails (local s') = io_fails (local s).
Proof. apply remote_request_frame. Qed.

(** What one turn of the loop of [handle_file_upload] can do to the
    registry, before its [except] clause: nothing, or track the name of
    the file, which then was not tracked. *)
Lemma upload_body_registry (f : FileData) (body : M unit) (s s' : Session)
      (r : result unit) :
  body
  = (file_info ← add_file f;
     client ← gets openai_client;
     match client : option StudyBuddyClient with
     | None => raise AttributeError
     | Some _ =>
         fid ← openai_client.upload_file (temp_path file_info);
         update_file_id (original_name file_info) fid ;;
         fm ← gets file_manager;
         (match vector_store_id fm with
          | Some (c :: vs) =>
              openai_client.attach_file_to_vector_store (c :: vs) fid
          | _ => mret tt
          end) ;;
         modify (show (UploadedSuccessfully (name f)))
     end) →
  body s = (r, s') →
  vector_store_id (file_manager s') = vector_store_id (file_manager s)
  ∧ assistant_id (file_manager s') = assistant_id (file_manager s)
  ∧ openai_client s' = openai_client s
  ∧ (original_name <$> uploaded_files (file_manager s')
     = original_name <$> uploaded_files (file_manager s)
     ∨ original_name <$> uploaded_files (file_manager s')
       = (original_name <$> uploaded_files (file_manager s)) ++ [name f]).
Proof.
  intros -> Eb.
  destruct (add_file_outcome f s)
    as [[e Ea]|(info & s1 & Ea & Hname & _ & Hfiles & Hvs & Has & Hcl & _)].
  { erewrite bind_err in Eb by exact Ea. injection Eb as <- <-. eauto. }
  erewrite bind_ok in Eb by exact Ea.
  assert (original_name <$> uploaded_files (file_manager s1)
          = (original_name <$> uploaded_files (file_manager s)) ++ [name f])
    as Hnames.
  { by rewrite Hfiles, fmap_app, <- Hname. }
  clear Hfiles Ea.
  erewrite bind_ok in Eb by reflexivity.
  destruct (openai_client s1) as [c|] eqn:Ec.
  2: { injection Eb as <- <-. rewrite Ec. eauto 10. }
  destruct (upload_file_frame (temp_path info) s1)
    as ([fid|e] & s2 & Eu & Hfm2 & Hcl2 & _).
  2: { erewrite bind_err in Eb by exact Eu. injection Eb as <- <-.
       rewrite Hfm2, Hcl2, Ec. eauto 10. }
  erewrite bind_ok in Eb by exact Eu.
  destruct (update_file_id_frame (original_name info) fid s2)
    as (b & s3 & Ei & Hn3 & Hvs3 & Has3 & Hcl3 & _ & _ & _).
  erewrite bind_ok in Eb by exact Ei.
  erewrite bind_ok in Eb by reflexivity.
  assert (∀ s4 r4, (modify (show (UploadedSuccessfully (name f))) s4 = (r4, s')
                    ∨ (r4, s4) = (r, s')) →
                   file_manager s4 = file_manager s3 →
                   openai_client s4 = openai_client s3 →
                   vector_store_id (file_manager s') = vector_store_id (file_manager s)
                   ∧ assistant_id (file_manager s') = assistant_id (file_manager s)
                   ∧ openai_client s' = openai_client s
                   ∧ (original_name <$> uploaded_files (file_manager s')
                      = original_name <$> uploaded_files (file_manager s)
                      ∨ original_name <$> uploaded_files (file_manager s')
                        = (original_name <$> uploaded_files (file_manager s))
                          ++ [name f])) as Hend.
  { intros s4 r4 Hs4 Hfm4 Hcl4.
    assert (file_manager s' = file_manager s4 ∧ openai_client s' = openai_client s4)
      as [-> ->].
    { destruct Hs4 as [[= _ <-]|[= _ <-]]; done. }
    rewrite Hfm4, Hcl4, Hvs3, Has3, Hcl3, Hn3, Hcl2, Hfm2, Hnames. rewrite Ec.
    rewrite <- Hcl, Ec in *. eauto 10. }
  destruct (vector_store_id (file_manager s3)) as [[|c0 vs]|].
  - erewrite bind_ok in Eb by reflexivity. eapply Hend; eauto.
  - destruct (attach_file_frame (c0 :: vs) fid s3)
      as ([[]|e] & s4 & Et & Hfm4 & Hcl4 & _).
    + erewrite bind_ok in Eb by exact Et. eapply Hend; eauto.
    + erewrite bind_err in Eb by exact Et. eapply Hend; eauto.
  - erewrite bind_ok in Eb by reflexivity. eapply Hend; eauto.
Qed.

Lemma upload_one_registry (f : FileData) (s : Session) :
  ∃ s', upload_one f s = (Ok tt, s')
        ∧ vector_store_id (file_manager s') = vector_store_id (file_manager s)
        ∧ assistant_id (file_manager s') = assistant_id (file_manager s)
        ∧ openai_client s' = openai_client s
        ∧ (original_name <$> uploaded_files (file_manager s')
           = original_name <$> uploaded_files (file_manager s)
           ∨ (has_file_with_name (file_manager s) (name f) = false
              ∧ original_name <$> uploaded_files (file_manager s')
                = (original_name <$> uploaded_files (file_manager s))
                  ++ [name f])).
Proof.
  destruct (has_file_with_name (file_manager s) (name f)) eqn:Hn.
  { exists s. rewrite upload_one_skips by done. eauto 10. }
  unfold upload_one, try_except.
  erewrite bind_ok by reflexivity. rewrite Hn.
  match goal with
  | |- context [match ?b s with _ => _ end] =>
      destruct (b s) as [r s1] eqn:Eb;
      pose proof (upload_body_registry f b s s1 r eq_refl Eb)
        as (Hvs & Has & Hcl & Hnames)
  end.
  destruct r as [[]|e].
  - exists s1. split_and!; try done. destruct Hnames; eauto.
  - eexists. split; [reflexivity|]. simpl.
    split_and!; try done. destruct Hnames; eauto.
Qed.

(** X7.  [handle_file_upload] never raises, whatever the files and the
    session: every failure ends in the sidebar.  It never drops or
    reorders a tracked document, and it never changes the recorded vector
    store and assistant. *)
Theorem handle_file_upload_never_raises (files : list FileData) (s : Session) :
  ∃ s', handle_file_upload files s = (Ok tt, s')
        ∧ (original_name <$> uploaded_files (file_manager s))
            `prefix_of` (original_name <$> uploaded_files (file_manager s'))
        ∧ vector_store_id (file_manager s') = vector_store_id (file_manager s)
        ∧ assistant_id (file_manager s') = assistant_id (file_manager s).
Proof.
  revert s. induction files as [|f files IH]; intros s; simpl.
  - exists s. done.
  - destruct (upload_one_registry f s) as (s1 & E1 & Hvs & Has & _ & Hn).
    destruct (IH s1) as (s2 & E2 & Hp & Hvs2 & Has2).
    exists s2. erewrite bind_ok by exact E1.
    split_and!; [done| |congruence|congruence].
    etrans; [|exact Hp].
    destruct Hn as [->|[_ ->]]; [done|]. by apply prefix_app_r.
Qed.

Lemma has_file_with_name_elem (fm : FileManager) (filename : str) :
  has_file_with_name fm filename = true
  ↔ filename ∈ original_name <$> uploaded_files fm.
Proof.
  unfold has_file_with_name. rewrite existsb_exists, list_elem_of_fmap.
  split.
  - intros (file & Hin & E). exists file. apply list_elem_of_In in Hin.
    unfold str_eqb in E. by apply bool_decide_eq_true in E.
  - intros (file & -> & Hin). exists file. split; [by apply list_elem_of_In|].
    unfold str_eqb. by apply bool_decide_eq_true.
Qed.

(** X8.  [handle_file_upload] keeps the names of the tracked documents
    pairwise different, and every name it adds is the name of one of the
    files it was given. *)
Theorem handle_file_upload_keeps_names_distinct (files : list FileData)
        (s : Session) :
  NoDup (original_name <$> uploaded_files (file_manager s)) →
  ∃ s', handle_file_upload files s = (Ok tt, s')
        ∧ NoDup (original_name <$> uploaded_files (file_manager s'))
        ∧ ∀ n, n ∈ original_name <$> uploaded_files (file_manager s') →
               n ∈ original_name <$> uploaded_files (file_manager s)
               ∨ n ∈ name <$> files.
Proof.
  revert s. induction files as [|f files IH]; intros s Hnd; simpl.
  - exists s. eauto.
  - destruct (upload_one_registry f s) as (s1 & E1 & _ & _ & _ & Hn).
    assert (NoDup (original_name <$> uploaded_files (file_manager s1))
            ∧ ∀ n, n ∈ original_name <$> uploaded_files (file_manager s1) →
                   n ∈ original_name <$> uploaded_files (file_manager s)
                   ∨ n = name f) as [Hnd1 Hsub1].
    { destruct Hn as [->|[Hnew ->]]; [eauto|]. split.
      - apply NoDup_app. split_and!; [done| |apply NoDup_singleton].
        intros n Hin ->%list_elem_of_singleton.
        apply has_file_with_name_elem in Hin. congruence.
      - intros n [?|?%list_elem_of_singleton]%elem_of_app; eauto. }
    destruct (IH s1 Hnd1) as (s2 & E2 & Hnd2 & Hsub2).
    exists s2. erewrite bind_ok by exact E1. split_and!; [done|done|].
    intros n Hin. destruct (Hsub2 n Hin) as [Hin1|Hin1].
    + destruct (Hsub1 n Hin1) as [?| ->]; [by left|].
      right. apply list_elem_of_here.
    + right. by apply list_elem_of_further.
Qed.

(** X9.  The filter of the script before [handle_file_upload] changes
    nothing: handing it only the files whose names are not yet tracked is
    the same as handing it all of them. *)
Theorem uploads_block_is_handle_file_upload (files : list FileData)
        (s : Session) :
  uploads_block files s = handle_file_upload files s.
Proof.
  unfold uploads_block.
  assert (∀ (P : list str) s1,
            (∀ n, n ∈ P → n ∈ original_name <$> uploaded_files (file_manager s1)) →
            handle_file_upload (filter (λ f, name f ∉ P) files) s1
            = handle_file_upload files s1) as Hgen.
  { intros P. induction files as [|f files IH]; intros s1 HP; [done|].
    rewrite filter_cons. destruct (decide (name f ∉ P)) as [Hf|Hf].
    - simpl. destruct (upload_one_registry f s1) as (s2 & E1 & _ & _ & _ & Hn).
      rewrite !(bind_ok _ _ _ _ _ E1). apply IH.
      intros n Hin. specialize (HP n Hin).
      destruct Hn as [->|[_ ->]]; [done|]. apply elem_of_app. by left.
    - apply dec_stable in Hf. simpl.
      rewrite (bind_ok _ _ s1 s1 tt).
      + by apply IH.
      + apply upload_one_skips. apply has_file_with_name_elem. by apply HP. }
  destruct files as [|f files]; [done|].
  erewrite bind_ok by reflexivity.
  rewrite <- (Hgen (original_name <$> uploaded_files (file_manager s)) s)
    by done.
  by destruct (filter _ _).
Qed.

(** What one turn of the loop of [handle_file_upload] does with a new
    file that passes the checks, when the file operations succeed and the
    platform answers. *)
Lemma upload_one_run (f : FileData) (s : Session) :
  let n := length (calls (remote s)) in
  let indexed := truthy (vector_store_id (file_manager s)) in
  let vs := default [] (vector_store_id (file_manager s)) in
  has_file_with_name (file_manager s) (name f) = false →
  validate_file_type (name f) SUPPORTED_EXTS = true →
  (size f < 209767629)%Z →
  openai_client s ≠ None →
  (∀ path, io_fails (local s) path = false) →
  outage (remote s) n = false →
  (indexed = true → outage (remote s) (S n) = false) →
  ∃ info s',
    upload_one f s = (Ok tt, s')
    ∧ uploaded_files (file_manager s')
      = uploaded_files (file_manager s) ++ [info]
    ∧ original_name info = name f
    ∧ file_id info = fresh_id (remote s) n
    ∧ vector_store_id (file_manager s') = vector_store_id (file_manager s)
    ∧ assistant_id (file_manager s') = assistant_id (file_manager s)
    ∧ openai_client s' = openai_client s
    ∧ sidebar s' = sidebar s ++ [UploadedSuccessfully (name f)]
    ∧ io_fails (local s') = io_fails (local s)
    ∧ disk (local s')
      = (temp_path info, getbuffer f)
        :: without (temp_path info) (disk (local s))
    ∧ stored_files (remote s') = stored_files (remote s) ++ [file_id info]
    ∧ attached (remote s')
      = attached (remote s)
        ++ (if indexed then [(vs, file_id info)] else [])
    ∧ calls (remote s')
      = calls (remote s)
        ++ FilesCreate (temp_path info)
           :: (if indexed then [VectorStoreFilesCreate vs (file_id info)]
               else [])
    ∧ outage (remote s') = outage (remote s).
Proof.
  intros n indexed vs Hnew Hv Hsz Hc Hio Ho1 Ho2. subst indexed vs.
  destruct (add_file_run f s Hv Hsz) as (tp & _ & _ & Ha).
  specialize (Ha (Hio tp)). cbv zeta in Ha.
  unfold upload_one. unfold try_except.
  erewrite bind_ok by reflexivity. rewrite Hnew.
  erewrite bind_ok by exact Ha. erewrite bind_ok by reflexivity.
  simpl. destruct (openai_client s) as [c|] eqn:Ec; [|done].
  unfold openai_client.upload_file, update_file_id,
    openai_client.attach_file_to_vector_store, remote_request, block,
    on_file_manager.
  run_monad. rewrite Hio. simpl.
  unfold on_disk. simpl.
  unfold str_eqb at 1. rewrite bool_decide_eq_true_2 by done. simpl.
  fold n. rewrite Ho1. simpl.
  rewrite update_first_new by done. simpl.
  destruct (vector_store_id (file_manager s)) as [[|c0 vs]|] eqn:Evs; simpl.
  2: rewrite length_app; simpl; rewrite Nat.add_1_r; fold n;
     rewrite Ho2 by done; simpl.
  all: eexists _, _; (split; [reflexivity|]); simpl.
  all: rewrite ?app_nil_r, <- ?app_assoc.
  all: split_and!; done.
Qed.

(** X10.  A new file that passes the checks, on a machine whose file
    operations succeed and a platform that answers: the file is tracked
    with the id the platform gave it, its copy is on disk, the platform
    stores it and, when a vector store is recorded, has it attached to that
    store; the sidebar reports the upload. *)
Theorem upload_success (f : FileData) (s : Session) :
  let n := length (calls (remote s)) in
  has_file_with_name (file_manager s) (name f) = false →
  validate_file_type (name f) SUPPORTED_EXTS = true →
  (size f < 209767629)%Z →
  openai_client s ≠ None →
  (∀ path, io_fails (local s) path = false) →
  outage (remote s) n = false →
  (truthy (vector_store_id (file_manager s)) = true →
   outage (remote s) (S n) = false) →
  ∃ info s',
    upload_one f s = (Ok tt, s')
    ∧ uploaded_files (file_manager s')
      = uploaded_files (file_manager s) ++ [info]
    ∧ original_name info = name f
    ∧ file_id info = fresh_id (remote s) n
    ∧ stored_files (remote s') = stored_files (remote s) ++ [file_id info]
    ∧ (temp_path info, getbuffer f) ∈ disk (local s')
    ∧ attached (remote s')
      = attached (remote s)
        ++ (if truthy (vector_store_id (file_manager s))
            then [(default [] (vector_store_id (file_manager s)),
                   file_id info)]
            else [])
    ∧ sidebar s' = sidebar s ++ [UploadedSuccessfully (name f)].
Proof.
  intros n Hnew Hv Hsz Hc Hio Ho1 Ho2.
  destruct (upload_one_run f s Hnew Hv Hsz Hc Hio Ho1 Ho2)
    as (info & s' & E & Hfiles & Hname & Hid & _ & _ & _ & Hsb & _ & Hd
        & Hst & Hat & _).
  exists info, s'. split_and!; try done.
  rewrite Hd. apply list_elem_of_here.
Qed.

(** X11.  A file that passes the checks of [add_file] but whose upload to
    the platform fails (no client, or the call fails) stays tracked,
    without a remote id and with its temporary copy on disk; the failure is
    shown in the sidebar.  Uploading it again is then skipped as a
    duplicate, so that it never gets a remote id. *)
Theorem failed_upload_stays_tracked (f : FileData) (s : Session) :
  has_file_with_name (file_manager s) (name f) = false →
  validate_file_type (name f) SUPPORTED_EXTS = true →
  (size f < 209767629)%Z →
  (∀ path, io_fails (local s) path = false) →
  openai_client s = None
  ∨ outage (remote s) (length (calls (remote s))) = true →
  ∃ info e s',
    upload_one f s = (Ok tt, s')
    ∧ uploaded_files (file_manager s')
      = uploaded_files (file_manager s) ++ [info]
    ∧ original_name info = name f
    ∧ file_id info = []
    ∧ get_all_file_ids (file_manager s') = get_all_file_ids (file_manager s)
    ∧ (temp_path info, getbuffer f) ∈ disk (local s')
    ∧ stored_files (remote s') = stored_files (remote s)
    ∧ sidebar s' = sidebar s ++ [FailedToUpload (name f) e]
    ∧ handle_file_upload [f] s' = (Ok tt, s').
Proof.
  intros Hnew Hv Hsz Hio Hfail.
  destruct (add_file_run f s Hv Hsz) as (tp & _ & _ & Ha).
  specialize (Ha (Hio tp)). cbv zeta in Ha.
  set (info := {| original_name := name f; temp_path := tp |}) in *.
  assert (∀ s', uploaded_files (file_manager s')
                = uploaded_files (file_manager s) ++ [info] →
                get_all_file_ids (file_manager s')
                = get_all_file_ids (file_manager s)
                ∧ handle_file_upload [f] s' = (Ok tt, s')) as Hafter.
  { intros s' E. split.
    - unfold get_all_file_ids. rewrite E, fmap_app, filter_app. simpl.
      rewrite filter_cons, decide_False by (by intros ?).
      by rewrite filter_nil, app_nil_r.
    - simpl. erewrite bind_ok; [done|]. apply upload_one_skips.
      apply has_file_with_name_elem. rewrite E, fmap_app.
      apply elem_of_app. right. apply list_elem_of_here. }
  unfold upload_one.
  destruct Hfail as [Hc|Ho].
  - erewrite try_err.
    2: { erewrite bind_ok by reflexivity. rewrite Hnew.
         erewrite bind_ok by exact Ha. erewrite bind_ok by reflexivity.
         simpl. rewrite Hc. reflexivity. }
    eexists info, _, _. split; [reflexivity|].
    match goal with
    | |- _ ∧ _ ∧ _ ∧ get_all_file_ids (file_manager ?s') = _ ∧ _ =>
        destruct (Hafter s' eq_refl) as [H1 H2]
    end.
    split_and!; try done. apply list_elem_of_here.
  - destruct (openai_client s) as [c|] eqn:Ec.
    + erewrite try_err.
      2: { erewrite bind_ok by reflexivity. rewrite Hnew.
           erewrite bind_ok by exact Ha. erewrite bind_ok by reflexivity.
           simpl. rewrite Ec. erewrite bind_err; [reflexivity|].
           unfold openai_client.upload_file, remote_request, block.
           run_monad. rewrite Hio. unfold on_disk. simpl.
           unfold str_eqb at 1. rewrite bool_decide_eq_true_2 by done. simpl.
           rewrite Ho. reflexivity. }
      eexists info, _, _. split; [reflexivity|].
      match goal with
      | |- _ ∧ _ ∧ _ ∧ get_all_file_ids (file_manager ?s') = _ ∧ _ =>
          destruct (Hafter s' eq_refl) as [H1 H2]
      end.
      split_and!; try done. apply list_elem_of_here.
    + erewrite try_err.
      2: { erewrite bind_ok by reflexivity. rewrite Hnew.
           erewrite bind_ok by exact Ha. erewrite bind_ok by reflexivity.
           simpl. rewrite Ec. reflexivity. }
      eexists info, _, _. split; [reflexivity|].
      match goal with
      | |- _ ∧ _ ∧ _ ∧ get_all_file_ids (file_manager ?s') = _ ∧ _ =>
          destruct (Hafter s' eq_refl) as [H1 H2]
      end.
      split_and!; try done. apply list_elem_of_here.
Qed.

End upload.
(** [upload_success] at [slides.txt], in the session that tracks
    [notes.pdf] and has a vector store. *)
Lemma upload_success_witness :
  ∃ info s',
    upload_one (H := ascii_names) slides_txt session_with_notes = (Ok tt, s')
    ∧ uploaded_files (file_manager s')
      = uploaded_files (file_manager session_with_notes) ++ [info]
    ∧ original_name info = name slides_txt
    ∧ file_id info
      = fresh_id (remote session_with_notes)
                 (length (calls (remote session_with_notes)))
    ∧ stored_files (remote s')
      = stored_files (remote session_with_notes) ++ [file_id info]
    ∧ (temp_path info, getbuffer slides_txt) ∈ disk (local s')
    ∧ attached (remote s')
      = attached (remote session_with_notes)
        ++ (if truthy (vector_store_id (file_manager session_with_notes))
            then [(default [] (vector_store_id
                                 (file_manager session_with_notes)),
                   file_id info)]
            else [])
    ∧ sidebar s'
      = sidebar session_with_notes ++ [UploadedSuccessfully (name slides_txt)].
Proof.
  apply (upload_success (H := ascii_names) slides_txt session_with_notes).
  - vm_compute. reflexivity.
  - vm_compute. reflexivity.
  - vm_compute. reflexivity.
  - vm_compute. discriminate.
  - intros path. vm_compute. reflexivity.
  - vm_compute. reflexivity.
  - intros _. vm_compute. reflexivity.
Defined.

(** [handle_file_upload_keeps_names_distinct] at three files, two of them
    with the same name, in the session that tracks [notes.pdf]. *)
Lemma handle_file_upload_keeps_names_distinct_witness :
  ∃ s', handle_file_upload (H := ascii_names)
          [slides_txt; notes_pdf; slides_txt] session_with_notes
        = (Ok tt, s')
        ∧ NoDup (original_name <$> uploaded_files (file_manager s'))
        ∧ ∀ n, n ∈ original_name <$> uploaded_files (file_manager s') →
               n ∈ original_name
                     <$> uploaded_files (file_manager session_with_notes)
               ∨ n ∈ name <$> [slides_txt; notes_pdf; slides_txt].
Proof.
  apply (handle_file_upload_keeps_names_distinct (H := ascii_names)).
  refine (bool_decide_unpack _ _). vm_compute. exact I.
Defined.

(** [failed_upload_stays_tracked] at [notes.pdf] on a platform that fails
    every call. *)
Lemma failed_upload_stays_tracked_witness :
  let s := starting_session (λ _, true) in
  ∃ info e s',
    upload_one (H := ascii_names) notes_pdf s = (Ok tt, s')
    ∧ uploaded_files (file_manager s')
      = uploaded_files (file_manager s) ++ [info]
    ∧ original_name info = name notes_pdf
    ∧ file_id info = []
    ∧ get_all_file_ids (file_manager s') = get_all_file_ids (file_manager s)
    ∧ (temp_path info, getbuffer notes_pdf) ∈ disk (local s')
    ∧ stored_files (remote s') = stored_files (remote s)
    ∧ sidebar s' = sidebar s ++ [FailedToUpload (name notes_pdf) e]
    ∧ handle_file_upload (H := ascii_names) [notes_pdf] s' = (Ok tt, s').
Proof.
  intros s.
  apply (failed_upload_stays_tracked (H := ascii_names) notes_pdf s).
  - vm_compute. reflexivity.
  - vm_compute. reflexivity.
  - vm_compute. reflexivity.
  - intros path. vm_compute. reflexivity.
  - right. vm_compute. reflexivity.
Defined.

End upload_properties.

(* ================================================================= *)
(** ** Looking up and checking tracked documents *)

Module tracking_properties.
Import config utils file_manager main spec samples.
Import registry_properties upload_properties.

Lemma update_first_spec (filename fid : str) (files : list UploadedFile) :
  match find (λ file, str_eqb (original_name file) filename) files with
  | None => update_first filename fid files = None
  | Some file0 =>
      ∃ files',
        update_first filename fid files = Some files'
        ∧ find (λ file, str_eqb (original_name file) filename) files'
          = Some (set_file_id fid file0)
        ∧ (∀ other, other ≠ filename →
             find (λ file, str_eqb (original_name file) other) files'
             = find (λ file, str_eqb (original_name file) other) files)
        ∧ length files' = length files
        ∧ (fid ≠ [] → fid ∈ filter (λ x : str, x ≠ []) (file_id <$> files'))
  end.
Proof.
  induction files as [|file files IH]; simpl; [done|].
  destruct (str_eqb (original_name file) filename) eqn:E.
  - eexists. split; [done|]. simpl. rewrite E. split_and!; try done.
    + intros other Hne. unfold str_eqb in *.
      apply bool_decide_eq_true in E.
      by rewrite !bool_decide_eq_false_2 by congruence.
    + intros Hfid. rewrite filter_cons, decide_True by done.
      apply list_elem_of_here.
  - destruct (find _ files) as [file0|].
    + destruct IH as (files' & -> & Hf & Ho & Hl & Hi).
      eexists. split; [done|]. simpl. rewrite E.
      split_and!; try done.
      * intros other Hne. by rewrite Ho.
      * by rewrite Hl.
      * intros Hfid. rewrite filter_cons.
        destruct (decide _); [apply list_elem_of_further|]; by apply Hi.
    + by rewrite IH.
Qed.

(** X12.  [update_file_id] and [get_file_by_name]: the id given to a tracked
    name is the id found under that name afterwards, with the other fields
    of the record and every other name's record as they were; the id is
    then among [get_all_file_ids] unless it is empty.  For a name that is
    not tracked the call returns [False] and changes nothing. *)
Theorem update_file_id_then_lookup (filename fid : str) (s : Session) :
  match get_file_by_name (file_manager s) filename with
  | None => update_file_id filename fid s = (Ok false, s)
  | Some file0 =>
      ∃ s',
        update_file_id filename fid s = (Ok true, s')
        ∧ get_file_by_name (file_manager s') filename
          = Some (set_file_id fid file0)
        ∧ (∀ other, other ≠ filename →
             get_file_by_name (file_manager s') other
             = get_file_by_name (file_manager s) other)
        ∧ get_file_count (file_manager s') = get_file_count (file_manager s)
        ∧ (fid ≠ [] → fid ∈ get_all_file_ids (file_manager s'))
  end.
Proof.
  unfold get_file_by_name, update_file_id, get_all_file_ids, get_file_count,
    on_file_manager.
  pose proof (update_first_spec filename fid (uploaded_files (file_manager s)))
    as Hu.
  run_monad.
  destruct (find _ _) as [file0|].
  - destruct Hu as (files' & -> & Hf & Ho & Hl & Hi). simpl.
    eexists. split; [done|]. simpl. done.
  - by rewrite Hu.
Qed.

Lemma validate_each_spec (files : list UploadedFile) (s : Session) :
  ∀ errors, ∃ found,
    validate_each files errors s = (Ok (errors ++ found), s)
    ∧ (∀ n, NotUploadedToOpenAI n ∈ found
            ↔ ∃ file, file ∈ files ∧ original_name file = n
                      ∧ file_id file = [])
    ∧ (∀ n, TemporaryFileMissing n ∈ found
            ↔ ∃ file, file ∈ files ∧ original_name file = n
                      ∧ on_disk (temp_path file) (disk (local s)) = false).
Proof.
  induction files as [|file files IH]; intros errors; simpl.
  - exists []. rewrite app_nil_r. split; [done|].
    split; intros n; split.
    + by intros ?%elem_of_nil.
    + by intros (? & ?%elem_of_nil & _).
    + by intros ?%elem_of_nil.
    + by intros (? & ?%elem_of_nil & _).
  - unfold os_path_exists. run_monad.
    set (e1 := match file_id file with
               | [] => [NotUploadedToOpenAI (original_name file)]
               | _ :: _ => []
               end).
    set (e2 := if on_disk (temp_path file) (disk (local s)) then []
               else [TemporaryFileMissing (original_name file)]).
    destruct (IH (errors ++ e1 ++ e2)) as (found & E & H1 & H2).
    exists (e1 ++ e2 ++ found).
    split.
    { trans (validate_each files (errors ++ e1 ++ e2) s).
      - f_equal. unfold e1, e2.
        destruct (file_id file), (on_disk _ _); simpl;
          by rewrite <- ?app_assoc, ?app_nil_r.
      - rewrite E. by rewrite <- !app_assoc. }
    split; intros n.
    + rewrite !elem_of_app, H1. split.
      * intros [Hin|[Hin|(g & Hg & Hn & Hi)]].
        -- unfold e1 in Hin. destruct (file_id file) eqn:Ef.
           ++ apply list_elem_of_singleton in Hin as [= ->].
              exists file. split_and!; [apply list_elem_of_here|done|done].
           ++ by apply elem_of_nil in Hin.
        -- unfold e2 in Hin. destruct (on_disk _ _).
           ++ by apply elem_of_nil in Hin.
           ++ by apply list_elem_of_singleton in Hin.
        -- exists g. split_and!; [by apply list_elem_of_further|done|done].
      * intros (g & Hg & Hn & Hi). apply elem_of_cons in Hg as [->|Hg].
        -- left. unfold e1. rewrite Hi, Hn. apply list_elem_of_here.
        -- right. right. eauto.
    + rewrite !elem_of_app, H2. split.
      * intros [Hin|[Hin|(g & Hg & Hn & Hi)]].
        -- unfold e1 in Hin. destruct (file_id file).
           ++ by apply list_elem_of_singleton in Hin.
           ++ by apply elem_of_nil in Hin.
        -- unfold e2 in Hin. destruct (on_disk _ _) eqn:Ed.
           ++ by apply elem_of_nil in Hin.
           ++ apply list_elem_of_singleton in Hin as [= ->].
              exists file. split_and!; [apply list_elem_of_here|done|done].
        -- exists g. split_and!; [by apply list_elem_of_further|done|done].
      * intros (g & Hg & Hn & Hi). apply elem_of_cons in Hg as [->|Hg].
        -- right. left. unfold e2. rewrite Hi, Hn. apply list_elem_of_here.
        -- right. right. eauto.
Qed.

(** X13.  [validate_files_for_processing] only reads: it returns the
    message "not uploaded" for exactly the names of tracked documents
    without a remote id, the message "temporary file missing" for exactly
    the names of those whose temporary copy is not on disk, and so nothing
    exactly when every document has both. *)
Theorem validate_files_for_processing_reports (s : Session) :
  ∃ errors,
    validate_files_for_processing s = (Ok errors, s)
    ∧ (∀ n, NotUploadedToOpenAI n ∈ errors
            ↔ ∃ file, file ∈ uploaded_files (file_manager s)
                      ∧ original_name file = n ∧ file_id file = [])
    ∧ (∀ n, TemporaryFileMissing n ∈ errors
            ↔ ∃ file, file ∈ uploaded_files (file_manager s)
                      ∧ original_name file = n
                      ∧ on_disk (temp_path file) (disk (local s)) = false)
    ∧ (errors = []
       ↔ ∀ file, file ∈ uploaded_files (file_manager s) →
                 file_id file ≠ []
                 ∧ on_disk (temp_path file) (disk (local s)) = true).
Proof.
  unfold validate_files_for_processing. run_monad.
  destruct (validate_each_spec (uploaded_files (file_manager s)) s [])
    as (errors & E & H1 & H2).
  exists errors. split_and!; [done|done|done|].
  split.
  - intros -> file Hin. split.
    + intros Hi. eapply elem_of_nil, (H1 (original_name file)). eauto.
    + destruct (on_disk _ _) eqn:Ed; [done|].
      exfalso. eapply elem_of_nil, (H2 (original_name file)). eauto.
  - intros Hall. destruct errors as [|[n|n] errors]; [done| |].
    + destruct (proj1 (H1 n)) as (file & Hin & _ & Hi);
        [apply list_elem_of_here|].
      by destruct (Hall file Hin).
    + destruct (proj1 (H2 n)) as (file & Hin & _ & Hd);
        [apply list_elem_of_here|].
      destruct (Hall file Hin). congruence.
Qed.

End tracking_properties.

(* ================================================================= *)
(** ** Removals *)

Module removal_properties.
Import config utils file_manager main spec samples.
Import registry_properties upload_properties.

Lemma on_disk_without (path p : str) (d : list (str * bytes)) :
  on_disk p (without path d)
  = if decide (p = path) then false else on_disk p d.
Proof.
  unfold on_disk, without. induction d as [|[q c] d IH]; simpl.
  - by destruct (decide _).
  - rewrite filter_cons. simpl. destruct (decide (q ≠ path)) as [Hq|Hq].
    + simpl. rewrite IH. destruct (decide (p = path)) as [->|]; [|done].
      unfold str_eqb. by rewrite bool_decide_eq_false_2.
    + apply dec_stable in Hq as ->. rewrite IH.
      destruct (decide (p = path)) as [->|Hp]; [done|].
      unfold str_eqb at 2. rewrite bool_decide_eq_false_2; [done|congruence].
Qed.

(** [cleanup_temp_file] never raises; it changes nothing but the disk,
    from which the path is gone when it was there and its removal does not
    fail. *)
Lemma cleanup_temp_file_run (path : str) (s : Session) :
  ∃ s', cleanup_temp_file path s = (Ok tt, s')
        ∧ file_manager s' = file_manager s
        ∧ openai_client s' = openai_client s
        ∧ sidebar s' = sidebar s
        ∧ uploader_version s' = uploader_version s
        ∧ remote s' = remote s
        ∧ io_fails (local s') = io_fails (local s)
        ∧ disk (local s')
          = if on_disk path (disk (local s)) && negb (io_fails (local s) path)
            then without path (disk (local s)) else disk (local s).
Proof.
  unfold cleanup_temp_file, os_path_exists, os_remove, set_disk. run_monad.
  destruct (on_disk path (disk (local s))) eqn:Eon; simpl.
  - destruct (io_fails (local s) path) eqn:Eio; simpl; rewrite ?Eon; simpl;
      eexists; split_and!; reflexivity.
  - eexists; split_and!; reflexivity.
Qed.

Lemma find_first_match (filename : str) (pre post : list UploadedFile)
      (file : UploadedFile) :
  Forall (λ g, original_name g ≠ filename) pre →
  original_name file = filename →
  find (λ g, str_eqb (original_name g) filename) (pre ++ file :: post)
  = Some file.
Proof.
  intros Hpre Hf. induction Hpre as [|g pre Hg _ IH]; simpl.
  - unfold str_eqb. by rewrite bool_decide_eq_true_2.
  - unfold str_eqb at 1. by rewrite bool_decide_eq_false_2.
Qed.

Lemma remove_file_loop_run (filename : str) (file : UploadedFile)
      (post : list UploadedFile) (s : Session) :
  original_name file = filename →
  ∀ pre done,
    Forall (λ g, original_name g ≠ filename) pre →
    uploaded_files (file_manager s) = done ++ pre ++ file :: post →
    ∃ s1, cleanup_temp_file (temp_path file) s = (Ok tt, s1)
          ∧ remove_file_loop (pre ++ file :: post) (length done) filename s
            = (Ok true,
               set_file_manager
                 (set_uploaded_files (done ++ pre ++ post) (file_manager s1))
                 s1).
Proof.
  intros Hf pre. induction pre as [|g pre IH]; intros done Hpre Hfiles; simpl.
  - unfold str_eqb. rewrite bool_decide_eq_true_2 by done.
    destruct (cleanup_temp_file_run (temp_path file) s)
      as (s1 & E & Hfm & _).
    exists s1. split; [done|].
    erewrite bind_ok by exact E. unfold on_file_manager. run_monad.
    simpl in Hfiles. rewrite Hfm, Hfiles. do 3 f_equal.
    by rewrite delete_middle.
  - apply Forall_cons in Hpre as [Hg Hpre].
    unfold str_eqb. rewrite bool_decide_eq_false_2 by done.
    destruct (IH (done ++ [g]) Hpre) as (s1 & E & Hr).
    { by rewrite <- app_assoc. }
    exists s1. split; [done|].
    rewrite length_app in Hr. simpl in Hr. rewrite Nat.add_1_r in Hr.
    unfold str_eqb in Hr. rewrite Hr. by rewrite <- app_assoc.
Qed.

(** What [remove_file] does with a tracked name. *)
Lemma remove_file_run (filename : str) (s : Session)
        (pre post : list UploadedFile) (file : UploadedFile) :
  uploaded_files (file_manager s) = pre ++ file :: post →
  original_name file = filename →
  Forall (λ g, original_name g ≠ filename) pre →
  ∃ s', remove_file filename s = (Ok true, s')
        ∧ uploaded_files (file_manager s') = pre ++ post
        ∧ vector_store_id (file_manager s') = vector_store_id (file_manager s)
        ∧ assistant_id (file_manager s') = assistant_id (file_manager s)
        ∧ remote s' = remote s
        ∧ (io_fails (local s) (temp_path file) = false →
           on_disk (temp_path file) (disk (local s')) = false)
        ∧ (∀ p, p ≠ temp_path file →
             on_disk p (disk (local s')) = on_disk p (disk (local s))).
Proof.
  intros Hfiles Hf Hpre. unfold remove_file.
  erewrite bind_ok by reflexivity. rewrite Hfiles.
  destruct (remove_file_loop_run filename file post s Hf pre [] Hpre Hfiles)
    as (s1 & E & Hr).
  simpl in Hr. rewrite Hr. clear Hr.
  destruct (cleanup_temp_file_run (temp_path file) s)
    as (s1' & E' & Hfm & _ & _ & _ & Hr & _ & Hd).
  rewrite E in E'. injection E' as <-.
  eexists. split; [done|]. simpl. rewrite Hfm, Hd.
  split_and!; try done.
  - intros Hio. rewrite Hio. simpl.
    destruct (on_disk _ _) eqn:Eon; simpl; [|done].
    rewrite on_disk_without. by rewrite decide_True.
  - intros p Hp. destruct (_ && _); [|done].
    rewrite on_disk_without. by rewrite decide_False.
Qed.

(** X14.  [remove_file] drops the first tracked document with the name, and
    only that one; the recorded ids and the platform are as before; its
    temporary copy is gone from the disk unless removing it fails, and no
    other file on disk is touched. *)
Theorem remove_file_removes_first_match (filename : str) (s : Session)
        (pre post : list UploadedFile) (file : UploadedFile) :
  uploaded_files (file_manager s) = pre ++ file :: post →
  original_name file = filename →
  Forall (λ g, original_name g ≠ filename) pre →
  ∃ s', remove_file filename s = (Ok true, s')
        ∧ uploaded_files (file_manager s') = pre ++ post
        ∧ vector_store_id (file_manager s') = vector_store_id (file_manager s)
        ∧ assistant_id (file_manager s') = assistant_id (file_manager s)
        ∧ remote s' = remote s
        ∧ (io_fails (local s) (temp_path file) = false →
           on_disk (temp_path file) (disk (local s')) = false)
        ∧ (∀ p, p ≠ temp_path file →
             on_disk p (disk (local s')) = on_disk p (disk (local s))).
Proof. apply remove_file_run. Qed.

(** [remove_file_removes_first_match] at the session that tracks
    [notes.pdf] twice. *)
Lemma remove_file_removes_first_match_witness :
  ∃ first second,
    uploaded_files (file_manager session_tracking_twice) = [first; second]
    ∧ ∃ s', remove_file (lit "notes.pdf") session_tracking_twice
            = (Ok true, s')
            ∧ uploaded_files (file_manager s') = [] ++ [second]
            ∧ vector_store_id (file_manager s')
              = vector_store_id (file_manager session_tracking_twice)
            ∧ assistant_id (file_manager s')
              = assistant_id (file_manager session_tracking_twice)
            ∧ remote s' = remote session_tracking_twice
            ∧ (io_fails (local session_tracking_twice) (temp_path first)
               = false →
               on_disk (temp_path first) (disk (local s')) = false)
            ∧ (∀ p, p ≠ temp_path first →
                 on_disk p (disk (local s'))
                 = on_disk p (disk (local session_tracking_twice))).
Proof.
  eexists _, _. split; [vm_compute; reflexivity|].
  apply (remove_file_removes_first_match (lit "notes.pdf")
           session_tracking_twice []).
  - vm_compute. reflexivity.
  - vm_compute. reflexivity.
  - constructor.
Defined.

Lemma remove_file_loop_absent (filename : str) (files : list UploadedFile)
      (i : nat) (s : Session) :
  existsb (λ g, str_eqb (original_name g) filename) files = false →
  remove_file_loop files i filename s = (Ok false, s).
Proof.
  revert i. induction files as [|g files IH]; intros i Hn; simpl in *; [done|].
  apply orb_false_iff in Hn as [-> Hn]. by apply IH.
Qed.

Lemma find_absent (filename : str) (files : list UploadedFile) :
  existsb (λ g, str_eqb (original_name g) filename) files = false →
  find (λ g, str_eqb (original_name g) filename) files = None.
Proof.
  induction files as [|g files IH]; simpl; [done|].
  intros [-> Hn]%orb_false_iff. by apply IH.
Qed.

(** X15.  Removing a name that is not tracked changes nothing: no remote
    call, no file removed; [remove_file_completely] returns [False], and
    the remove button then shows its warning "removed locally; remote
    cleanup may have failed". *)
Theorem removing_untracked_name_changes_nothing (filename : str)
        (s : Session) :
  has_file_with_name (file_manager s) filename = false →
  remove_file_completely filename s = (Ok false, s)
  ∧ remove_clicked filename s
    = (Ok tt,
       bump_uploader_version
         (show (RemovedLocallyCleanupMayHaveFailed filename) s)).
Proof.
  intros Hn. unfold has_file_with_name in Hn.
  assert (remove_file_completely filename s = (Ok false, s)) as E.
  { unfold remove_file_completely, remove_file.
    erewrite bind_ok by reflexivity.
    erewrite (bind_ok _ _ s s tt).
    - erewrite bind_ok by reflexivity. by apply remove_file_loop_absent.
    - destruct (openai_client s); [|done].
      erewrite bind_ok; [done|].
      unfold remove_file_from_openai, get_file_by_name.
      erewrite try_ok; [done|].
      erewrite bind_ok by reflexivity. by rewrite find_absent. }
  split; [done|]. unfold remove_clicked.
  erewrite try_ok; [done|]. erewrite bind_ok by exact E. done.
Qed.

(** [removing_untracked_name_changes_nothing] at [slides.txt], in the
    session that tracks [notes.pdf] only. *)
Lemma removing_untracked_name_changes_nothing_witness :
  remove_file_completely (lit "slides.txt") session_with_notes
  = (Ok false, session_with_notes)
  ∧ remove_clicked (lit "slides.txt") session_with_notes
    = (Ok tt,
       bump_uploader_version
         (show (RemovedLocallyCleanupMayHaveFailed (lit "slides.txt"))
               session_with_notes)).
Proof.
  apply removing_untracked_name_changes_nothing. vm_compute. reflexivity.
Defined.

(** What [remove_file_from_openai] does for a tracked document with a
    remote id when the platform answers: it detaches the id from the
    recorded vector store, if one is recorded, then deletes the file. *)
Lemma remove_file_from_openai_run (filename : str) (s : Session)
      (pre post : list UploadedFile) (file : UploadedFile) :
  let n := length (calls (remote s)) in
  let vs := default [] (vector_store_id (file_manager s)) in
  let indexed := truthy (vector_store_id (file_manager s)) in
  uploaded_files (file_manager s) = pre ++ file :: post →
  original_name file = filename →
  Forall (λ g, original_name g ≠ filename) pre →
  file_id file ≠ [] →
  outage (remote s) n = false →
  outage (remote s) (S n) = false →
  ∃ s1, remove_file_from_openai filename s = (Ok true, s1)
        ∧ file_manager s1 = file_manager s
        ∧ disk (local s1) = disk (local s)
        ∧ io_fails (local s1) = io_fails (local s)
        ∧ calls (remote s1)
          = calls (remote s)
            ++ (if indexed then [VectorStoreFilesDelete vs (file_id file)]
                else [])
            ++ [FilesDelete (file_id file)]
        ∧ stored_files (remote s1)
          = filter (λ x, x ≠ file_id file) (stored_files (remote s))
        ∧ attached (remote s1)
          = if indexed
            then filter (λ a, a ≠ (vs, file_id file)) (attached (remote s))
            else attached (remote s).
Proof.
  intros n vs indexed Hfiles Hf Hpre Hfid Ho1 Ho2.
  unfold remove_file_from_openai, get_file_by_name,
    openai_client.remove_file_from_vector_store, openai_client.delete_file,
    remote_request, block.
  run_monad. rewrite Hfiles, find_first_match by done. simpl.
  subst vs indexed.
  destruct (file_id file) as [|d fid] eqn:Efid; [done|].
  destruct (vector_store_id (file_manager s)) as [[|c vs]|]; simpl.
  - fold n. rewrite Ho1. simpl. eexists. split_and!; reflexivity.
  - fold n. rewrite Ho1. simpl. rewrite length_app. simpl.
    rewrite Nat.add_1_r. fold n. rewrite Ho2. simpl.
    eexists. split; [reflexivity|]. simpl.
    split_and!; try done. by rewrite <- app_assoc.
  - fold n. rewrite Ho1. simpl. eexists. split_and!; reflexivity.
Qed.

(** X16.  Removing a tracked document that has a remote id, with a client,
    a recorded vector store and a platform that answers: the document is
    first detached from the vector store, then deleted from the platform's
    files, then dropped from the registry; afterwards the platform neither
    stores nor has attached that id. *)
Theorem remove_file_completely_cleans_up (filename : str) (s : Session)
        (pre post : list UploadedFile) (file : UploadedFile) (vs : str) :
  let n := length (calls (remote s)) in
  uploaded_files (file_manager s) = pre ++ file :: post →
  original_name file = filename →
  Forall (λ g, original_name g ≠ filename) pre →
  openai_client s ≠ None →
  vector_store_id (file_manager s) = Some vs → vs ≠ [] →
  file_id file ≠ [] →
  outage (remote s) n = false →
  outage (remote s) (S n) = false →
  ∃ s', remove_file_completely filename s = (Ok true, s')
        ∧ uploaded_files (file_manager s') = pre ++ post
        ∧ calls (remote s')
          = calls (remote s) ++ [VectorStoreFilesDelete vs (file_id file);
                                 FilesDelete (file_id file)]
        ∧ (file_id file ∉ stored_files (remote s'))
        ∧ ((vs, file_id file) ∉ attached (remote s'))
        ∧ (∀ x, x ≠ file_id file →
             x ∈ stored_files (remote s') ↔ x ∈ stored_files (remote s))
        ∧ (∀ v x, x ≠ file_id file →
             (v, x) ∈ attached (remote s') ↔ (v, x) ∈ attached (remote s)).
Proof.
  intros n Hfiles Hf Hpre Hc Hvs Hvs0 Hfid Ho1 Ho2.
  destruct (remove_file_from_openai_run filename s pre post file)
    as (s1 & E1 & Hfm & _ & _ & Hcalls & Hst & Hat); try done.
  rewrite Hvs in Hcalls, Hat.
  assert (truthy (Some vs) = true) as Htr by (by destruct vs).
  rewrite Htr in Hcalls, Hat. simpl in Hcalls, Hat.
  destruct (remove_file_run filename s1 pre post file)
    as (s2 & E2 & Hfiles2 & _ & _ & Hr & _); try done.
  { by rewrite Hfm. }
  exists s2. unfold remove_file_completely.
  erewrite bind_ok by reflexivity.
  destruct (openai_client s) as [c|]; [|done].
  erewrite (bind_ok _ _ s s1 tt) by (by erewrite bind_ok by exact E1).
  rewrite Hr, Hst, Hat, Hcalls.
  split_and!; try done.
  - rewrite list_elem_of_filter. intros [Hx _]. by apply Hx.
  - rewrite list_elem_of_filter. intros [Hx _]. by apply Hx.
  - intros x Hx. rewrite list_elem_of_filter.
    split; [by intros [_ ?]|by intros ?].
  - intros v x Hx. rewrite list_elem_of_filter.
    split; [by intros [_ ?]|intros ?; split; [congruence|done]].
Qed.

(** [remove_file_completely_cleans_up] at the session that tracks
    [notes.pdf]. *)
Lemma remove_file_completely_cleans_up_witness :
  ∃ s', remove_file_completely (lit "notes.pdf") session_with_notes
        = (Ok true, s')
        ∧ uploaded_files (file_manager s') = [] ++ []
        ∧ calls (remote s')
          = calls (remote session_with_notes)
            ++ [VectorStoreFilesDelete (lit "id-1") (lit "id-0");
                FilesDelete (lit "id-0")]
        ∧ (lit "id-0" ∉ stored_files (remote s'))
        ∧ ((lit "id-1", lit "id-0") ∉ attached (remote s'))
        ∧ (∀ x, x ≠ lit "id-0" →
             x ∈ stored_files (remote s')
             ↔ x ∈ stored_files (remote session_with_notes))
        ∧ (∀ v x, x ≠ lit "id-0" →
             (v, x) ∈ attached (remote s')
             ↔ (v, x) ∈ attached (remote session_with_notes)).
Proof.
  destruct (uploaded_files (file_manager session_with_notes))
    as [|file [|]] eqn:Efiles; [discriminate| |discriminate].
  assert (file_id file = lit "id-0") as Eid.
  { injection Efiles as <-. vm_compute. reflexivity. }
  rewrite <- Eid.
  apply (remove_file_completely_cleans_up (lit "notes.pdf")
           session_with_notes [] [] file (lit "id-1")).
  - exact Efiles.
  - injection Efiles as <-. vm_compute. reflexivity.
  - constructor.
  - vm_compute. discriminate.
  - vm_compute. reflexivity.
  - vm_compute. discriminate.
  - rewrite Eid. vm_compute. discriminate.
  - vm_compute. reflexivity.
  - vm_compute. reflexivity.
Defined.

(** X17.  Removing a tracked document that has no remote id, or removing
    one when the session has no client, does not reach the platform: no
    call is made, and what the platform holds stays. *)
Theorem removal_without_remote_id_is_local (filename : str) (s : Session)
        (pre post : list UploadedFile) (file : UploadedFile) :
  uploaded_files (file_manager s) = pre ++ file :: post →
  original_name file = filename →
  Forall (λ g, original_name g ≠ filename) pre →
  file_id file = [] ∨ openai_client s = None →
  ∃ s', remove_file_completely filename s = (Ok true, s')
        ∧ uploaded_files (file_manager s') = pre ++ post
        ∧ remote s' = remote s.
Proof.
  intros Hfiles Hf Hpre Hlocal.
  destruct (remove_file_run filename s pre post file)
    as (s2 & E2 & Hfiles2 & _ & _ & Hr & _); try done.
  exists s2. unfold remove_file_completely.
  erewrite bind_ok by reflexivity.
  erewrite (bind_ok _ _ s s tt); [done|].
  destruct (openai_client s) as [c|]; [|done].
  destruct Hlocal as [Hid|?]; [|done].
  erewrite bind_ok; [done|].
  unfold remove_file_from_openai, get_file_by_name. run_monad.
  rewrite Hfiles, find_first_match by done. simpl. rewrite Hid.
  by destruct (vector_store_id _) as [[|? ?]|].
Qed.

(** [removal_without_remote_id_is_local] at the session in which the
    upload of [notes.pdf] failed. *)
Lemma removal_without_remote_id_is_local_witness :
  let s := (upload_one (H := ascii_names) notes_pdf
              (starting_session (λ _, true))).2 in
  ∃ s', remove_file_completely (lit "notes.pdf") s = (Ok true, s')
        ∧ uploaded_files (file_manager s') = [] ++ []
        ∧ remote s' = remote s.
Proof.
  intros s.
  eapply (removal_without_remote_id_is_local (lit "notes.pdf") s [] []).
  - vm_compute. reflexivity.
  - vm_compute. reflexivity.
  - constructor.
  - left. vm_compute. reflexivity.
Defined.

Lemma remove_file_from_openai_frame (filename : str) (s : Session) :
  ∃ b s', remove_file_from_openai filename s = (Ok b, s')
          ∧ file_manager s' = file_manager s
          ∧ disk (local s') = disk (local s)
          ∧ io_fails (local s') = io_fails (local s)
          ∧ calls (remote s) `prefix_of` calls (remote s').
Proof.
  unfold remove_file_from_openai, openai_client.remove_file_from_vector_store,
    openai_client.delete_file, remote_request, block.
  run_monad.
  repeat (case_match; simplify_eq/=); eexists _, _; split_and!;
    try reflexivity; rewrite <- ?app_assoc; by apply prefix_app_r.
Qed.

(** X18.  Removing a tracked name never raises and always drops the first
    document of that name from the registry, whatever the platform does:
    the calls to the platform can only fail silently.  The recorded ids
    stay, the temporary copy is gone unless removing it fails, and the
    flag returned is [True]. *)
Theorem removal_always_drops_locally (filename : str) (s : Session)
        (pre post : list UploadedFile) (file : UploadedFile) :
  uploaded_files (file_manager s) = pre ++ file :: post →
  original_name file = filename →
  Forall (λ g, original_name g ≠ filename) pre →
  ∃ s', remove_file_completely filename s = (Ok true, s')
        ∧ uploaded_files (file_manager s') = pre ++ post
        ∧ vector_store_id (file_manager s') = vector_store_id (file_manager s)
        ∧ assistant_id (file_manager s') = assistant_id (file_manager s)
        ∧ (io_fails (local s) (temp_path file) = false →
           on_disk (temp_path file) (disk (local s')) = false)
        ∧ calls (remote s) `prefix_of` calls (remote s').
Proof.
  intros Hfiles Hf Hpre.
  assert (∃ s1, (match openai_client s with
                 | Some _ => remove_file_from_openai filename ;; mret tt
                 | None => mret tt
                 end) s = (Ok tt, s1)
                ∧ file_manager s1 = file_manager s
                ∧ disk (local s1) = disk (local s)
                ∧ io_fails (local s1) = io_fails (local s)
                ∧ calls (remote s) `prefix_of` calls (remote s1))
    as (s1 & E1 & Hfm1 & Hd1 & Hio1 & Hp1).
  { destruct (openai_client s); [|by exists s].
    destruct (remove_file_from_openai_frame filename s)
      as (b & s1 & E & Hrest).
    exists s1. by erewrite bind_ok by exact E. }
  destruct (remove_file_run filename s1 pre post file)
    as (s2 & E2 & Hfiles2 & Hvs2 & Has2 & Hr2 & Hgone & _); try done.
  { by rewrite Hfm1. }
  exists s2. unfold remove_file_completely.
  erewrite bind_ok by reflexivity. erewrite bind_ok by exact E1.
  rewrite Hfm1 in Hvs2, Has2. rewrite Hio1 in Hgone. rewrite Hr2.
  done.
Qed.

(** [removal_always_drops_locally] at the session that tracks [notes.pdf],
    on a platform that fails every call from then on. *)
Lemma removal_always_drops_locally_witness :
  ∃ file,
    uploaded_files (file_manager session_then_outage) = [file]
    ∧ ∃ s', remove_file_completely (lit "notes.pdf") session_then_outage
            = (Ok true, s')
            ∧ uploaded_files (file_manager s') = [] ++ []
            ∧ vector_store_id (file_manager s')
              = vector_store_id (file_manager session_then_outage)
            ∧ assistant_id (file_manager s')
              = assistant_id (file_manager session_then_outage)
            ∧ (io_fails (local session_then_outage) (temp_path file) = false →
               on_disk (temp_path file) (disk (local s')) = false)
            ∧ calls (remote session_then_outage)
                `prefix_of` calls (remote s').
Proof.
  eexists. split; [vm_compute; reflexivity|].
  apply (removal_always_drops_locally (lit "notes.pdf")
           session_then_outage [] []).
  - vm_compute. reflexivity.
  - vm_compute. reflexivity.
  - constructor.
Defined.

Lemma cleanup_each_run (files : list UploadedFile) :
  ∀ s, ∃ s',
    cleanup_each files s = (Ok tt, s')
    ∧ file_manager s' = file_manager s
    ∧ openai_client s' = openai_client s
    ∧ sidebar s' = sidebar s
    ∧ remote s' = remote s
    ∧ io_fails (local s') = io_fails (local s)
    ∧ ∀ p, on_disk p (disk (local s')) = true
           ↔ on_disk p (disk (local s)) = true
             ∧ (p ∈ temp_path <$> files → io_fails (local s) p = true).
Proof.
  induction files as [|file files IH]; intros s; simpl.
  - exists s. split_and!; try done. intros p. split; [|by intros [? _]].
    intros Hp. split; [done|]. by intros ?%elem_of_nil.
  - destruct (cleanup_temp_file_run (temp_path file) s)
      as (s1 & E1 & Hfm1 & Hc1 & Hsb1 & _ & Hr1 & Hio1 & Hd1).
    destruct (IH s1) as (s2 & E2 & Hfm2 & Hc2 & Hsb2 & Hr2 & Hio2 & Hd2).
    exists s2. erewrite bind_ok by exact E1.
    split_and!; try congruence.
    intros p. rewrite Hd2, Hd1, Hio1. rewrite elem_of_cons.
    destruct (decide (p = temp_path file)) as [->|Hp].
    + destruct (on_disk (temp_path file) (disk (local s))) eqn:Eon; simpl.
      * destruct (io_fails (local s) (temp_path file)) eqn:Eio; simpl.
        -- rewrite Eon. clear; intuition congruence.
        -- rewrite on_disk_without, decide_True by done. clear; intuition congruence.
      * rewrite Eon. clear; intuition congruence.
    + assert (on_disk p (if on_disk (temp_path file) (disk (local s))
                            && negb (io_fails (local s) (temp_path file))
                         then without (temp_path file) (disk (local s))
                         else disk (local s))
              = on_disk p (disk (local s))) as ->.
      { destruct (_ && _); [|done].
        by rewrite on_disk_without, decide_False. }
      clear -Hp. intuition congruence.
Qed.

(** X19.  [cleanup_all_files] never raises.  Afterwards no document is
    tracked, while the recorded vector store and assistant ids and the
    platform are as before; a file is on disk afterwards exactly when it
    was there before and it is not a temporary copy whose removal
    succeeds. *)
Theorem cleanup_all_files_empties_registry (s : Session) :
  ∃ s', cleanup_all_files s = (Ok tt, s')
        ∧ uploaded_files (file_manager s') = []
        ∧ vector_store_id (file_manager s') = vector_store_id (file_manager s)
        ∧ assistant_id (file_manager s') = assistant_id (file_manager s)
        ∧ remote s' = remote s
        ∧ ∀ p, on_disk p (disk (local s')) = true
               ↔ on_disk p (disk (local s)) = true
                 ∧ (p ∈ get_all_temp_paths (file_manager s) →
                    io_fails (local s) p = true).
Proof.
  unfold cleanup_all_files, get_all_temp_paths.
  destruct (cleanup_each_run (uploaded_files (file_manager s)) s)
    as (s1 & E1 & Hfm & _ & _ & Hr & _ & Hd).
  erewrite bind_ok by reflexivity. erewrite bind_ok by exact E1.
  eexists. split; [reflexivity|]. simpl. rewrite Hfm. done.
Qed.

End removal_properties.

(* ================================================================= *)
(** ** Upload followed by removal *)

Module round_trip_properties.
Import config utils file_manager main spec samples.
Import registry_properties upload_properties removal_properties.

Lemma filter_out_appended {A} `{EqDecision A} (x : A) (l : list A) :
  x ∉ l → filter (λ y, y ≠ x) (l ++ [x]) = l.
Proof.
  intros Hx. rewrite filter_app, filter_cons, decide_False by (by intros ?).
  rewrite filter_nil, app_nil_r.
  induction l as [|y l IH]; [done|].
  apply not_elem_of_cons in Hx as [Hy Hx].
  rewrite filter_cons, decide_True by done. f_equal. by apply IH.
Qed.

Lemma without_idem (path : str) (content : bytes) (d : list (str * bytes)) :
  without path ((path, content) :: without path d) = without path d.
Proof.
  unfold without. rewrite filter_cons, decide_False by (by intros ?).
  induction d as [|[q c] d IH]; [done|].
  rewrite !filter_cons. destruct (decide _) as [Hq|Hq]; [|done].
  rewrite filter_cons, decide_True by done. by rewrite IH.
Qed.

Section round_trip.
Context `{UnicodeData}.

(** X20.  Uploading a new file and then removing it by its name, with the
    file operations succeeding and the platform answering: the registry
    is as it was, and so is the platform's storage, as long as the
    platform gave the file an id that is not empty and that it did not
    already store or have attached; the temporary copy is gone. *)
Theorem upload_then_remove_restores (f : FileData) (s : Session) :
  let n := length (calls (remote s)) in
  let fid := fresh_id (remote s) n in
  has_file_with_name (file_manager s) (name f) = false →
  validate_file_type (name f) SUPPORTED_EXTS = true →
  (size f < 209767629)%Z →
  openai_client s ≠ None →
  (∀ path, io_fails (local s) path = false) →
  (∀ i, i < 4 → outage (remote s) (n + i) = false) →
  fid ≠ [] →
  ∃ s1 s2 tp,
    upload_one f s = (Ok tt, s1)
    ∧ remove_file_completely (name f) s1 = (Ok true, s2)
    ∧ uploaded_files (file_manager s2) = uploaded_files (file_manager s)
    ∧ vector_store_id (file_manager s2) = vector_store_id (file_manager s)
    ∧ assistant_id (file_manager s2) = assistant_id (file_manager s)
    ∧ (fid ∉ stored_files (remote s) →
       stored_files (remote s2) = stored_files (remote s))
    ∧ ((default [] (vector_store_id (file_manager s)), fid)
         ∉ attached (remote s) →
       attached (remote s2) = attached (remote s))
    ∧ disk (local s2) = without tp (disk (local s)).
Proof.
  intros n fid Hnew Hv Hsz Hc Hio Hout Hfid.
  destruct (upload_one_run f s Hnew Hv Hsz Hc Hio)
    as (info & s1 & E1 & Hfiles1 & Hname & Hid & Hvs1 & Has1 & Hc1 & _ & Hio1
        & Hd1 & Hst1 & Hat1 & Hcalls1 & Hout1).
  { specialize (Hout 0 ltac:(lia)). by rewrite Nat.add_0_r in Hout. }
  { intros _. specialize (Hout 1 ltac:(lia)). by rewrite Nat.add_1_r in Hout. }
  fold n in Hid. fold fid in Hid.
  assert (Forall (λ g, original_name g ≠ name f)
                 (uploaded_files (file_manager s))) as Hpre.
  { apply Forall_forall. intros g Hg Hn.
    assert (has_file_with_name (file_manager s) (name f) = true); [|congruence].
    apply has_file_with_name_elem, list_elem_of_fmap. eauto. }
  set (indexed := truthy (vector_store_id (file_manager s))) in *.
  assert (length (calls (remote s1)) = n + (if indexed then 2 else 1)) as Hlen1.
  { rewrite Hcalls1, length_app. fold n. destruct indexed; simpl; lia. }
  destruct (remove_file_from_openai_run (name f) s1
              (uploaded_files (file_manager s)) [] info)
    as (s1' & E1' & Hfm1' & Hd1' & Hio1' & _ & Hst1' & Hat1'); try done.
  { by rewrite Hid. }
  { rewrite Hout1, Hlen1. apply Hout. destruct indexed; lia. }
  { rewrite Hout1, Hlen1.
    replace (S (n + (if indexed then 2 else 1)))
      with (n + (if indexed then 3 else 2)) by (destruct indexed; lia).
    apply Hout. destruct indexed; lia. }
  destruct (remove_file_run (name f) s1'
              (uploaded_files (file_manager s)) [] info)
    as (s2 & E2 & Hfiles2 & Hvs2 & Has2 & Hr2 & _); try done.
  { by rewrite Hfm1'. }
  destruct (cleanup_temp_file_run (temp_path info) s1')
    as (s1c & Ec & _ & _ & _ & _ & _ & _ & Hdc).
  assert (disk (local s2) = without (temp_path info) (disk (local s)))
    as Hdisk.
  { (* the state after [remove_file] holds the disk of the cleanup *)
    unfold remove_file in E2. erewrite bind_ok in E2 by reflexivity.
    rewrite Hfm1', Hfiles1 in E2.
    destruct (remove_file_loop_run (name f) info [] s1' Hname
                (uploaded_files (file_manager s)) [] Hpre)
      as (s1c' & Ec' & Hloop).
    { by rewrite Hfm1'. }
    simpl in Hloop. rewrite Hloop in E2. injection E2 as <-.
    rewrite Ec in Ec'. injection Ec' as <-. simpl.
    rewrite Hdc, Hd1', Hio1', Hio1, Hio, Hd1. unfold on_disk at 1. simpl.
    unfold str_eqb at 1. rewrite bool_decide_eq_true_2 by done. simpl.
    apply without_idem. }
  exists s1, s2, (temp_path info). split; [done|].
  split.
  { unfold remove_file_completely. erewrite bind_ok by reflexivity.
    rewrite Hc1. destruct (openai_client s) as [c|]; [|done].
    erewrite (bind_ok _ _ s1 s1' tt) by (by erewrite bind_ok by exact E1').
    exact E2. }
  rewrite Hfiles2, app_nil_r, Hvs2, Has2, Hfm1', Hvs1, Has1, Hr2.
  split_and!; try done.
  - intros Hfresh. rewrite Hst1', Hst1, Hid. by apply filter_out_appended.
  - intros Hfresh. rewrite Hat1', Hat1, Hvs1, Hid. fold indexed.
    destruct indexed; [|by rewrite app_nil_r].
    by apply filter_out_appended.
Qed.
End round_trip.

(** [upload_then_remove_restores] at [slides.txt], in the session that
    tracks [notes.pdf] and has a vector store. *)
Lemma upload_then_remove_restores_witness :
  let s := session_with_notes in
  let fid := fresh_id (remote s) (length (calls (remote s))) in
  ∃ s1 s2 tp,
    upload_one (H := ascii_names) slides_txt s = (Ok tt, s1)
    ∧ remove_file_completely (name slides_txt) s1 = (Ok true, s2)
    ∧ uploaded_files (file_manager s2) = uploaded_files (file_manager s)
    ∧ vector_store_id (file_manager s2) = vector_store_id (file_manager s)
    ∧ assistant_id (file_manager s2) = assistant_id (file_manager s)
    ∧ (fid ∉ stored_files (remote s) →
       stored_files (remote s2) = stored_files (remote s))
    ∧ ((default [] (vector_store_id (file_manager s)), fid)
         ∉ attached (remote s) →
       attached (remote s2) = attached (remote s))
    ∧ disk (local s2) = without tp (disk (local s)).
Proof.
  intros s.
  apply (upload_then_remove_restores (H := ascii_names) slides_txt s).
  - vm_compute. reflexivity.
  - vm_compute. reflexivity.
  - vm_compute. reflexivity.
  - vm_compute. discriminate.
  - intros path. vm_compute. reflexivity.
  - intros i _. vm_compute. reflexivity.
  - vm_compute. discriminate.
Defined.

End round_trip_properties.

(* ================================================================= *)
(** ** Vector store and assistant *)

Module setup_properties.
Import config utils file_manager main spec samples.
Import registry_properties upload_properties.

#[local] Arguments lit : simpl never.

(** A remote call that the platform answers. *)
Lemma remote_request_ok {A} (call : remote_call) (effect : Remote → Remote)
      (answer : Remote → nat → A) (s : Session) :
  outage (remote s) (length (calls (remote s))) = false →
  ∃ s', remote_request call effect answer s
        = (Ok (answer (remote s) (length (calls (remote s)))), s')
        ∧ file_manager s' = file_manager s
        ∧ openai_client s' = openai_client s
        ∧ sidebar s' = sidebar s
        ∧ stored_files (remote s') = stored_files (effect (remote s))
        ∧ attached (remote s') = attached (effect (remote s))
        ∧ calls (remote s') = calls (remote s) ++ [call]
        ∧ outage (remote s') = outage (remote s)
        ∧ fresh_id (remote s') = fresh_id (remote s).
Proof.
  intros Ho. unfold remote_request, block. run_monad. rewrite Ho. simpl.
  eexists. split_and!; reflexivity.
Qed.

(** A remote call that fails in transport: it is logged and changes
    nothing else on the platform. *)
Lemma remote_request_fails {A} (call : remote_call) (effect : Remote → Remote)
      (answer : Remote → nat → A) (s : Session) :
  outage (remote s) (length (calls (remote s))) = true →
  ∃ s', remote_request call effect answer s = (Err (APIError call), s')
        ∧ file_manager s' = file_manager s
        ∧ openai_client s' = openai_client s
        ∧ sidebar s' = sidebar s
        ∧ stored_files (remote s') = stored_files (remote s)
        ∧ attached (remote s') = attached (remote s)
        ∧ calls (remote s') = calls (remote s) ++ [call]
        ∧ outage (remote s') = outage (remote s)
        ∧ fresh_id (remote s') = fresh_id (remote s).
Proof.
  intros Ho. unfold remote_request, block. run_monad. rewrite Ho. simpl.
  eexists. split_and!; reflexivity.
Qed.

Lemma attach_files_run (vs : str) (k : nat) :
  ∀ (ids : list str) (s : Session),
    k ≤ length ids →
    (∀ i, i < k →
          outage (remote s) (length (calls (remote s)) + i) = false) →
    ∃ s1,
      openai_client.attach_files_to_vector_store vs ids s
      = openai_client.attach_files_to_vector_store vs (drop k ids) s1
      ∧ file_manager s1 = file_manager s
      ∧ openai_client s1 = openai_client s
      ∧ sidebar s1 = sidebar s
      ∧ stored_files (remote s1) = stored_files (remote s)
      ∧ attached (remote s1)
        = attached (remote s) ++ (pair vs <$> take k ids)
      ∧ calls (remote s1)
        = calls (remote s) ++ (VectorStoreFilesCreate vs <$> take k ids)
      ∧ outage (remote s1) = outage (remote s)
      ∧ fresh_id (remote s1) = fresh_id (remote s).
Proof.
  induction k as [|k IH]; intros ids s Hk Ho.
  - exists s. rewrite drop_0, take_0. simpl. rewrite !app_nil_r. done.
  - destruct ids as [|fid ids]; [simpl in Hk; lia|]. simpl in Hk.
    destruct (remote_request_ok (VectorStoreFilesCreate vs fid)
                (with_attached (λ l, l ++ [(vs, fid)])) (λ _ _, tt) s)
      as (s0 & E0 & Hfm0 & Hc0 & Hsb0 & Hst0 & Hat0 & Hcalls0 & Hout0 & Hfr0).
    { specialize (Ho 0 ltac:(lia)). by rewrite Nat.add_0_r in Ho. }
    destruct (IH ids s0 ltac:(lia))
      as (s1 & E1 & Hfm1 & Hc1 & Hsb1 & Hst1 & Hat1 & Hcalls1 & Hout1 & Hfr1).
    { intros i Hi. rewrite Hout0, Hcalls0, length_app. simpl.
      specialize (Ho (S i) ltac:(lia)).
      by replace (length (calls (remote s)) + 1 + i)
        with (length (calls (remote s)) + S i) by lia. }
    exists s1. simpl.
    unfold openai_client.attach_file_to_vector_store at 1.
    erewrite bind_ok by exact E0.
    split_and!.
    + done.
    + congruence.
    + congruence.
    + congruence.
    + by rewrite Hst1, Hst0.
    + rewrite Hat1, Hat0. simpl. by rewrite <- app_assoc.
    + rewrite Hcalls1, Hcalls0. simpl. by rewrite <- app_assoc.
    + congruence.
    + congruence.
Qed.

(** X21.  [attach_files_to_vector_store] stops at the first call that
    fails: the ids before it are attached, the id of the failing call and
    those after it are not, and the error of that call is raised. *)
Theorem attach_files_stops_at_first_failure (vs : str) (ids : list str)
        (s : Session) (k : nat) (fid : str) :
  let n := length (calls (remote s)) in
  ids !! k = Some fid →
  (∀ i, i < k → outage (remote s) (n + i) = false) →
  outage (remote s) (n + k) = true →
  ∃ s', openai_client.attach_files_to_vector_store vs ids s
        = (Err (APIError (VectorStoreFilesCreate vs fid)), s')
        ∧ attached (remote s')
          = attached (remote s) ++ (pair vs <$> take k ids)
        ∧ calls (remote s')
          = calls (remote s) ++ (VectorStoreFilesCreate vs <$> take (S k) ids).
Proof.
  intros n Hk Ho Hfail.
  pose proof (lookup_lt_Some _ _ _ Hk) as Hlt.
  destruct (attach_files_run vs k ids s ltac:(lia) Ho)
    as (s1 & E1 & _ & _ & _ & _ & Hat1 & Hcalls1 & Hout1 & _).
  rewrite E1. rewrite (drop_S _ _ _ Hk). simpl.
  destruct (remote_request_fails (VectorStoreFilesCreate vs fid)
              (with_attached (λ l, l ++ [(vs, fid)])) (λ _ _, tt) s1)
    as (s2 & E2 & _ & _ & _ & _ & Hat2 & Hcalls2 & _).
  { rewrite Hout1, Hcalls1, length_app, length_fmap, length_take.
    by replace (k `min` length ids) with k by lia. }
  exists s2. unfold openai_client.attach_file_to_vector_store at 1.
  erewrite bind_err by exact E2.
  split_and!; [done|congruence|].
  rewrite Hcalls2, Hcalls1, (take_S_r _ _ _ Hk), fmap_app.
  by rewrite <- app_assoc.
Qed.

(** [attach_files_stops_at_first_failure] at three ids on a platform
    whose second call fails. *)
Lemma attach_files_stops_at_first_failure_witness :
  let s := starting_session (λ n, n =? 1) in
  ∃ s', openai_client.attach_files_to_vector_store (lit "vs")
          [lit "a"; lit "b"; lit "c"] s
        = (Err (APIError (VectorStoreFilesCreate (lit "vs") (lit "b"))), s')
        ∧ attached (remote s')
          = attached (remote s)
            ++ (pair (lit "vs") <$> take 1 [lit "a"; lit "b"; lit "c"])
        ∧ calls (remote s')
          = calls (remote s)
            ++ (VectorStoreFilesCreate (lit "vs")
                  <$> take 2 [lit "a"; lit "b"; lit "c"]).
Proof.
  intros s.
  apply (attach_files_stops_at_first_failure (lit "vs")
           [lit "a"; lit "b"; lit "c"] s 1 (lit "b")).
  - reflexivity.
  - intros [|i] Hi; [reflexivity|lia].
  - reflexivity.
Defined.

Lemma attach_files_all (vs : str) (ids : list str) (s : Session) :
  (∀ i, i < length ids →
        outage (remote s) (length (calls (remote s)) + i) = false) →
  ∃ s1,
    (match ids with
     | [] => mret tt
     | _ :: _ => openai_client.attach_files_to_vector_store vs ids
     end) s = (Ok tt, s1)
    ∧ file_manager s1 = file_manager s
    ∧ openai_client s1 = openai_client s
    ∧ sidebar s1 = sidebar s
    ∧ stored_files (remote s1) = stored_files (remote s)
    ∧ attached (remote s1) = attached (remote s) ++ (pair vs <$> ids)
    ∧ calls (remote s1)
      = calls (remote s) ++ (VectorStoreFilesCreate vs <$> ids)
    ∧ outage (remote s1) = outage (remote s)
    ∧ fresh_id (remote s1) = fresh_id (remote s).
Proof.
  intros Ho.
  destruct (attach_files_run vs (length ids) ids s ltac:(lia) Ho)
    as (s1 & E1 & Hrest).
  rewrite drop_all in E1. rewrite firstn_all in Hrest.
  exists s1. split; [|done].
  destruct ids; [|done]. simpl in E1. by injection E1 as ->.
Qed.

(** X22.  With documents tracked, a client, no complete set-up yet and a
    platform that answers, [setup_vector_store_and_assistant] creates a
    vector store, attaches to it every remote id of the registry, in
    order, creates an assistant on that store, and records both ids; the
    documents are as before and the sidebar reports the assistant
    ready. *)
Theorem setup_creates_store_and_assistant (s : Session) :
  let n := length (calls (remote s)) in
  let ids := get_all_file_ids (file_manager s) in
  let vs := fresh_id (remote s) n in
  has_files (file_manager s) = true →
  truthy (vector_store_id (file_manager s))
  && truthy (assistant_id (file_manager s)) = false →
  openai_client s ≠ None →
  (∀ i, i ≤ S (length ids) → outage (remote s) (n + i) = false) →
  ∃ s', setup_vector_store_and_assistant s = (Ok tt, s')
        ∧ uploaded_files (file_manager s') = uploaded_files (file_manager s)
        ∧ vector_store_id (file_manager s') = Some vs
        ∧ assistant_id (file_manager s')
          = Some (fresh_id (remote s) (n + S (length ids)))
        ∧ attached (remote s') = attached (remote s) ++ (pair vs <$> ids)
        ∧ calls (remote s')
          = calls (remote s)
            ++ [VectorStoresCreate (lit "StudyBuddyVectorStore")]
            ++ (VectorStoreFilesCreate vs <$> ids)
            ++ [AssistantsCreate (lit "Study Buddy") [vs]]
        ∧ sidebar s' = sidebar s ++ [AssistantReady].
Proof.
  intros n ids vs Hfiles Hnot Hc Ho.
  unfold setup_vector_store_and_assistant.
  erewrite bind_ok by reflexivity. rewrite Hfiles, Hnot. simpl.
  destruct (openai_client s) as [c|] eqn:Ec; [|done].
  (* the vector store *)
  destruct (remote_request_ok (VectorStoresCreate (lit "StudyBuddyVectorStore"))
              id (λ r n, fresh_id r n) s)
    as (s1 & E1 & Hfm1 & Hc1 & Hsb1 & Hst1 & Hat1 & Hcalls1 & Hout1 & Hfr1).
  { specialize (Ho 0 ltac:(lia)). by rewrite Nat.add_0_r in Ho. }
  fold n in E1. fold vs in E1.
  set (s2 := set_file_manager
               (set_vector_store_id (Some vs) (file_manager s1)) s1).
  (* the attachments *)
  assert (get_all_file_ids (file_manager s2) = ids) as Hids.
  { unfold s2, ids, get_all_file_ids. simpl. by rewrite Hfm1. }
  destruct (attach_files_all vs ids s2)
    as (s3 & E3 & Hfm3 & Hc3 & Hsb3 & Hst3 & Hat3 & Hcalls3 & Hout3 & Hfr3).
  { intros i Hi. simpl. rewrite Hout1, Hcalls1, length_app. simpl.
    specialize (Ho (S i) ltac:(lia)). fold n.
    by replace (n + 1 + i) with (n + S i) by lia. }
  (* the assistant *)
  destruct (remote_request_ok (AssistantsCreate (lit "Study Buddy") [vs])
              id (λ r n, fresh_id r n) s3)
    as (s4 & E4 & Hfm4 & Hc4 & Hsb4 & Hst4 & Hat4 & Hcalls4 & Hout4 & Hfr4).
  { rewrite Hout3, Hcalls3. simpl. rewrite Hout1, Hcalls1.
    rewrite !length_app, length_fmap. simpl. fold n.
    specialize (Ho (S (length ids)) ltac:(lia)).
    by replace (n + 1 + length ids) with (n + S (length ids)) by lia. }
  assert (length (calls (remote s3)) = n + S (length ids)) as Hlen3.
  { rewrite Hcalls3. simpl. rewrite Hcalls1.
    rewrite !length_app, length_fmap. simpl. fold n. lia. }
  rewrite Hlen3, Hfr3 in E4. simpl in E4. rewrite Hfr1 in E4.
  erewrite try_ok.
  2: { erewrite bind_ok by reflexivity. rewrite Ec.
       unfold openai_client.create_vector_store.
       erewrite bind_ok by exact E1.
       erewrite bind_ok by reflexivity. fold s2.
       erewrite bind_ok by reflexivity. rewrite Hids.
       erewrite bind_ok by exact E3.
       unfold openai_client.create_assistant.
       erewrite bind_ok by exact E4.
       erewrite bind_ok by reflexivity. reflexivity. }
  eexists. split; [reflexivity|]. simpl. unfold id in *.
  rewrite Hfm4, Hfm3, Hat4, Hat3, Hcalls4, Hcalls3, Hsb4, Hsb3. simpl.
  rewrite Hfm1, Hat1, Hcalls1, Hsb1. simpl.
  split_and!; try done. by rewrite <- !app_assoc.
Qed.

(** [setup_creates_store_and_assistant] at the session in which
    [notes.pdf] and [slides.txt] were uploaded. *)
Lemma setup_creates_store_and_assistant_witness :
  let s := (handle_file_upload (H := ascii_names) [notes_pdf; slides_txt]
              fresh_session).2 in
  let n := length (calls (remote s)) in
  let ids := get_all_file_ids (file_manager s) in
  let vs := fresh_id (remote s) n in
  ∃ s', setup_vector_store_and_assistant s = (Ok tt, s')
        ∧ uploaded_files (file_manager s') = uploaded_files (file_manager s)
        ∧ vector_store_id (file_manager s') = Some vs
        ∧ assistant_id (file_manager s')
          = Some (fresh_id (remote s) (n + S (length ids)))
        ∧ attached (remote s') = attached (remote s) ++ (pair vs <$> ids)
        ∧ calls (remote s')
          = calls (remote s)
            ++ [VectorStoresCreate (lit "StudyBuddyVectorStore")]
            ++ (VectorStoreFilesCreate vs <$> ids)
            ++ [AssistantsCreate (lit "Study Buddy") [vs]]
        ∧ sidebar s' = sidebar s ++ [AssistantReady].
Proof.
  intros s.
  apply (setup_creates_store_and_assistant s).
  - vm_compute. reflexivity.
  - vm_compute. reflexivity.
  - vm_compute. discriminate.
  - intros i _. reflexivity.
Defined.

(** A remote call is logged whether it fails or not, and leaves the
    registry alone. *)
Lemma remote_request_logged {A} (call : remote_call)
      (effect : Remote → Remote) (answer : Remote → nat → A) (s : Session) :
  ∃ r s', remote_request call effect answer s = (r, s')
          ∧ file_manager s' = file_manager s
          ∧ calls (remote s') = calls (remote s) ++ [call].
Proof.
  unfold remote_request, block. run_monad.
  destruct (outage _ _); simpl; eauto.
Qed.

Lemma attach_files_logged (vs : str) (ids : list str) :
  ∀ s, ∃ r s', openai_client.attach_files_to_vector_store vs ids s = (r, s')
               ∧ file_manager s' = file_manager s
               ∧ calls (remote s) `prefix_of` calls (remote s').
Proof.
  induction ids as [|fid ids IH]; intros s; simpl.
  - by exists (Ok tt), s.
  - destruct (remote_request_logged (VectorStoreFilesCreate vs fid)
                (with_attached (λ l, l ++ [(vs, fid)])) (λ _ _, tt) s)
      as ([[]|e] & s1 & E1 & Hfm1 & Hcalls1).
    + destruct (IH s1) as (r & s2 & E2 & Hfm2 & Hcalls2).
      exists r, s2.
      unfold openai_client.attach_file_to_vector_store at 1.
      erewrite bind_ok by exact E1. split_and!; [done|congruence|].
      etrans; [|exact Hcalls2]. rewrite Hcalls1. by apply prefix_app_r.
    + eexists _, s1.
      unfold openai_client.attach_file_to_vector_store at 1.
      erewrite bind_err by exact E1. split_and!; [done|done|].
      rewrite Hcalls1. by apply prefix_app_r.
Qed.

(** X23.  Whenever documents are tracked and no assistant id is recorded,
    [setup_vector_store_and_assistant] starts by creating a vector store,
    also when a vector store id is already recorded (the assistant could
    not be created on an earlier run).  Once the platform has answered that
    call the new id is recorded in place of the old one, whatever happens
    to the calls that follow; nothing is raised. *)
Theorem setup_without_assistant_creates_new_store (s : Session) :
  let n := length (calls (remote s)) in
  has_files (file_manager s) = true →
  truthy (assistant_id (file_manager s)) = false →
  openai_client s ≠ None →
  outage (remote s) n = false →
  ∃ s', setup_vector_store_and_assistant s = (Ok tt, s')
        ∧ vector_store_id (file_manager s') = Some (fresh_id (remote s) n)
        ∧ uploaded_files (file_manager s') = uploaded_files (file_manager s)
        ∧ (calls (remote s)
             ++ [VectorStoresCreate (lit "StudyBuddyVectorStore")])
            `prefix_of` calls (remote s').
Proof.
  intros n Hfiles Ha Hc Ho.
  unfold setup_vector_store_and_assistant.
  erewrite bind_ok by reflexivity. rewrite Hfiles, Ha, andb_false_r. simpl.
  destruct (openai_client s) as [c|] eqn:Ec; [|done].
  destruct (remote_request_ok (VectorStoresCreate (lit "StudyBuddyVectorStore"))
              id (λ r n, fresh_id r n) s Ho)
    as (s1 & E1 & Hfm1 & _ & _ & _ & _ & Hcalls1 & _).
  fold n in E1.
  set (vs := fresh_id (remote s) n) in *.
  set (s2 := set_file_manager
               (set_vector_store_id (Some vs) (file_manager s1)) s1).
  assert (∀ (r : result unit) s3,
            vector_store_id (file_manager s3) = Some vs →
            uploaded_files (file_manager s3) = uploaded_files (file_manager s) →
            calls (remote s2) `prefix_of` calls (remote s3) →
            ∃ s',
              match r with
              | Ok a => (Ok a, s3)
              | Err e =>
                  modify (show (FailedToCreateVectorStoreOrAssistant e)) s3
              end = (Ok tt, s')
              ∧ vector_store_id (file_manager s') = Some vs
              ∧ uploaded_files (file_manager s')
                = uploaded_files (file_manager s)
              ∧ (calls (remote s)
                   ++ [VectorStoresCreate (lit "StudyBuddyVectorStore")])
                  `prefix_of` calls (remote s')) as Hend.
  { intros r s3 Hvs3 Hf3 Hp3. simpl in Hp3. rewrite Hcalls1 in Hp3.
    destruct r as [[]|e]; eexists; (split; [reflexivity|]); done. }
  unfold try_except.
  erewrite bind_ok by reflexivity. rewrite Ec.
  unfold openai_client.create_vector_store.
  erewrite bind_ok by exact E1.
  erewrite bind_ok by reflexivity. fold s2.
  erewrite bind_ok by reflexivity.
  assert (∃ r s3,
            (match get_all_file_ids (file_manager s2) with
             | [] => mret tt
             | _ :: _ =>
                 openai_client.attach_files_to_vector_store vs
                   (get_all_file_ids (file_manager s2))
             end) s2 = (r, s3)
            ∧ file_manager s3 = file_manager s2
            ∧ calls (remote s2) `prefix_of` calls (remote s3))
    as (r3 & s3 & E3 & Hfm3 & Hp3).
  { destruct (get_all_file_ids (file_manager s2)) eqn:Eids.
    - by exists (Ok tt), s2.
    - apply attach_files_logged. }
  assert (vector_store_id (file_manager s2) = Some vs) as Hvs2 by done.
  assert (uploaded_files (file_manager s2) = uploaded_files (file_manager s))
    as Hf2 by (simpl; by rewrite Hfm1).
  destruct r3 as [[]|e].
  2: { erewrite bind_err by exact E3.
       apply (Hend (Err e)); [congruence|congruence|done]. }
  erewrite bind_ok by exact E3.
  destruct (remote_request_logged (AssistantsCreate (lit "Study Buddy") [vs])
              id (λ r n, fresh_id r n) s3)
    as ([a|e] & s4 & E4 & Hfm4 & Hcalls4).
  2: { unfold openai_client.create_assistant.
       erewrite bind_err by exact E4.
       apply (Hend (Err e)); [congruence|congruence|].
       etrans; [exact Hp3|]. rewrite Hcalls4. by apply prefix_app_r. }
  unfold openai_client.create_assistant.
  erewrite bind_ok by exact E4.
  erewrite bind_ok by reflexivity.
  apply (Hend (Ok tt)); simpl.
  - congruence.
  - congruence.
  - etrans; [exact Hp3|]. rewrite Hcalls4. by apply prefix_app_r.
Qed.

(** [setup_without_assistant_creates_new_store] at the session in which
    [notes.pdf] was uploaded and the creation of the assistant (the fourth
    call) failed: the vector store [id-1] is recorded. *)
Lemma setup_without_assistant_creates_new_store_witness :
  let s := (script_run [notes_pdf] (starting_session (λ n, n =? 3))).2 in
  vector_store_id (file_manager s) = Some (lit "id-1")
  ∧ ∃ s', setup_vector_store_and_assistant s = (Ok tt, s')
          ∧ vector_store_id (file_manager s')
            = Some (fresh_id (remote s) (length (calls (remote s))))
          ∧ uploaded_files (file_manager s') = uploaded_files (file_manager s)
          ∧ (calls (remote s)
               ++ [VectorStoresCreate (lit "StudyBuddyVectorStore")])
              `prefix_of` calls (remote s').
Proof.
  intros s. split; [vm_compute; reflexivity|].
  apply (setup_without_assistant_creates_new_store s).
  - vm_compute. reflexivity.
  - vm_compute. reflexivity.
  - vm_compute. discriminate.
  - vm_compute. reflexivity.
Defined.

(** X24.  With no document tracked the block of the script that follows the
    uploads makes no remote call and touches no file: it forgets the
    recorded ids and asks for a rerun exactly when one of them is recorded,
    and run again it does nothing.  The vector store and the assistant
    themselves stay on the platform. *)
Theorem sync_block_without_documents (s : Session) :
  uploaded_files (file_manager s) = [] →
  ∃ s', sync_block s = (Ok (needs_vector_store_update (file_manager s)), s')
        ∧ truthy (vector_store_id (file_manager s')) = false
        ∧ truthy (assistant_id (file_manager s')) = false
        ∧ remote s' = remote s
        ∧ local s' = local s
        ∧ sync_block s' = (Ok false, s').
Proof.
  intros Hf. unfold sync_block, has_files, needs_vector_store_update,
    on_file_manager.
  run_monad. rewrite Hf. simpl.
  destruct (truthy (vector_store_id (file_manager s))) eqn:Hvs; simpl.
  - eexists. split; [reflexivity|]. simpl. rewrite Hf. done.
  - destruct (truthy (assistant_id (file_manager s))) eqn:Has; simpl.
    + eexists. split; [reflexivity|]. simpl. rewrite Hf. done.
    + exists s. rewrite Hf, Hvs, Has. done.
Qed.

(** [sync_block_without_documents] at the session from which [notes.pdf]
    was just removed. *)
Lemma sync_block_without_documents_witness :
  let s := (remove_clicked (lit "notes.pdf") session_with_notes).2 in
  ∃ s', sync_block s = (Ok (needs_vector_store_update (file_manager s)), s')
        ∧ truthy (vector_store_id (file_manager s')) = false
        ∧ truthy (assistant_id (file_manager s')) = false
        ∧ remote s' = remote s
        ∧ local s' = local s
        ∧ sync_block s' = (Ok false, s').
Proof.
  intros s. apply (sync_block_without_documents s).
  vm_compute. reflexivity.
Defined.

End setup_properties.

(* ================================================================= *)
(** ** More on the job poller *)

Module more_poller_properties.
Import openai_client spec samples.
Import registry_properties upload_properties poller_properties.

(** [k] polls that reach the platform, report a non-terminal status and
    start before the timeout has elapsed: the loop is then where it
    started, [k] calls and at most [k * (1 + 2 * lag)] seconds later. *)
Lemma poll_skips (timeout : Z) (thread_id run_id : str) (start lag : Q)
      (k : nat) :
  ∀ (fuel : nat) (s : Session),
    (0 <= lag)%Q →
    (∀ m, elapse (local s) m <= lag)%Q →
    (now (local s) - start + inject_Z (Z.of_nat k) * (1 + 2 * lag)
     <= inject_Z timeout)%Q →
    (∀ i, i < k →
          outage (remote s) (length (calls (remote s)) + i) = false
          ∧ run_status_at (remote s) (length (calls (remote s)) + i)
            ∉ terminal_statuses) →
    ∃ s1,
      poll (k + fuel) thread_id run_id timeout start s
      = poll fuel thread_id run_id timeout start s1
      ∧ calls (remote s1)
        = calls (remote s) ++ replicate k (RunsRetrieve thread_id run_id)
      ∧ outage (remote s1) = outage (remote s)
      ∧ run_status_at (remote s1) = run_status_at (remote s)
      ∧ (now (local s1) - start
         <= now (local s) - start + inject_Z (Z.of_nat k) * (1 + 2 * lag))%Q.
Proof.
  induction k as [|k IH]; intros fuel s Hlag Hel Htime Hst.
  - exists s. simpl. rewrite app_nil_r. split_and!; try done.
    change (inject_Z (Z.of_nat 0)) with 0%Q. lra.
  - rewrite inject_Z_succ in Htime.
    destruct (Hst 0 ltac:(lia)) as [Hout Hs]. rewrite Nat.add_0_r in Hout, Hs.
    simpl. unfold time_time. run_monad.
    assert (Qle_bool (now (local s) - start) (inject_Z timeout) = true) as ->.
    { apply Qle_bool_iff.
      assert (0 <= inject_Z (Z.of_nat k))%Q.
      { change 0%Q with (inject_Z 0). rewrite <- Zle_Qle. lia. }
      nra. }
    simpl.
    unfold runs_retrieve, remote_request, block, time_sleep, block. run_monad.
    rewrite Hout. simpl. rewrite bool_decide_eq_false_2 by done.
    match goal with
    | |- ∃ s1, poll _ _ _ _ _ ?s' = _ ∧ _ =>
        destruct (IH fuel s') as (s1 & E & Hcalls & Ho & Hr & Hnow)
    end.
    + done.
    + simpl. done.
    + simpl. pose proof (Hel (blocking_ops (local s))).
      pose proof (Hel (S (blocking_ops (local s)))). lra.
    + intros i Hi. simpl. rewrite length_app. simpl.
      specialize (Hst (S i) ltac:(lia)).
      by replace (length (calls (remote s)) + 1 + i)
        with (length (calls (remote s)) + S i) by lia.
    + exists s1. simpl in *. split_and!; try done.
      * rewrite Hcalls. by rewrite <- app_assoc.
      * rewrite inject_Z_succ.
        pose proof (Hel (blocking_ops (local s))).
        pose proof (Hel (S (blocking_ops (local s)))). lra.
Qed.

(** X25.  A run that reaches a terminal status at its [k]-th poll (counting
    from 0) is returned, with that status, whichever of the four it is,
    after exactly [k + 1] calls: when the platform answers these polls,
    no operation takes more than [lag] seconds longer than asked, and
    [k * (1 + 2 * lag)] seconds fit in the timeout. *)
Theorem wait_returns_terminal_run (s : Session) (thread_id run_id : str)
        (timeout : Z) (fuel k : nat) (lag : Q) :
  let n := length (calls (remote s)) in
  (0 <= lag)%Q →
  (∀ m, elapse (local s) m <= lag)%Q →
  (inject_Z (Z.of_nat k) * (1 + 2 * lag) <= inject_Z timeout)%Q →
  (∀ i, i ≤ k → outage (remote s) (n + i) = false) →
  (∀ i, i < k → run_status_at (remote s) (n + i) ∉ terminal_statuses) →
  run_status_at (remote s) (n + k) ∈ terminal_statuses →
  k < fuel →
  ∃ s', wait_for_run_completion fuel thread_id run_id timeout s
        = (Ok (Some {| status := run_status_at (remote s) (n + k) |}), s')
        ∧ calls (remote s')
          = calls (remote s)
            ++ replicate (S k) (RunsRetrieve thread_id run_id).
Proof.
  intros n Hlag Hel Htime Hout Hnt Hterm Hfuel.
  unfold wait_for_run_completion, time_time. run_monad.
  destruct fuel as [|fuel]; [lia|].
  replace (S fuel) with (k + S (fuel - k)) by lia.
  destruct (poll_skips timeout thread_id run_id (now (local s)) lag k
              (S (fuel - k)) s) as (s1 & E & Hcalls & Ho & Hr & Hnow);
    try done.
  { lra. }
  { intros i Hi. split; [apply Hout; lia|by apply Hnt]. }
  rewrite E. simpl. unfold time_time. run_monad.
  assert (Qle_bool (now (local s1) - now (local s)) (inject_Z timeout) = true)
    as ->.
  { apply Qle_bool_iff. lra. }
  simpl. unfold runs_retrieve, remote_request, block. run_monad.
  rewrite Ho, Hr, Hcalls, length_app, length_replicate. fold n.
  rewrite Hout by lia. simpl.
  rewrite bool_decide_eq_true_2 by done.
  eexists. split; [reflexivity|]. simpl.
  rewrite <- app_assoc. f_equal.
  change [RunsRetrieve thread_id run_id]
    with (replicate 1 (RunsRetrieve thread_id run_id)).
  rewrite <- replicate_add. by rewrite Nat.add_1_r.
Qed.

(** [wait_returns_terminal_run] at a run that is [in_progress] at two
    polls and [failed] at the third, with a timeout of 5 seconds. *)
Lemma wait_returns_terminal_run_witness :
  let s :=
    set_remote
      {| stored_files := []; attached := []; calls := [];
         outage := λ _, false;
         fresh_id := λ n, lit "id-" ++ str_of_nat n;
         run_status_at := λ n, if n <? 2 then lit "in_progress"
                               else lit "failed" |}
      fresh_session in
  ∃ s', wait_for_run_completion 10 (lit "thread_1") (lit "run_1") 5 s
        = (Ok (Some {| status := run_status_at (remote s)
                                   (length (calls (remote s)) + 2) |}), s')
        ∧ calls (remote s')
          = calls (remote s)
            ++ replicate 3 (RunsRetrieve (lit "thread_1") (lit "run_1")).
Proof.
  intros s.
  apply (wait_returns_terminal_run s (lit "thread_1") (lit "run_1") 5 10 2 0).
  - lra.
  - intros m. simpl. lra.
  - vm_compute. discriminate.
  - intros i _. reflexivity.
  - intros [|[|i]] Hi; [| |lia];
      (intros Hin; pose proof (bool_decide_pack _ Hin) as Hb;
       vm_compute in Hb; exact Hb).
  - refine (bool_decide_unpack _ _). vm_compute. exact I.
  - lia.
Defined.

(** X26.  A poll that fails in transport ends the wait with the error of
    that call: [wait_for_run_completion] has no handler, and does not poll
    again. *)
Theorem wait_propagates_failed_poll (s : Session) (thread_id run_id : str)
        (timeout : Z) (fuel k : nat) (lag : Q) :
  let n := length (calls (remote s)) in
  (0 <= lag)%Q →
  (∀ m, elapse (local s) m <= lag)%Q →
  (inject_Z (Z.of_nat k) * (1 + 2 * lag) <= inject_Z timeout)%Q →
  (∀ i, i < k → outage (remote s) (n + i) = false
                ∧ run_status_at (remote s) (n + i) ∉ terminal_statuses) →
  outage (remote s) (n + k) = true →
  k < fuel →
  ∃ s', wait_for_run_completion fuel thread_id run_id timeout s
        = (Err (APIError (RunsRetrieve thread_id run_id)), s')
        ∧ calls (remote s')
          = calls (remote s)
            ++ replicate (S k) (RunsRetrieve thread_id run_id).
Proof.
  intros n Hlag Hel Htime Hst Hfail Hfuel.
  unfold wait_for_run_completion, time_time. run_monad.
  destruct fuel as [|fuel]; [lia|].
  replace (S fuel) with (k + S (fuel - k)) by lia.
  destruct (poll_skips timeout thread_id run_id (now (local s)) lag k
              (S (fuel - k)) s) as (s1 & E & Hcalls & Ho & Hr & Hnow);
    try done.
  { lra. }
  rewrite E. simpl. unfold time_time. run_monad.
  assert (Qle_bool (now (local s1) - now (local s)) (inject_Z timeout) = true)
    as ->.
  { apply Qle_bool_iff. lra. }
  simpl. unfold runs_retrieve, remote_request, block. run_monad.
  rewrite Ho, Hcalls, length_app, length_replicate. fold n.
  rewrite Hfail. simpl.
  eexists. split; [reflexivity|]. simpl.
  rewrite <- app_assoc. f_equal.
  change [RunsRetrieve thread_id run_id]
    with (replicate 1 (RunsRetrieve thread_id run_id)).
  rewrite <- replicate_add. by rewrite Nat.add_1_r.
Qed.

(** [wait_propagates_failed_poll] at a platform whose second call
    fails. *)
Lemma wait_propagates_failed_poll_witness :
  let s := starting_session (λ n, n =? 1) in
  ∃ s', wait_for_run_completion 10 (lit "thread_1") (lit "run_1") 5 s
        = (Err (APIError (RunsRetrieve (lit "thread_1") (lit "run_1"))), s')
        ∧ calls (remote s')
          = calls (remote s)
            ++ replicate 2 (RunsRetrieve (lit "thread_1") (lit "run_1")).
Proof.
  intros s.
  apply (wait_propagates_failed_poll s (lit "thread_1") (lit "run_1")
           5 10 1 0).
  - lra.
  - intros m. simpl. lra.
  - vm_compute. discriminate.
  - intros [|i] Hi; [|lia]. split; [reflexivity|].
    intros Hin. pose proof (bool_decide_pack _ Hin) as Hb.
    vm_compute in Hb. exact Hb.
  - reflexivity.
  - lia.
Defined.

Lemma poll_outcomes (timeout : Z) (thread_id run_id : str) (start : Q)
      (fuel : nat) :
  ∀ s,
    match (poll fuel thread_id run_id timeout start s).1 with
    | Ok (Some run) => status run ∈ terminal_statuses
    | Ok None => True
    | Err e => e = RuntimeError_RunTimedOut timeout
               ∨ e = APIError (RunsRetrieve thread_id run_id)
    end.
Proof.
  induction fuel as [|fuel IH]; intros s; simpl; [done|].
  unfold time_time. run_monad.
  destruct (Qle_bool _ _); simpl; [|by left].
  unfold runs_retrieve, remote_request, block, time_sleep, block. run_monad.
  destruct (outage _ _); simpl; [by right|].
  destruct (bool_decide _) eqn:Ed; simpl.
  - by apply bool_decide_eq_true in Ed.
  - match goal with
    | |- context [poll fuel _ _ _ _ ?s'] => specialize (IH s')
    end.
    by destruct (poll fuel _ _ _ _ _) as [[[run|]|e] s'].
Qed.

(** X27.  Everything [wait_for_run_completion] can do, whatever the clock
    and the platform do: a run it returns has one of the four terminal
    statuses, never one that is still in progress; and what it raises is
    the timeout error or the error of a poll. *)
Theorem wait_outcomes (s : Session) (thread_id run_id : str) (timeout : Z)
        (fuel : nat) :
  match (wait_for_run_completion fuel thread_id run_id timeout s).1 with
  | Ok (Some run) => status run ∈ terminal_statuses
  | Ok None => True
  | Err e => e = RuntimeError_RunTimedOut timeout
             ∨ e = APIError (RunsRetrieve thread_id run_id)
  end.
Proof.
  unfold wait_for_run_completion, time_time. run_monad.
  apply poll_outcomes.
Qed.

End more_poller_properties.

(* ================================================================= *)
(** ** More on quiz grading *)

Module more_grading_properties.
Import Json main spec samples.
Import grading_properties.

Section grading.
Context `{PyEquality}.

Lemma grade_loop_lines (user_answers : gmap nat json)
      (questions : list json) (corrects : list str) :
  Forall2 (λ q c, getitem q (lit "correct") = Ok (JStr c))
          questions corrects →
  ∀ (selected : list json) (idx score : nat) (results : list result_line),
    length selected = length questions →
    (∀ i a, selected !! i = Some a → user_answers !! (idx + i) = Some a) →
    ∃ score',
      grade_loop questions idx user_answers score results
      = Ok (score',
            results
            ++ imap (λ i p, if same_string p.1 p.2
                            then Correct (idx + i + 1)
                            else Incorrect (idx + i + 1) (JStr p.2))
                    (zip selected corrects)).
Proof.
  induction 1 as [|q c questions corrects Hq _ IH];
    intros selected idx score results Hlen Hsel.
  - destruct selected; [|done]. simpl. rewrite app_nil_r. eauto.
  - destruct selected as [|a selected]; [done|]. simpl in *.
    rewrite Hq. specialize (Hsel 0 a eq_refl) as Ha.
    rewrite Nat.add_0_r in Ha. rewrite Ha, py_eq_string.
    assert (∀ i b, selected !! i = Some b →
                   user_answers !! (S idx + i) = Some b) as Hsel'.
    { intros i b Hi. specialize (Hsel (S i) b Hi).
      by replace (idx + S i) with (S idx + i) in Hsel by lia. }
    assert (∀ l : list (json * str),
              imap ((λ i p, if same_string p.1 p.2
                            then Correct (idx + i + 1)
                            else Incorrect (idx + i + 1) (JStr p.2)) ∘ S) l
              = imap (λ i p, if same_string p.1 p.2
                             then Correct (S idx + i + 1)
                             else Incorrect (S idx + i + 1) (JStr p.2)) l)
      as Hshift.
    { intros l. apply imap_ext. intros i p _. simpl.
      by replace (idx + S i + 1) with (S (idx + i + 1)) by lia. }
    rewrite Hshift, Nat.add_0_r.
    destruct (same_string a c).
    + edestruct (IH selected (S idx) (score + 1)) as [r Hr]; [lia|done|].
      rewrite Hr. exists r. by rewrite <- app_assoc.
    + edestruct (IH selected (S idx) score) as [r Hr]; [lia|done|].
      rewrite Hr. exists r. by rewrite <- app_assoc.
Qed.

(** X28.  The result lines of a graded quiz: one line for each item, in
    order and numbered from 1, that reads "correct" when the selection is
    the string of the item's ["correct"] field and otherwise shows that
    field. *)
Theorem quiz_result_lines (questions : list json) (corrects : list str)
        (selected : list json) (user_answers : gmap nat json) :
  Forall2 (λ q c, getitem q (lit "correct") = Ok (JStr c))
          questions corrects →
  length selected = length questions →
  (∀ i a, selected !! i = Some a → user_answers !! i = Some a) →
  ∃ g, submit_quiz (JList questions) user_answers = Ok g
       ∧ results g
         = imap (λ i p, if same_string p.1 p.2
                        then Correct (i + 1)
                        else Incorrect (i + 1) (JStr p.2))
                (zip selected corrects)
       ∧ length (results g) = length questions.
Proof.
  intros Hq Hlen Hsel. unfold submit_quiz. simpl.
  destruct (grade_loop_lines user_answers questions corrects Hq
              selected 0 0 [] Hlen Hsel) as [r Hr].
  rewrite Hr. eexists. split; [done|]. simpl. split; [done|].
  rewrite length_imap, length_zip.
  apply Forall2_length in Hq. lia.
Qed.

Lemma grade_loop_stops (user_answers : gmap nat json) (bad : json)
      (rest : list json) (e : exn) :
  getitem bad (lit "correct") = Err e →
  ∀ (good : list json) (idx score : nat) (results : list result_line),
    Forall (λ q, ∃ c, getitem q (lit "correct") = Ok c) good →
    (∀ i, i < length good → is_Some (user_answers !! (idx + i))) →
    grade_loop (good ++ bad :: rest) idx user_answers score results = Err e.
Proof.
  intros Hbad good. induction good as [|q good IH];
    intros idx score results Hgood Hsel; simpl.
  - by rewrite Hbad.
  - apply Forall_cons in Hgood as [[c Hc] Hgood]. rewrite Hc.
    destruct (Hsel 0 ltac:(simpl; lia)) as [a Ha].
    rewrite Nat.add_0_r in Ha. rewrite Ha.
    assert (∀ i, i < length good → is_Some (user_answers !! (S idx + i)))
      as Hsel'.
    { intros i Hi. specialize (Hsel (S i) ltac:(simpl; lia)).
      by replace (idx + S i) with (S idx + i) in Hsel by lia. }
    destruct (py_eq a c); by apply IH.
Qed.

(** X29.  An item from which ["correct"] cannot be read makes the grading
    fail with the error of that access, [KeyError] for a dict without the
    key and [TypeError] for an item that is not a dict: no score and no
    result line is shown, also for the items before it. *)
Theorem grading_stops_at_unreadable_item (good rest : list json) (bad : json)
        (user_answers : gmap nat json) (e : exn) :
  Forall (λ q, ∃ c, getitem q (lit "correct") = Ok c) good →
  (∀ i, i < length good → is_Some (user_answers !! i)) →
  getitem bad (lit "correct") = Err e →
  submit_quiz (JList (good ++ bad :: rest)) user_answers = Err e
  ∧ (e = TypeError ∨ e = KeyError (KeyStr (lit "correct"))).
Proof.
  intros Hgood Hsel Hbad. split.
  - unfold submit_quiz. simpl.
    by rewrite (grade_loop_stops user_answers bad rest e Hbad good 0 0 []).
  - unfold getitem in Hbad. destruct bad; try (injection Hbad as <-; by left).
    destruct (dict_get _ _); [done|]. injection Hbad as <-. by right.
Qed.

End grading.

(** [quiz_result_lines] at the quiz of two items with the selections
    right on the first and wrong on the second. *)
Lemma quiz_result_lines_witness :
  ∃ g, submit_quiz (H := strings_only) (JList two_questions)
                   (answers_of selections) = Ok g
       ∧ results g
         = imap (λ i p, if same_string p.1 p.2
                        then Correct (i + 1)
                        else Incorrect (i + 1) (JStr p.2))
                (zip selections [lit "a"; lit "b"])
       ∧ length (results g) = length two_questions.
Proof.
  apply (quiz_result_lines (H := strings_only)).
  - repeat constructor.
  - reflexivity.
  - intros [|[|i]] a; simpl; intros [= <-]; vm_compute; reflexivity.
Defined.

(** [grading_stops_at_unreadable_item] at the quiz of two items followed
    by an item without ["correct"]. *)
Lemma grading_stops_at_unreadable_item_witness :
  let bad := JDict [(lit "question", JStr (lit "Q3"))] in
  submit_quiz (H := strings_only) (JList (two_questions ++ bad :: []))
              (answers_of (selections ++ [JNull]))
  = Err (KeyError (KeyStr (lit "correct")))
  ∧ (KeyError (KeyStr (lit "correct")) = TypeError
     ∨ KeyError (KeyStr (lit "correct"))
       = KeyError (KeyStr (lit "correct"))).
Proof.
  intros bad.
  apply (grading_stops_at_unreadable_item (H := strings_only)).
  - repeat constructor; eexists; vm_compute; reflexivity.
  - intros [|[|i]] Hi; [| |simpl in Hi; lia]; vm_compute; eauto.
  - vm_compute. reflexivity.
Defined.

End more_grading_properties.

(* ================================================================= *)
(** ** Temporary copies *)

Module temp_name_properties.
Import config utils file_manager spec samples.
Import registry_properties type_properties.

Lemma string_of_uint_plain (d : Decimal.uint) :
  Forall (λ c, c ≠ 46%N ∧ c ≠ 47%N) (lit (NilEmpty.string_of_uint d)).
Proof.
  induction d; simpl; try (constructor; [done|exact IHd]). constructor.
Qed.

Lemma str_of_Z_plain (z : Z) :
  Forall (λ c, c ≠ 46%N ∧ c ≠ 47%N) (str_of_Z z).
Proof.
  unfold str_of_Z, NilZero.string_of_int, NilZero.string_of_uint.
  destruct (Z.to_int z) as [d|d].
  - destruct d; try apply string_of_uint_plain. by repeat constructor.
  - change (lit (String "-" ?x)) with (45%N :: lit x).
    constructor; [done|].
    destruct d; try apply string_of_uint_plain. by repeat constructor.
Qed.

Lemma split_on_cur (sep : N) (s cur : str) :
  ∃ first rest,
    split_on sep s [] = first :: rest
    ∧ split_on sep s cur = (cur ++ first) :: rest.
Proof.
  revert cur. induction s as [|c s IH]; intros cur; simpl.
  - exists [], []. by rewrite app_nil_r.
  - destruct (c =? sep)%N.
    + exists [], (split_on sep s []). by rewrite app_nil_r.
    + destruct (IH [c]) as (first & rest & E1 & E2).
      destruct (IH (cur ++ [c])) as (first' & rest' & E1' & E2').
      rewrite E1 in E1'. injection E1' as <- <-.
      exists (c :: first), rest. simpl in E2. rewrite E2, E2'.
      by rewrite <- app_assoc.
Qed.

Lemma split_on_prefix (sep : N) (pre s : str) :
  sep ∉ pre →
  ∃ first rest,
    split_on sep s [] = first :: rest
    ∧ split_on sep (pre ++ s) [] = (pre ++ first) :: rest.
Proof.
  intros Hpre.
  assert (∀ cur, split_on sep (pre ++ s) cur = split_on sep s (cur ++ pre))
    as E.
  { induction pre as [|c pre IH]; intros cur; simpl.
    - by rewrite app_nil_r.
    - apply not_elem_of_cons in Hpre as [Hc Hpre].
      destruct (N.eqb_spec c sep) as [->|_]; [done|].
      rewrite IH by done. by rewrite <- app_assoc. }
  rewrite E. simpl. apply split_on_cur.
Qed.

Lemma rfind_from_add (c : N) (s : str) (k : nat) :
  ∀ i found,
    rfind_from c s (k + i) (Nat.add k <$> found)
    = Nat.add k <$> rfind_from c s i found.
Proof.
  induction s as [|x s IH]; intros i found; simpl; [done|].
  rewrite <- Nat.add_succ_r.
  destruct (x =? c)%N; [apply (IH (S i) (Some i))|apply IH].
Qed.

Lemma rfind_prefix (c : N) (pre s : str) :
  c ∉ pre →
  rfind c (pre ++ s) = Nat.add (length pre) <$> rfind c s.
Proof.
  intros Hpre. unfold rfind.
  assert (∀ i, rfind_from c (pre ++ s) i None
               = rfind_from c s (i + length pre) None) as E.
  { induction pre as [|x pre IH]; intros i; simpl.
    - by rewrite Nat.add_0_r.
    - apply not_elem_of_cons in Hpre as [Hx Hpre].
      destruct (N.eqb_spec x c) as [->|_]; [done|].
      rewrite IH by done. f_equal. lia. }
  rewrite E. simpl.
  pose proof (rfind_from_add c s (length pre) 0 None) as Ha.
  rewrite Nat.add_0_r in Ha. exact Ha.
Qed.

Lemma path_suffix_prefix (pre filename : str) :
  pre ≠ [] → 46%N ∉ pre → 47%N ∉ pre →
  path_suffix filename ≠ [] →
  path_suffix (pre ++ filename) = path_suffix filename.
Proof.
  intros Hne Hdot Hslash Hsuf.
  destruct (split_on_prefix 47 pre filename Hslash)
    as (first & rest & E1 & E2).
  assert (pre ++ first ≠ [] ∧ pre ++ first ≠ lit ".") as Hvalid.
  { split; [by destruct pre|].
    destruct pre as [|c pre]; [done|]. simpl. intros [= -> _].
    apply Hdot. apply list_elem_of_here. }
  unfold path_suffix in *. unfold path_name in *. rewrite E1 in Hsuf.
  rewrite E1, E2. rewrite !filter_cons in *.
  rewrite decide_True by done.
  destruct (filter _ rest) as [|x l] eqn:Erest.
  - destruct (decide (first ≠ [] ∧ first ≠ lit ".")); simpl in *;
      [|by destruct (rfind _ _)].
    rewrite rfind_prefix by done.
    destruct (rfind 46%N first) as [i|]; simpl; [|done].
    rewrite length_app.
    destruct ((0 <? i) && (i <? length first - 1)) eqn:Ei; [|done].
    apply andb_true_iff in Ei as [H1 H2].
    apply Nat.ltb_lt in H1, H2.
    assert ((0 <? length pre + i)
            && (length pre + i <? length pre + length first - 1) = true) as ->.
    { apply andb_true_iff. split; apply Nat.ltb_lt; lia. }
    by rewrite drop_app_add.
  - destruct (decide (first ≠ [] ∧ first ≠ lit ".")); simpl in *; done.
Qed.

Section temp.
Context `{UnicodeData}.

(** X30.  The temporary copy of an accepted file has the extension of the
    file: its name is [temp_], the whole seconds of the clock, [_] and the
    original name, and it passes the type check as the original name
    does. *)
Theorem temp_copy_keeps_extension (original_name : str) (s : Session) :
  validate_file_type original_name SUPPORTED_EXTS = true →
  ∃ temp_filename,
    create_temp_filename original_name s = (Ok temp_filename, s)
    ∧ temp_filename
      = lit "temp_" ++ str_of_Z (int_of_float (now (local s))) ++ lit "_"
        ++ original_name
    ∧ extension temp_filename = extension original_name
    ∧ validate_file_type temp_filename SUPPORTED_EXTS = true.
Proof.
  intros Hv. eexists. split; [reflexivity|]. split; [reflexivity|].
  assert (path_suffix original_name ≠ []) as Hsuf.
  { intros E. unfold validate_file_type, extension in Hv. rewrite E in Hv.
    vm_compute in Hv. discriminate. }
  set (pre := lit "temp_" ++ str_of_Z (int_of_float (now (local s)))
              ++ lit "_").
  assert (path_suffix (pre ++ original_name) = path_suffix original_name)
    as E.
  { pose proof (str_of_Z_plain (int_of_float (now (local s)))) as Hz.
    rewrite Forall_forall in Hz.
    apply path_suffix_prefix; [done| | |done].
    - unfold pre. rewrite !not_elem_of_app. split_and!.
      + intros Hin. pose proof (bool_decide_pack _ Hin) as Hb.
        vm_compute in Hb. exact Hb.
      + intros Hin. by destruct (Hz _ Hin).
      + intros Hin. pose proof (bool_decide_pack _ Hin) as Hb.
        vm_compute in Hb. exact Hb.
    - unfold pre. rewrite !not_elem_of_app. split_and!.
      + intros Hin. pose proof (bool_decide_pack _ Hin) as Hb.
        vm_compute in Hb. exact Hb.
      + intros Hin. by destruct (Hz _ Hin).
      + intros Hin. pose proof (bool_decide_pack _ Hin) as Hb.
        vm_compute in Hb. exact Hb. }
  unfold pre in E. rewrite <- !app_assoc in E.
  unfold validate_file_type in *. unfold extension in *. rewrite E.
  done.
Qed.
End temp.

(** [temp_copy_keeps_extension] at [notes.PDF]. *)
Lemma temp_copy_keeps_extension_witness :
  ∃ temp_filename,
    create_temp_filename (lit "notes.PDF") fresh_session
    = (Ok temp_filename, fresh_session)
    ∧ temp_filename
      = lit "temp_" ++ str_of_Z (int_of_float (now (local fresh_session)))
        ++ lit "_" ++ lit "notes.PDF"
    ∧ extension (H := ascii_names) temp_filename
      = extension (H := ascii_names) (lit "notes.PDF")
    ∧ validate_file_type (H := ascii_names) temp_filename SUPPORTED_EXTS
      = true.
Proof.
  apply (temp_copy_keeps_extension (H := ascii_names)).
  vm_compute. reflexivity.
Defined.

End temp_name_properties.
